(** * Sports tracker: categorisation engine, settings store, response cache
      and watch-party overlay

    A shallow embedding of the core of [shared.js] (and of the favourite-team
    list of the settings page) together with the properties its design
    document states about it.

    JavaScript values are embedded as the inductive type [jsval]; strings are
    lists of UTF-16 code units.  The browser functions the code calls
    ([JSON.stringify], [JSON.parse], [btoa], [atob], [String], the storage
    objects) are modelled next to the functions of the repository, which keep
    their source names. *)

From Stdlib Require Import ZArith NArith List String Ascii Bool Lia.
From Stdlib Require Import Decimal DecimalN.
From stdpp Require Import base gmap list.

Local Open Scope Z_scope.

(** ** JavaScript values *)

(** A JavaScript string is a sequence of UTF-16 code units. *)
Abbreviation jsstring := (list N).

(** An ASCII literal as a JavaScript string. *)
Definition js (s : string) : jsstring :=
  List.map N_of_ascii (list_ascii_of_string s).

(** The values the modelled code handles.  Numbers are the integers; an
    object is its list of own properties in insertion order; [VUndef] is
    [undefined]. *)
#[local] Unset Elimination Schemes.
Inductive jsval : Type :=
| VUndef
| VNull
| VBool (b : bool)
| VNum (n : Z)
| VStr (s : jsstring)
| VArr (elems : list jsval)
| VObj (props : list (jsstring * jsval)).
#[local] Set Elimination Schemes.

(** Induction over a value reaches the elements of an array and the property
    values of an object. *)
Section jsval_induction.
Variable P : jsval -> Prop.
Hypothesis HUndef : P VUndef.
Hypothesis HNull : P VNull.
Hypothesis HBool : forall b, P (VBool b).
Hypothesis HNum : forall n, P (VNum n).
Hypothesis HStr : forall s, P (VStr s).
Hypothesis HArr : forall elems, Forall P elems -> P (VArr elems).
Hypothesis HObj : forall props, Forall (fun kv => P (snd kv)) props -> P (VObj props).

Fixpoint jsval_ind (v : jsval) : P v :=
  match v with
  | VUndef => HUndef
  | VNull => HNull
  | VBool b => HBool b
  | VNum n => HNum n
  | VStr s => HStr s
  | VArr elems =>
      HArr elems
        ((fix go (l : list jsval) : Forall P l :=
            match l with
            | [] => @List.Forall_nil _ P
            | x :: r => @List.Forall_cons _ P x r (jsval_ind x) (go r)
            end) elems)
  | VObj props =>
      HObj props
        ((fix go (l : list (jsstring * jsval)) : Forall (fun kv => P (snd kv)) l :=
            match l with
            | [] => @List.Forall_nil _ _
            | kv :: r => @List.Forall_cons _ (fun kv => P (snd kv)) kv r (jsval_ind (snd kv)) (go r)
            end) props)
  end.
End jsval_induction.

(** Structural equality of values, as a boolean. *)
Fixpoint jsval_eqb (a b : jsval) : bool :=
  match a, b with
  | VUndef, VUndef => true
  | VNull, VNull => true
  | VBool x, VBool y => Bool.eqb x y
  | VNum x, VNum y => x =? y
  | VStr x, VStr y => bool_decide (x = y)
  | VArr l, VArr m =>
      (fix go (l m : list jsval) : bool :=
         match l, m with
         | [], [] => true
         | x :: l', y :: m' => jsval_eqb x y && go l' m'
         | _, _ => false
         end) l m
  | VObj p, VObj q =>
      (fix go (p q : list (jsstring * jsval)) : bool :=
         match p, q with
         | [], [] => true
         | (k, x) :: p', (k', y) :: q' =>
             bool_decide (k = k') && jsval_eqb x y && go p' q'
         | _, _ => false
         end) p q
  | _, _ => false
  end.

Lemma jsval_eqb_spec (a b : jsval) : jsval_eqb a b = true <-> a = b.
Proof.
  revert b. induction a as [ | | x | x | x | l IH | p IH ] using jsval_ind;
    intros [ | | y | y | y | m | q ]; simpl; try (split; [discriminate | congruence]);
    try tauto.
  - rewrite Bool.eqb_true_iff. split; congruence.
  - rewrite Z.eqb_eq. split; congruence.
  - rewrite bool_decide_eq_true. split; congruence.
  - revert m. induction IH as [ | x l Hx _ IHl ]; intros [ | y m ];
      try (split; [discriminate | congruence]); [tauto | ].
    rewrite andb_true_iff, Hx, IHl. split.
    + intros [-> E]. congruence.
    + intros E. injection E as -> ->. tauto.
  - revert q. induction IH as [ | [k x] p Hx _ IHp ]; intros [ | [k' y] q ];
      try (split; [discriminate | congruence]); [tauto | ].
    simpl in Hx. rewrite !andb_true_iff, bool_decide_eq_true, Hx, IHp. split.
    + intros [[-> ->] E]. congruence.
    + intros E. injection E as -> -> ->. tauto.
Qed.

#[global] Instance jsval_eq_dec : EqDecision jsval.
Proof.
  intros a b. destruct (jsval_eqb a b) eqn:E.
  - left. now apply jsval_eqb_spec.
  - right. intros H. apply jsval_eqb_spec in H. congruence.
Defined.

(** [ToBoolean]. *)
Definition truthy (v : jsval) : bool :=
  match v with
  | VUndef | VNull => false
  | VBool b => b
  | VNum n => negb (n =? 0)
  | VStr s => match s with [] => false | _ => true end
  | VArr _ | VObj _ => true
  end.

Definition jsstring_eqb (a b : jsstring) : bool := bool_decide (a = b).

(** [a === b].  Two arrays or objects are equal only when they are the same
    reference; the values compared here come from separate literals or parses,
    so they are never identical. *)
Definition strict_eq (a b : jsval) : bool :=
  match a, b with
  | VUndef, VUndef => true
  | VNull, VNull => true
  | VBool x, VBool y => Bool.eqb x y
  | VNum x, VNum y => x =? y
  | VStr x, VStr y => jsstring_eqb x y
  | _, _ => false
  end.

(** ** Team levels and game categories *)

Module TEAM_LEVELS.
Definition TOP_TIER : jsstring := js "top-tier".
Definition FAVORITE : jsstring := js "favorite".
Definition THINKIN_SUPEY : jsstring := js "thinkin-supey".
Definition YA_NEVER_KNOW : jsstring := js "ya-never-know".
End TEAM_LEVELS.

Module GAME_CATEGORIES.
Definition ROB_LOWE : jsstring := js "rob-lowe".
Definition PLAYOFF_PREVIEW : jsstring := js "playoff-preview".
Definition MEASURING_STICK : jsstring := js "measuring-stick".
Definition BEAT_EM_OFF : jsstring := js "beat-em-off".
Definition HOUSE_DIVIDED : jsstring := js "house-divided".
End GAME_CATEGORIES.

(** [categorizeGame(homeTeamCategory, awayTeamCategory)]. *)
Definition categorizeGame (homeTeamCategory awayTeamCategory : jsval) : jsval :=
  let isHomeThinkinSupey := strict_eq homeTeamCategory (VStr TEAM_LEVELS.THINKIN_SUPEY) in
  let isAwayThinkinSupey := strict_eq awayTeamCategory (VStr TEAM_LEVELS.THINKIN_SUPEY) in
  let isHomeYaNeverKnow := strict_eq homeTeamCategory (VStr TEAM_LEVELS.YA_NEVER_KNOW) in
  let isAwayYaNeverKnow := strict_eq awayTeamCategory (VStr TEAM_LEVELS.YA_NEVER_KNOW) in
  let isHomeFavorite := isHomeThinkinSupey || isHomeYaNeverKnow in
  let isAwayFavorite := isAwayThinkinSupey || isAwayYaNeverKnow in
  let isHomeTopTierOnly := strict_eq homeTeamCategory (VStr TEAM_LEVELS.TOP_TIER) in
  let isAwayTopTierOnly := strict_eq awayTeamCategory (VStr TEAM_LEVELS.TOP_TIER) in
  if isHomeFavorite && isAwayFavorite then
    VStr GAME_CATEGORIES.HOUSE_DIVIDED
  else if (isHomeTopTierOnly && isAwayThinkinSupey) || (isAwayTopTierOnly && isHomeThinkinSupey) then
    VStr GAME_CATEGORIES.PLAYOFF_PREVIEW
  else if isHomeTopTierOnly && isAwayTopTierOnly then
    VStr GAME_CATEGORIES.ROB_LOWE
  else if (isHomeYaNeverKnow && isAwayTopTierOnly) || (isAwayYaNeverKnow && isHomeTopTierOnly) then
    VStr GAME_CATEGORIES.MEASURING_STICK
  else
    let isHomeRegular := negb (truthy homeTeamCategory) in
    let isAwayRegular := negb (truthy awayTeamCategory) in
    if isHomeFavorite && isAwayRegular then
      VStr GAME_CATEGORIES.BEAT_EM_OFF
    else if isAwayFavorite && isHomeRegular then
      VStr GAME_CATEGORIES.BEAT_EM_OFF
    else
      VNull.

(** The four tier values a team can carry. *)
Definition tiers : list jsval :=
  [ VNull; VStr TEAM_LEVELS.TOP_TIER; VStr TEAM_LEVELS.THINKIN_SUPEY;
    VStr TEAM_LEVELS.YA_NEVER_KNOW ].

(** The rule table of the design document, written from its words (not from
    the code): the predicates name the tiers, and [one_each] applies a rule to
    both orderings of the pair. *)
Module RuleTable.
Definition is_tier (name : jsstring) (t : jsval) : bool :=
  bool_decide (t = VStr name).
Definition favorite_tier (t : jsval) : bool :=
  is_tier TEAM_LEVELS.THINKIN_SUPEY t || is_tier TEAM_LEVELS.YA_NEVER_KNOW t.
Definition top_tier (t : jsval) : bool := is_tier TEAM_LEVELS.TOP_TIER t.
Definition no_tier (t : jsval) : bool := bool_decide (t = VNull).
Definition one_each (p q : jsval -> bool) (a b : jsval) : bool :=
  (p a && q b) || (p b && q a).

Definition category (homeTier awayTier : jsval) : jsval :=
  if favorite_tier homeTier && favorite_tier awayTier then
    VStr GAME_CATEGORIES.HOUSE_DIVIDED
  else if one_each top_tier (is_tier TEAM_LEVELS.THINKIN_SUPEY) homeTier awayTier then
    VStr GAME_CATEGORIES.PLAYOFF_PREVIEW
  else if top_tier homeTier && top_tier awayTier then
    VStr GAME_CATEGORIES.ROB_LOWE
  else if one_each (is_tier TEAM_LEVELS.YA_NEVER_KNOW) top_tier homeTier awayTier then
    VStr GAME_CATEGORIES.MEASURING_STICK
  else if one_each favorite_tier no_tier homeTier awayTier then
    VStr GAME_CATEGORIES.BEAT_EM_OFF
  else VNull.
End RuleTable.

(** ** Conversion to string *)

(** The decimal digits of a natural number, as code units. *)
Fixpoint uint_chars (d : uint) : jsstring :=
  match d with
  | Nil => []
  | D0 d => 48%N :: uint_chars d
  | D1 d => 49%N :: uint_chars d
  | D2 d => 50%N :: uint_chars d
  | D3 d => 51%N :: uint_chars d
  | D4 d => 52%N :: uint_chars d
  | D5 d => 53%N :: uint_chars d
  | D6 d => 54%N :: uint_chars d
  | D7 d => 55%N :: uint_chars d
  | D8 d => 56%N :: uint_chars d
  | D9 d => 57%N :: uint_chars d
  end.

(** [Number.prototype.toString] on an integer: plain decimal digits (the
    form JavaScript prints below 10^21). *)
Definition Number_toString (n : Z) : jsstring :=
  match n with
  | Z0 => [48%N]
  | Zpos p => uint_chars (N.to_uint (Npos p))
  | Zneg p => 45%N :: uint_chars (N.to_uint (Npos p))
  end.

(** [String(v)].  An array prints its elements joined by commas, with
    [null] and [undefined] elements printed as nothing. *)
Fixpoint ToString (v : jsval) : jsstring :=
  match v with
  | VUndef => js "undefined"
  | VNull => js "null"
  | VBool true => js "true"
  | VBool false => js "false"
  | VNum n => Number_toString n
  | VStr s => s
  | VArr elems =>
      (fix join (l : list jsval) : jsstring :=
         match l with
         | [] => []
         | e :: r =>
             let item := match e with VUndef | VNull => [] | _ => ToString e end in
             match r with
             | [] => item
             | _ :: _ => item ++ 44%N :: join r
             end
         end) elems
  | VObj _ => js "[object Object]"
  end.

(** [arr.includes(x)]. *)
Definition Array_includes (arr : list jsval) (x : jsval) : bool :=
  existsb (fun e => strict_eq e x) arr.

(** [arr.map(String)]. *)
Definition Array_map_String (arr : list jsval) : list jsval :=
  List.map (fun e => VStr (ToString e)) arr.

(** ** Team categorisation *)

(** [categorizeTeam(teamId, topTierTeamIds, favoriteTeamIds)]. *)
Definition categorizeTeam (teamId : jsval) (topTierTeamIds favoriteTeamIds : list jsval)
  : jsval :=
  let teamIdStr := VStr (ToString teamId) in
  let isTopTier := Array_includes (Array_map_String topTierTeamIds) teamIdStr in
  let isFavorite := Array_includes (Array_map_String favoriteTeamIds) teamIdStr in
  if isFavorite && isTopTier then VStr TEAM_LEVELS.THINKIN_SUPEY
  else if isFavorite && negb isTopTier then VStr TEAM_LEVELS.YA_NEVER_KNOW
  else if isTopTier then VStr TEAM_LEVELS.TOP_TIER
  else VNull.

(** The classifier as the design document words it: both id collections are
    normalised to sets of strings and the tier is read off the two
    memberships. *)
Module Classifier.
Definition normalize (ids : list jsval) : gset jsstring :=
  list_to_set (List.map ToString ids).

Definition classify (teamId : jsstring) (topTierIds favoriteIds : gset jsstring) : jsval :=
  let isTop := bool_decide (teamId ∈ topTierIds) in
  let isFav := bool_decide (teamId ∈ favoriteIds) in
  match isTop, isFav with
  | true, true => VStr TEAM_LEVELS.THINKIN_SUPEY
  | false, true => VStr TEAM_LEVELS.YA_NEVER_KNOW
  | true, false => VStr TEAM_LEVELS.TOP_TIER
  | false, false => VNull
  end.
End Classifier.

(** ** Objects as property lists *)

(** [obj[k]] on the own properties. *)
Fixpoint obj_get (k : jsstring) (props : list (jsstring * jsval)) : jsval :=
  match props with
  | [] => VUndef
  | (k', v) :: r => if bool_decide (k = k') then v else obj_get k r
  end.

(** [obj[k] = v]: an existing property keeps its place, a new one goes last. *)
Fixpoint obj_set (k : jsstring) (v : jsval) (props : list (jsstring * jsval))
  : list (jsstring * jsval) :=
  match props with
  | [] => [(k, v)]
  | (k', v') :: r =>
      if bool_decide (k = k') then (k, v) :: r else (k', v') :: obj_set k v r
  end.

Definition obj_has (k : jsstring) (props : list (jsstring * jsval)) : bool :=
  existsb (fun kv => bool_decide (k = fst kv)) props.

(** ** JSON text *)

(** Results of parsing a prefix of a text: a value and the rest of the text,
    a [SyntaxError], or a text that leaves the model ([PBeyond]: a number
    with a fraction or an exponent or a magnitude above 2^53 - 1, an object
    with an integer-like key). *)
Inductive parsed (A : Type) : Type :=
| POk (a : A) (rest : jsstring)
| PSyntaxError
| PBeyond.
Arguments POk {A} a rest.
Arguments PSyntaxError {A}.
Arguments PBeyond {A}.

Section JSON_text.
Local Open Scope N_scope.

Definition is_digit (c : N) : bool := (48 <=? c) && (c <=? 57).

(** A key that reads as a canonical non-negative integer ("0", "7", "42").
    JavaScript enumerates such keys before the others, whatever the order of
    insertion; objects with such keys are outside this model. *)
Definition is_integer_key (k : jsstring) : bool :=
  match k with
  | [] => false
  | [c] => is_digit c
  | c :: _ => is_digit c && negb (c =? 48) && forallb is_digit k
  end.

Definition hex_digit (n : N) : N := if n <? 10 then 48 + n else 87 + n.

(** [\uXXXX] with lower-case digits. *)
Definition unicode_escape (c : N) : jsstring :=
  [92; 117; hex_digit (c / 4096 mod 16); hex_digit (c / 256 mod 16);
   hex_digit (c / 16 mod 16); hex_digit (c mod 16)].

Definition is_high_surrogate (c : N) : bool := (55296 <=? c) && (c <=? 56319).
Definition is_low_surrogate (c : N) : bool := (56320 <=? c) && (c <=? 57343).

(** One code unit that is not a surrogate, quoted. *)
Definition quote_unit (c : N) : jsstring :=
  if c =? 8 then [92; 98]
  else if c =? 9 then [92; 116]
  else if c =? 10 then [92; 110]
  else if c =? 12 then [92; 102]
  else if c =? 13 then [92; 114]
  else if c =? 34 then [92; 34]
  else if c =? 92 then [92; 92]
  else if c <? 32 then unicode_escape c
  else [c].

(** The characters of [QuoteJSONString], without the enclosing quotes: a
    surrogate pair is copied, a lone surrogate is escaped. *)
Fixpoint quote_units (s : jsstring) : jsstring :=
  match s with
  | [] => []
  | c :: r =>
      if is_high_surrogate c then
        match r with
        | d :: r' =>
            if is_low_surrogate d then c :: d :: quote_units r'
            else unicode_escape c ++ quote_units r
        | [] => unicode_escape c
        end
      else if is_low_surrogate c then unicode_escape c ++ quote_units r
      else quote_unit c ++ quote_units r
  end.

Definition QuoteJSONString (s : jsstring) : jsstring :=
  34 :: quote_units s ++ [34].

(** The JSON text of a value ([SerializeJSONProperty]); an [undefined] array
    element prints as [null], an [undefined] property is left out. *)
Fixpoint SerializeJSON (v : jsval) : jsstring :=
  match v with
  | VUndef => js "null"
  | VNull => js "null"
  | VBool true => js "true"
  | VBool false => js "false"
  | VNum n => Number_toString n
  | VStr s => QuoteJSONString s
  | VArr elems =>
      91 :: (fix elements (l : list jsval) : jsstring :=
               match l with
               | [] => [93]
               | e :: r =>
                   SerializeJSON e ++
                   match r with
                   | [] => [93]
                   | _ :: _ => 44 :: elements r
                   end
               end) elems
  | VObj props =>
      123 :: (fix members (l : list (jsstring * jsval)) (first : bool) : jsstring :=
                match l with
                | [] => [125]
                | (k, x) :: r =>
                    match x with
                    | VUndef => members r first
                    | _ =>
                        (if first then [] else [44]) ++
                        QuoteJSONString k ++ 58 :: SerializeJSON x ++ members r false
                    end
                end) props true
  end.

(** [JSON.stringify(v)]: [None] stands for the result [undefined]. *)
Definition JSON_stringify (v : jsval) : option jsstring :=
  match v with
  | VUndef => None
  | _ => Some (SerializeJSON v)
  end.

Definition is_ws (c : N) : bool :=
  (c =? 32) || (c =? 9) || (c =? 10) || (c =? 13).

Fixpoint skip_ws (t : jsstring) : jsstring :=
  match t with
  | [] => []
  | c :: r => if is_ws c then skip_ws r else t
  end.

Definition hex_val (c : N) : option N :=
  if (48 <=? c) && (c <=? 57) then Some (c - 48)
  else if (97 <=? c) && (c <=? 102) then Some (c - 87)
  else if (65 <=? c) && (c <=? 70) then Some (c - 55)
  else None.

Definition hex4 (a b c d : N) : option N :=
  match hex_val a, hex_val b, hex_val c, hex_val d with
  | Some x, Some y, Some z, Some w => Some (x * 4096 + y * 256 + z * 16 + w)
  | _, _, _, _ => None
  end.

Definition pcons (c : N) (p : parsed jsstring) : parsed jsstring :=
  match p with
  | POk s rest => POk (c :: s) rest
  | PSyntaxError => PSyntaxError
  | PBeyond => PBeyond
  end.

(** The characters of a string literal, after the opening quote and through
    the closing one. *)
Fixpoint parse_chars (t : jsstring) : parsed jsstring :=
  match t with
  | [] => PSyntaxError
  | c :: r =>
      if c =? 34 then POk [] r
      else if c =? 92 then
        match r with
        | [] => PSyntaxError
        | e :: r1 =>
            if e =? 34 then pcons 34 (parse_chars r1)
            else if e =? 92 then pcons 92 (parse_chars r1)
            else if e =? 47 then pcons 47 (parse_chars r1)
            else if e =? 98 then pcons 8 (parse_chars r1)
            else if e =? 102 then pcons 12 (parse_chars r1)
            else if e =? 110 then pcons 10 (parse_chars r1)
            else if e =? 114 then pcons 13 (parse_chars r1)
            else if e =? 116 then pcons 9 (parse_chars r1)
            else if e =? 117 then
              match r1 with
              | h1 :: h2 :: h3 :: h4 :: r2 =>
                  match hex4 h1 h2 h3 h4 with
                  | Some u => pcons u (parse_chars r2)
                  | None => PSyntaxError
                  end
              | _ => PSyntaxError
              end
            else PSyntaxError
        end
      else if c <? 32 then PSyntaxError
      else pcons c (parse_chars r)
  end.

Definition digit_cons (c : N) (d : uint) : uint :=
  if c =? 48 then D0 d else if c =? 49 then D1 d else if c =? 50 then D2 d
  else if c =? 51 then D3 d else if c =? 52 then D4 d else if c =? 53 then D5 d
  else if c =? 54 then D6 d else if c =? 55 then D7 d else if c =? 56 then D8 d
  else D9 d.

(** The longest run of decimal digits at the head of a text. *)
Fixpoint read_uint (t : jsstring) : uint * jsstring :=
  match t with
  | [] => (Nil, [])
  | c :: r =>
      if is_digit c then
        let (d, r') := read_uint r in (digit_cons c d, r')
      else (Nil, t)
  end.

Definition MAX_SAFE_INTEGER : N := 9007199254740991.

(** A number literal, after its sign. *)
Definition parse_number (negative : bool) (t : jsstring) : parsed jsval :=
  let (d, r) := read_uint t in
  let fraction_or_exponent :=
    match r with
    | c :: _ => (c =? 46) || (c =? 101) || (c =? 69)
    | [] => false
    end in
  match d with
  | Nil => PSyntaxError
  | D0 (D0 _ | D1 _ | D2 _ | D3 _ | D4 _ | D5 _ | D6 _ | D7 _ | D8 _ | D9 _) =>
      PSyntaxError
  | _ =>
      if fraction_or_exponent then PBeyond
      else
        let n := N.of_uint d in
        if n <=? MAX_SAFE_INTEGER then
          POk (VNum (if negative then Z.opp (Z.of_N n) else Z.of_N n)) r
        else PBeyond
  end.

(** A literal name ([true], [false], [null]) at the head of a text. *)
Fixpoint expect (name : jsstring) (t : jsstring) : option jsstring :=
  match name with
  | [] => Some t
  | c :: name' =>
      match t with
      | c' :: r => if c =? c' then expect name' r else None
      | [] => None
      end
  end.

Definition parse_literal (name : string) (v : jsval) (t : jsstring) : parsed jsval :=
  match expect (js name) t with
  | Some r => POk v r
  | None => PSyntaxError
  end.

(** The object [JSON.parse] builds from the members of an object literal, in
    the order of the text: a repeated key overwrites the earlier value. *)
Definition object_of_members (members : list (jsstring * jsval)) (rest : jsstring)
  : parsed jsval :=
  if existsb (fun kv => is_integer_key (fst kv)) members then PBeyond
  else POk (VObj (fold_left (fun o kv => obj_set (fst kv) (snd kv) o) members [])) rest.

(** Recursive descent over the JSON grammar.  [fuel] bounds the depth of the
    recursion; the length of the text is always enough. *)
Fixpoint parse_value (fuel : nat) (t : jsstring) {struct fuel} : parsed jsval :=
  match fuel with
  | O => PBeyond
  | S fuel =>
      match skip_ws t with
      | [] => PSyntaxError
      | c :: r =>
          if c =? 123 then
            match skip_ws r with
            | [] => PSyntaxError
            | c1 :: r1 =>
                if c1 =? 125 then POk (VObj []) r1
                else
                  match parse_members fuel (c1 :: r1) with
                  | POk members r2 => object_of_members members r2
                  | PSyntaxError => PSyntaxError
                  | PBeyond => PBeyond
                  end
            end
          else if c =? 91 then
            match skip_ws r with
            | [] => PSyntaxError
            | c1 :: r1 =>
                if c1 =? 93 then POk (VArr []) r1
                else
                  match parse_elements fuel (c1 :: r1) with
                  | POk elems r2 => POk (VArr elems) r2
                  | PSyntaxError => PSyntaxError
                  | PBeyond => PBeyond
                  end
            end
          else if c =? 34 then
            match parse_chars r with
            | POk s r1 => POk (VStr s) r1
            | PSyntaxError => PSyntaxError
            | PBeyond => PBeyond
            end
          else if c =? 116 then parse_literal "true" (VBool true) (c :: r)
          else if c =? 102 then parse_literal "false" (VBool false) (c :: r)
          else if c =? 110 then parse_literal "null" VNull (c :: r)
          else if c =? 45 then parse_number true r
          else if is_digit c then parse_number false (c :: r)
          else PSyntaxError
      end
  end

with parse_elements (fuel : nat) (t : jsstring) {struct fuel} : parsed (list jsval) :=
  match fuel with
  | O => PBeyond
  | S fuel =>
      match parse_value fuel t with
      | POk v r =>
          match skip_ws r with
          | [] => PSyntaxError
          | c :: r1 =>
              if c =? 44 then
                match parse_elements fuel r1 with
                | POk vs r2 => POk (v :: vs) r2
                | PSyntaxError => PSyntaxError
                | PBeyond => PBeyond
                end
              else if c =? 93 then POk [v] r1
              else PSyntaxError
          end
      | PSyntaxError => PSyntaxError
      | PBeyond => PBeyond
      end
  end

with parse_members (fuel : nat) (t : jsstring) {struct fuel}
  : parsed (list (jsstring * jsval)) :=
  match fuel with
  | O => PBeyond
  | S fuel =>
      match skip_ws t with
      | [] => PSyntaxError
      | q :: r =>
          if q =? 34 then
            match parse_chars r with
            | POk k r1 =>
                match skip_ws r1 with
                | [] => PSyntaxError
                | c :: r2 =>
                    if c =? 58 then
                      match parse_value fuel r2 with
                      | POk v r3 =>
                          match skip_ws r3 with
                          | [] => PSyntaxError
                          | c3 :: r4 =>
                              if c3 =? 44 then
                                match parse_members fuel r4 with
                                | POk kvs r5 => POk ((k, v) :: kvs) r5
                                | PSyntaxError => PSyntaxError
                                | PBeyond => PBeyond
                                end
                              else if c3 =? 125 then POk [(k, v)] r4
                              else PSyntaxError
                          end
                      | PSyntaxError => PSyntaxError
                      | PBeyond => PBeyond
                      end
                    else PSyntaxError
                end
            | PSyntaxError => PSyntaxError
            | PBeyond => PBeyond
            end
          else PSyntaxError
      end
  end.

(** [JSON.parse(text)] on a whole text: one value, then only white space. *)
Definition JSON_parse (text : jsstring) : parsed jsval :=
  match parse_value (S (length text)) text with
  | POk v r =>
      match skip_ws r with
      | [] => POk v []
      | _ :: _ => PSyntaxError
      end
  | PSyntaxError => PSyntaxError
  | PBeyond => PBeyond
  end.

(** The values that [JSON.stringify] followed by [JSON.parse] gives back
    unchanged: no [undefined], safe integers, and objects whose keys are
    distinct and not integer-like. *)
Fixpoint json_value (v : jsval) : bool :=
  match v with
  | VUndef => false
  | VNull | VBool _ | VStr _ => true
  | VNum n => Z.abs_N n <=? MAX_SAFE_INTEGER
  | VArr elems => forallb json_value elems
  | VObj props =>
      (fix members (l : list (jsstring * jsval)) : bool :=
         match l with
         | [] => true
         | (k, x) :: r =>
             negb (is_integer_key k) && negb (obj_has k r) && json_value x && members r
         end) props
  end.

End JSON_text.

(** ** Base64: [btoa] and [atob] *)

Section Base64.
Local Open Scope N_scope.

(** The character of a 6-bit value in the base64 alphabet. *)
Definition b64_char (n : N) : N :=
  if n <? 26 then 65 + n
  else if n <? 52 then 71 + n
  else if n <? 62 then n - 4
  else if n =? 62 then 43
  else 47.

Definition b64_value (c : N) : option N :=
  if (65 <=? c) && (c <=? 90) then Some (c - 65)
  else if (97 <=? c) && (c <=? 122) then Some (c - 71)
  else if (48 <=? c) && (c <=? 57) then Some (c + 4)
  else if c =? 43 then Some 62
  else if c =? 47 then Some 63
  else None.

Fixpoint b64_encode (bytes : list N) : jsstring :=
  match bytes with
  | [] => []
  | [a] => [b64_char (a / 4); b64_char (a mod 4 * 16); 61; 61]
  | [a; b] =>
      [b64_char (a / 4); b64_char (a mod 4 * 16 + b / 16); b64_char (b mod 16 * 4); 61]
  | a :: b :: c :: r =>
      b64_char (a / 4) :: b64_char (a mod 4 * 16 + b / 16)
      :: b64_char (b mod 16 * 4 + c / 64) :: b64_char (c mod 64) :: b64_encode r
  end.

(** [btoa(s)]: [None] stands for the [InvalidCharacterError] thrown when a
    code unit is above 255. *)
Definition btoa (s : jsstring) : option jsstring :=
  if forallb (fun c => c <? 256) s then Some (b64_encode s) else None.

Definition is_ascii_whitespace (c : N) : bool :=
  (c =? 9) || (c =? 10) || (c =? 12) || (c =? 13) || (c =? 32).

(** Removes one or two [=] at the end of the data. *)
Fixpoint remove_padding (data : jsstring) : jsstring :=
  match data with
  | [] => []
  | c :: r =>
      match r with
      | [] => if c =? 61 then [] else [c]
      | [c'] => if (c =? 61) && (c' =? 61) then [] else c :: remove_padding r
      | _ => c :: remove_padding r
      end
  end.

Fixpoint b64_values (data : jsstring) : option (list N) :=
  match data with
  | [] => Some []
  | c :: r =>
      match b64_value c, b64_values r with
      | Some n, Some ns => Some (n :: ns)
      | _, _ => None
      end
  end.

(** Four 6-bit values make three bytes; of a last group of three (two) values
    the two (four) lowest bits are dropped. *)
Fixpoint b64_bytes (values : list N) : list N :=
  match values with
  | a :: b :: c :: d :: r =>
      (a * 4 + b / 16) :: (b mod 16 * 16 + c / 4) :: (c mod 4 * 64 + d) :: b64_bytes r
  | [a; b; c] => [a * 4 + b / 16; b mod 16 * 16 + c / 4]
  | [a; b] => [a * 4 + b / 16]
  | _ => []
  end.

(** [atob(data)], the forgiving base64 decoder: [None] stands for the
    [InvalidCharacterError] it throws. *)
Definition atob (data : jsstring) : option jsstring :=
  let data := List.filter (fun c => negb (is_ascii_whitespace c)) data in
  let data :=
    if (length data mod 4 =? 0)%nat then remove_padding data else data in
  if (length data mod 4 =? 1)%nat then None
  else
    match b64_values data with
    | Some values => Some (b64_bytes values)
    | None => None
    end.

End Base64.

(** ** The browser state the code runs against *)

(** A web storage area ([localStorage], [sessionStorage]).  [denied] marks an
    area whose every access throws (storage disabled for the page), [full]
    one whose [setItem] throws (quota reached); [writes] counts the calls of
    [setItem] that stored their value. *)
Record Storage : Type := {
  items : gmap jsstring jsstring;
  denied : bool;
  full : bool;
  writes : nat
}.

(** The mutable state: the two storage areas, the module-level variables the
    modelled functions assign ([_bigGameSettingsCache]; [DEFAULT_TEAMS], an
    array that [push] can extend), the [wp] parameter of the page address
    ([VNull] when there is none) and the messages shown by [alert]. *)
Record World : Type := {
  localStorage : Storage;
  sessionStorage : Storage;
  _bigGameSettingsCache : jsval;
  DEFAULT_TEAMS : list jsval;
  location_wp : jsval;
  alerts : list jsstring
}.

(** How a call ends: it returns a value, it throws, or it leaves the model
    ([Beyond]: a text or a coercion the model does not cover).  The state
    reached is kept in the first two cases. *)
Inductive result (A : Type) : Type :=
| Ret (a : A) (w : World)
| Throw (w : World)
| Beyond.
Arguments Ret {A} a w.
Arguments Throw {A} w.
Arguments Beyond {A}.

Definition M (A : Type) : Type := World -> result A.

Definition ret {A} (a : A) : M A := fun w => Ret a w.

Definition bind {A B} (m : M A) (k : A -> M B) : M B :=
  fun w =>
    match m w with
    | Ret a w' => k a w'
    | Throw w' => Throw w'
    | Beyond => Beyond
    end.

(** [try { body } catch (e) { handler }]. *)
Definition try_catch {A} (body : M A) (handler : M A) : M A :=
  fun w =>
    match body w with
    | Ret a w' => Ret a w'
    | Throw w' => handler w'
    | Beyond => Beyond
    end.

Declare Scope js_scope.
Delimit Scope js_scope with js.
Notation "'let*' x ':=' m 'in' k" := (bind m (fun x => k))
  (at level 10, x name, m at level 100, k at level 200) : js_scope.
Local Open Scope js_scope.

(** The evaluation of an expression that does not touch the state: a value
    ([Val]), an exception ([Exc]), or a case outside the model ([Out]). *)
Inductive ev (A : Type) : Type :=
| Val (a : A)
| Exc
| Out.
Arguments Val {A} a.
Arguments Exc {A}.
Arguments Out {A}.

Definition ev_bind {A B} (e : ev A) (k : A -> ev B) : ev B :=
  match e with
  | Val a => k a
  | Exc => Exc
  | Out => Out
  end.

Notation "'let+' x ':=' e 'in' k" := (ev_bind e (fun x => k))
  (at level 10, x name, e at level 100, k at level 200) : js_scope.

(** An evaluation as a step of a stateful computation. *)
Definition lift {A} (e : ev A) : M A :=
  fun w =>
    match e with
    | Val a => Ret a w
    | Exc => Throw w
    | Out => Beyond
    end.
Coercion lift : ev >-> M.

(** [for (const x of l) { s = body(x, s) }], for a body without effect on
    the state. *)
Fixpoint for_of {A S} (l : list A) (body : A -> S -> ev S) (s : S) : ev S :=
  match l with
  | [] => Val s
  | x :: r => let+ s' := body x s in for_of r body s'
  end.

(** *** Storage operations *)

Definition Storage_getItem (s : Storage) (key : jsstring) : option jsval :=
  if denied s then None
  else Some (match items s !! key with Some text => VStr text | None => VNull end).

Definition Storage_setItem (s : Storage) (key value : jsstring) : option Storage :=
  if denied s || full s then None
  else Some {| items := <[key := value]> (items s); denied := denied s;
               full := full s; writes := S (writes s) |}.

Definition Storage_removeItem (s : Storage) (key : jsstring) : option Storage :=
  if denied s then None
  else Some {| items := delete key (items s); denied := denied s;
               full := full s; writes := writes s |}.

Definition set_localStorage (s : Storage) (w : World) : World :=
  {| localStorage := s; sessionStorage := sessionStorage w;
     _bigGameSettingsCache := _bigGameSettingsCache w;
     DEFAULT_TEAMS := DEFAULT_TEAMS w; location_wp := location_wp w;
     alerts := alerts w |}.

Definition set_sessionStorage (s : Storage) (w : World) : World :=
  {| localStorage := localStorage w; sessionStorage := s;
     _bigGameSettingsCache := _bigGameSettingsCache w;
     DEFAULT_TEAMS := DEFAULT_TEAMS w; location_wp := location_wp w;
     alerts := alerts w |}.

Definition set_bigGameSettingsCache (v : jsval) (w : World) : World :=
  {| localStorage := localStorage w; sessionStorage := sessionStorage w;
     _bigGameSettingsCache := v;
     DEFAULT_TEAMS := DEFAULT_TEAMS w; location_wp := location_wp w;
     alerts := alerts w |}.

Definition set_DEFAULT_TEAMS (l : list jsval) (w : World) : World :=
  {| localStorage := localStorage w; sessionStorage := sessionStorage w;
     _bigGameSettingsCache := _bigGameSettingsCache w;
     DEFAULT_TEAMS := l; location_wp := location_wp w;
     alerts := alerts w |}.

Definition add_alert (message : jsstring) (w : World) : World :=
  {| localStorage := localStorage w; sessionStorage := sessionStorage w;
     _bigGameSettingsCache := _bigGameSettingsCache w;
     DEFAULT_TEAMS := DEFAULT_TEAMS w; location_wp := location_wp w;
     alerts := alerts w ++ [message] |}.

(** [localStorage.getItem(key)]: the stored text or [null]. *)
Definition localStorage_getItem (key : jsstring) : M jsval :=
  fun w =>
    match Storage_getItem (localStorage w) key with
    | Some v => Ret v w
    | None => Throw w
    end.

(** [localStorage.setItem(key, value)]; the value is converted to a string. *)
Definition localStorage_setItem (key : jsstring) (value : jsval) : M unit :=
  fun w =>
    match Storage_setItem (localStorage w) key (ToString value) with
    | Some s => Ret tt (set_localStorage s w)
    | None => Throw w
    end.

Definition localStorage_removeItem (key : jsstring) : M unit :=
  fun w =>
    match Storage_removeItem (localStorage w) key with
    | Some s => Ret tt (set_localStorage s w)
    | None => Throw w
    end.

Definition sessionStorage_getItem (key : jsstring) : M jsval :=
  fun w =>
    match Storage_getItem (sessionStorage w) key with
    | Some v => Ret v w
    | None => Throw w
    end.

Definition sessionStorage_setItem (key : jsstring) (value : jsval) : M unit :=
  fun w =>
    match Storage_setItem (sessionStorage w) key (ToString value) with
    | Some s => Ret tt (set_sessionStorage s w)
    | None => Throw w
    end.

Definition sessionStorage_removeItem (key : jsstring) : M unit :=
  fun w =>
    match Storage_removeItem (sessionStorage w) key with
    | Some s => Ret tt (set_sessionStorage s w)
    | None => Throw w
    end.

(** [alert(message)]. *)
Definition alert (message : jsstring) : M unit :=
  fun w => Ret tt (add_alert message w).

(** *** Operations on values that can throw *)

(** [JSON.parse(text)], the argument converted to a string. *)
Definition JSON_parse_ (text : jsval) : ev jsval :=
  match JSON_parse (ToString text) with
  | POk v _ => Val v
  | PSyntaxError => Exc
  | PBeyond => Out
  end.

(** [JSON.stringify(v)] as a value. *)
Definition JSON_stringify_ (v : jsval) : jsval :=
  match JSON_stringify v with
  | Some text => VStr text
  | None => VUndef
  end.

(** [v.k] or [v[k]], for the property names the modelled code reads (none of
    them is defined by a built-in prototype, and none is an index or
    [length]): a [TypeError] on [null] and [undefined], [undefined] on every
    other value that has no such own property. *)
Definition get_prop (v : jsval) (k : jsstring) : ev jsval :=
  match v with
  | VUndef | VNull => Exc
  | VObj props => Val (obj_get k props)
  | VBool _ | VNum _ | VStr _ | VArr _ => Val VUndef
  end.

(** The property names every object inherits from [Object.prototype]. *)
Definition Object_prototype_names : list jsstring :=
  [ js "constructor"; js "hasOwnProperty"; js "isPrototypeOf";
    js "propertyIsEnumerable"; js "toLocaleString"; js "toString"; js "valueOf";
    js "__proto__"; js "__defineGetter__"; js "__defineSetter__";
    js "__lookupGetter__"; js "__lookupSetter__" ].

(** [v[k]] for a name [k] that is computed when the code runs, on an object
    built from a literal or by [JSON.parse]: the own property when there is
    one, [undefined] when there is none and the name is not inherited.  An
    inherited name gives a built-in function or accessor, and the members of
    arrays, strings, numbers and booleans depend on their prototypes: both
    leave the model. *)
Definition get_member (v : jsval) (k : jsstring) : ev jsval :=
  match v with
  | VUndef | VNull => Exc
  | VObj props =>
      if obj_has k props then Val (obj_get k props)
      else if bool_decide (k ∈ Object_prototype_names) then Out
      else Val VUndef
  | VBool _ | VNum _ | VStr _ | VArr _ => Out
  end.

(** [o[k] = v], returning the object after the assignment.  The scripts are
    not in strict mode: assigning to a property of a number, a string or a
    boolean does nothing.  A named property on an array leaves the model. *)
Definition set_prop (o : jsval) (k : jsstring) (v : jsval) : ev jsval :=
  match o with
  | VUndef | VNull => Exc
  | VObj props => Val (VObj (obj_set k v props))
  | VBool _ | VNum _ | VStr _ => Val o
  | VArr _ => Out
  end.

(** [o[k1][k2] = v]: the object [o[k1]] is changed in place, so [o] sees the
    change. *)
Definition set_prop2 (o : jsval) (k1 k2 : jsstring) (v : jsval) : ev jsval :=
  let+ inner := get_prop o k1 in
  let+ inner' := set_prop inner k2 v in
  match o with
  | VObj props => Val (VObj (obj_set k1 inner' props))
  | _ => Val o
  end.

Section Strings.
Local Open Scope N_scope.

(** The code points of a string, each as a string (what iterating a string
    yields): a surrogate pair stays together. *)
Fixpoint code_points (s : jsstring) : list jsval :=
  match s with
  | [] => []
  | c :: r =>
      if is_high_surrogate c then
        match r with
        | d :: r' =>
            if is_low_surrogate d then VStr [c; d] :: code_points r'
            else VStr [c] :: code_points r
        | [] => [VStr [c]]
        end
      else VStr [c] :: code_points r
  end.

Fixpoint starts_with (prefix s : jsstring) : bool :=
  match prefix, s with
  | [], _ => true
  | c :: p, d :: r => (c =? d) && starts_with p r
  | _ :: _, [] => false
  end.

(** [s.includes(search)] on strings. *)
Fixpoint String_includes (s search : jsstring) : bool :=
  starts_with search s ||
  match s with
  | [] => false
  | _ :: r => String_includes r search
  end.

End Strings.

(** [[...v]]: the elements of an array, the code points of a string; any
    other value is not iterable. *)
Definition spread (v : jsval) : ev (list jsval) :=
  match v with
  | VArr elems => Val elems
  | VStr s => Val (code_points s)
  | _ => Exc
  end.

(** [v.includes(x)]: the array and the string methods; on any other value
    [includes] is not a function. *)
Definition call_includes (v x : jsval) : ev bool :=
  match v with
  | VArr elems => Val (Array_includes elems x)
  | VStr s => Val (String_includes s (ToString x))
  | _ => Exc
  end.

(** [v.push(x)], returning the array after the call; only arrays have
    [push]. *)
Definition call_push (v x : jsval) : ev jsval :=
  match v with
  | VArr elems => Val (VArr (elems ++ [x]))
  | _ => Exc
  end.

(** Numbers as the code computes with them: an integer or [NaN]. *)
Inductive number : Type :=
| NaN
| Num (n : Z).

(** [ToNumber] on [undefined], [null], booleans and numbers; the conversion
    of a string, an array or an object is left out of the model. *)
Definition ToNumber (v : jsval) : ev number :=
  match v with
  | VUndef => Val NaN
  | VNull => Val (Num 0)
  | VBool b => Val (Num (if b then 1 else 0))
  | VNum n => Val (Num n)
  | VStr _ | VArr _ | VObj _ => Out
  end.

(** [a - b] on numbers, exact while the difference is a safe integer. *)
Definition js_sub (a b : number) : ev number :=
  match a, b with
  | Num x, Num y =>
      if Z.abs (x - y) <=? Z.of_N MAX_SAFE_INTEGER then Val (Num (x - y)) else Out
  | _, _ => Val NaN
  end.

(** [a < b] on numbers: false as soon as one side is [NaN]. *)
Definition js_lt (a b : number) : bool :=
  match a, b with
  | Num x, Num y => x <? y
  | _, _ => false
  end.

(** ** Big-game settings *)

Definition BIG_GAME_SETTINGS_KEY : jsstring := js "sports-tracker-big-game-settings".

Definition WATCH_PARTY_SESSION_KEY : jsstring := js "sports-tracker-watch-party".

(** [invalidateSettingsCache()] (the preseason cache is not modelled). *)
Definition invalidateSettingsCache : M unit :=
  fun w => Ret tt (set_bigGameSettingsCache VNull w).

Definition SETTINGS_SCHEMA_VERSION : Z := 3.

Definition COMPETITIONS : list (jsstring * jsstring) :=
  [ (js "premier-league", js "Premier League");
    (js "champions-league", js "Champions League");
    (js "fa-cup", js "FA Cup");
    (js "league-cup", js "League Cup");
    (js "nba", js "NBA");
    (js "nhl", js "NHL") ].

(** [Object.keys(COMPETITIONS)]. *)
Definition COMPETITION_KEYS : list jsstring := List.map fst COMPETITIONS.

Definition ALL_CATEGORIES : list jsval :=
  [ VStr (js "rob-lowe"); VStr (js "playoff-preview"); VStr (js "measuring-stick");
    VStr (js "beat-em-off"); VStr (js "house-divided") ].

Definition CL_CATEGORIES : list jsval :=
  [ VStr (js "cl-favorite"); VStr (js "cl-top-english"); VStr (js "cl-other-english");
    VStr (js "cl-english-derby") ].

Definition DEFAULT_BIG_GAME_SETTINGS : jsval :=
  VObj
    [ (js "schemaVersion", VNum SETTINGS_SCHEMA_VERSION);
      (js "perCompetition",
        VObj
          [ (js "premier-league",
              VArr [ VStr (js "rob-lowe"); VStr (js "playoff-preview");
                     VStr (js "measuring-stick"); VStr (js "beat-em-off");
                     VStr (js "house-divided") ]);
            (js "champions-league",
              VArr [ VStr (js "cl-favorite"); VStr (js "cl-top-english");
                     VStr (js "cl-other-english"); VStr (js "cl-english-derby") ]);
            (js "fa-cup",
              VArr [ VStr (js "rob-lowe"); VStr (js "playoff-preview");
                     VStr (js "measuring-stick"); VStr (js "beat-em-off");
                     VStr (js "house-divided") ]);
            (js "league-cup",
              VArr [ VStr (js "rob-lowe"); VStr (js "playoff-preview");
                     VStr (js "measuring-stick"); VStr (js "beat-em-off");
                     VStr (js "house-divided") ]);
            (js "nba",
              VArr [ VStr (js "rob-lowe"); VStr (js "playoff-preview");
                     VStr (js "measuring-stick"); VStr (js "beat-em-off");
                     VStr (js "house-divided") ]);
            (js "nhl",
              VArr [ VStr (js "rob-lowe"); VStr (js "playoff-preview");
                     VStr (js "measuring-stick"); VStr (js "beat-em-off");
                     VStr (js "house-divided") ]) ]) ].

(** [getWatchPartySession()]. *)
Definition getWatchPartySession : M jsval :=
  try_catch
    (let* saved := sessionStorage_getItem WATCH_PARTY_SESSION_KEY in
     if truthy saved then JSON_parse_ saved else ret VNull)
    (ret VNull).

(** [_bigGameSettingsCache = settings]. *)
Definition set_cache (settings : jsval) : M unit :=
  fun w => Ret tt (set_bigGameSettingsCache settings w).

(** [saveBigGameSettings(settings)]. *)
Definition saveBigGameSettings (settings : jsval) : M unit :=
  let* _ := set_cache settings in
  localStorage_setItem BIG_GAME_SETTINGS_KEY (JSON_stringify_ settings).

(** The first branch of the [try] block of [getBigGameSettings], the old
    format with [enabledCategories] at the root: the new document. *)
Definition legacy_settings (parsed : jsval) : ev jsval :=
  let migratedSettings :=
    VObj [ (js "schemaVersion", VNum SETTINGS_SCHEMA_VERSION);
           (js "perCompetition", VObj []) ] in
  for_of COMPETITION_KEYS
    (fun competition migratedSettings =>
       let+ enabledCategories := get_prop parsed (js "enabledCategories") in
       let+ copy := spread enabledCategories in
       set_prop2 migratedSettings (js "perCompetition") competition (VArr copy))
    migratedSettings.

Definition migrate_legacy (parsed : jsval) : M jsval :=
  let* migratedSettings := legacy_settings parsed in
  let* _ := saveBigGameSettings migratedSettings in
  let* _ := set_cache migratedSettings in
  ret migratedSettings.

(** The second branch, a document with [perCompetition].  First loop: every
    competition gets a list. *)
Definition ensure_competitions (parsed : jsval) : ev (jsval * bool) :=
  for_of COMPETITION_KEYS
    (fun competition (st : jsval * bool) =>
       let (parsed, needsSave) := st in
       let+ perCompetition := get_prop parsed (js "perCompetition") in
       let+ current := get_prop perCompetition competition in
       if negb (truthy current) then
         let+ parsed :=
           set_prop2 parsed (js "perCompetition") competition
             (VArr (if bool_decide (competition = js "champions-league")
                    then CL_CATEGORIES else ALL_CATEGORIES)) in
         Val (parsed, true)
       else Val (parsed, needsSave))
    (parsed, false).

(** The loop of the version 2 migration. *)
Definition add_playoff_preview (parsed : jsval) : ev jsval :=
  for_of COMPETITION_KEYS
    (fun competition parsed =>
       let+ perCompetition := get_prop parsed (js "perCompetition") in
       let+ current := get_prop perCompetition competition in
       let+ present := call_includes current (VStr (js "playoff-preview")) in
       if negb present then
         let+ current := call_push current (VStr (js "playoff-preview")) in
         set_prop2 parsed (js "perCompetition") competition current
       else Val parsed)
    parsed.

(** The migrations of a document with [perCompetition], up to the call of
    [saveBigGameSettings]: the document and whether it is to be saved. *)
Definition upgrade_versioned (parsed : jsval) : ev (jsval * bool) :=
  let+ schemaVersion := get_prop parsed (js "schemaVersion") in
  let savedVersion := if truthy schemaVersion then schemaVersion else VNum 1 in
  let+ st := ensure_competitions parsed in
  let (parsed, needsSave) := st in
  let+ version := ToNumber savedVersion in
  let+ st :=
    if js_lt version (Num 2) then
      let+ parsed := add_playoff_preview parsed in
      Val (parsed, true)
    else Val (parsed, needsSave) in
  let (parsed, needsSave) := st in
  let+ st :=
    if js_lt version (Num 3) then
      let+ parsed :=
        set_prop2 parsed (js "perCompetition") (js "champions-league")
          (VArr CL_CATEGORIES) in
      Val (parsed, true)
    else Val (parsed, needsSave) in
  let (parsed, needsSave) := st in
  if needsSave || js_lt version (Num SETTINGS_SCHEMA_VERSION) then
    let+ parsed := set_prop parsed (js "schemaVersion") (VNum SETTINGS_SCHEMA_VERSION) in
    Val (parsed, true)
  else Val (parsed, false).

Definition migrate_versioned (parsed : jsval) : M jsval :=
  let* st := upgrade_versioned parsed in
  let (parsed, save) := st in
  let* _ := if save then saveBigGameSettings parsed else ret tt in
  let* _ := set_cache parsed in
  ret parsed.

(** The [try] block of [getBigGameSettings]: [Some] is a [return] inside the
    block, [None] falls through to the defaults. *)
Definition load_saved_settings : M (option jsval) :=
  let* saved := localStorage_getItem BIG_GAME_SETTINGS_KEY in
  if truthy saved then
    let* parsed := JSON_parse_ saved in
    let* enabledCategories := get_prop parsed (js "enabledCategories") in
    let* legacy :=
      if truthy enabledCategories then
        let* perCompetition := get_prop parsed (js "perCompetition") in
        ret (negb (truthy perCompetition))
      else ret false in
    if legacy then
      let* migratedSettings := migrate_legacy parsed in
      ret (Some migratedSettings)
    else
      let* perCompetition := get_prop parsed (js "perCompetition") in
      if truthy perCompetition then
        let* parsed := migrate_versioned parsed in
        ret (Some parsed)
      else ret None
  else ret None.

(** [getBigGameSettings()]. *)
Definition getBigGameSettings : M jsval :=
  let* watchParty := getWatchPartySession in
  let* bigGames :=
    if truthy watchParty then get_prop watchParty (js "bigGames") else ret watchParty in
  if truthy watchParty && truthy bigGames then
    ret (VObj [ (js "schemaVersion", VNum SETTINGS_SCHEMA_VERSION);
                (js "perCompetition", bigGames) ])
  else
    fun w =>
      if negb (strict_eq (_bigGameSettingsCache w) VNull) then
        Ret (_bigGameSettingsCache w) w
      else
        (let* loaded := try_catch load_saved_settings (ret None) in
         match loaded with
         | Some settings => ret settings
         | None =>
             let* defaultCopy :=
               JSON_parse_ (JSON_stringify_ DEFAULT_BIG_GAME_SETTINGS) in
             let* _ := set_cache defaultCopy in
             ret defaultCopy
         end) w.

(** [isCategoryEnabledForCompetition(category, competition)]. *)
Definition isCategoryEnabledForCompetition (category competition : jsval) : M bool :=
  let* settings := getBigGameSettings in
  let* perCompetition := get_prop settings (js "perCompetition") in
  let* competitionCategories := get_member perCompetition (ToString competition) in
  if negb (truthy competitionCategories) then ret false
  else call_includes competitionCategories category.

(** ** Response cache *)

Definition CACHE_KEY_PREFIX : jsstring := js "sports-tracker-cache-".
Definition DEFAULT_TTL : Z := 24 * 60 * 60 * 1000.

(** [getCached(key)], called when [Date.now()] is [now]. *)
Definition getCached (now : Z) (key : jsstring) : M jsval :=
  try_catch
    (let* cached := localStorage_getItem (CACHE_KEY_PREFIX ++ key) in
     if negb (truthy cached) then ret VNull
     else
       let* entry := JSON_parse_ cached in
       let* timestamp := get_prop entry (js "timestamp") in
       let* t := ToNumber timestamp in
       let* age := js_sub (Num now) t in
       let* ttl := get_prop entry (js "ttl") in
       let* limit := ToNumber (if truthy ttl then ttl else VNum DEFAULT_TTL) in
       if js_lt age limit then get_prop entry (js "data")
       else
         let* _ := localStorage_removeItem (CACHE_KEY_PREFIX ++ key) in
         ret VNull)
    (ret VNull).

(** [setCache(key, data, ttl = DEFAULT_TTL)], called when [Date.now()] is
    [now]; an [undefined] [ttl] takes the default. *)
Definition setCache (now : Z) (key : jsstring) (data ttl : jsval) : M unit :=
  let ttl := match ttl with VUndef => VNum DEFAULT_TTL | _ => ttl end in
  try_catch
    (let entry := VObj [ (js "timestamp", VNum now); (js "data", data); (js "ttl", ttl) ] in
     localStorage_setItem (CACHE_KEY_PREFIX ++ key) (JSON_stringify_ entry))
    (ret tt).

(** ** Watch-party sharing *)

(** [btoa(v)] and [atob(v)] on values: the argument is converted to a string,
    a failure is an exception. *)
Definition btoa_ (v : jsval) : ev jsval :=
  match btoa (ToString v) with
  | Some text => Val (VStr text)
  | None => Exc
  end.

Definition atob_ (v : jsval) : ev jsval :=
  match atob (ToString v) with
  | Some text => Val (VStr text)
  | None => Exc
  end.

(** [encodeWatchParty(settings)]. *)
Definition encodeWatchParty (settings : jsval) : M jsval :=
  try_catch (btoa_ (JSON_stringify_ settings)) (ret VNull).

(** [decodeWatchParty(encoded)]. *)
Definition decodeWatchParty (encoded : jsval) : M jsval :=
  try_catch (let+ text := atob_ encoded in JSON_parse_ text) (ret VNull).

(** [getWatchPartyFromURL()]: [location_wp] is what
    [new URLSearchParams(window.location.search).get('wp')] returns. *)
Definition getWatchPartyFromURL : M jsval :=
  fun w =>
    let wp := location_wp w in
    if truthy wp then decodeWatchParty wp w else Ret VNull w.

(** [setWatchPartySession(settings)]. *)
Definition setWatchPartySession (settings : jsval) : M unit :=
  try_catch
    (sessionStorage_setItem WATCH_PARTY_SESSION_KEY (JSON_stringify_ settings))
    (ret tt).

(** [clearWatchPartySession()]. *)
Definition clearWatchPartySession : M unit :=
  sessionStorage_removeItem WATCH_PARTY_SESSION_KEY.

(** [getActiveWatchParty()]. *)
Definition getActiveWatchParty : M jsval :=
  let* sessionWp := getWatchPartySession in
  if truthy sessionWp then ret sessionWp
  else
    let* urlWp := getWatchPartyFromURL in
    if truthy urlWp then
      let* _ := setWatchPartySession urlWp in
      ret urlWp
    else ret VNull.

(** ** Favourite teams (settings page) *)

Definition FAVORITE_TEAMS_KEY : jsstring := js "sports-tracker-favorite-teams".
Definition MAX_TEAMS : nat := 10.

Definition team_object (name id league sport espnPath logo : string) : jsval :=
  VObj [ (js "name", VStr (js name)); (js "id", VStr (js id));
         (js "league", VStr (js league)); (js "sport", VStr (js sport));
         (js "espnPath", VStr (js espnPath)); (js "logo", VStr (js logo)) ].

(** The value [DEFAULT_TEAMS] is initialised with when the script loads. *)
Definition DEFAULT_TEAMS_literal : list jsval :=
  [ team_object "Everton" "368" "premier-league" "soccer" "soccer/eng.1"
      "https://a.espncdn.com/i/teamlogos/soccer/500/368.png";
    team_object "Tampa Bay Buccaneers" "27" "nfl" "football" "football/nfl"
      "https://a.espncdn.com/i/teamlogos/nfl/500/tb.png";
    team_object "Tampa Bay Lightning" "20" "nhl" "hockey" "hockey/nhl"
      "https://a.espncdn.com/i/teamlogos/nhl/500/tb.png";
    team_object "Tampa Bay Rays" "30" "mlb" "baseball" "baseball/mlb"
      "https://a.espncdn.com/i/teamlogos/mlb/500/tb.png" ].

(** [getFavoriteTeams()].  The flag tells whether the array returned is the
    array [DEFAULT_TEAMS] itself rather than a freshly parsed one. *)
Definition getFavoriteTeams : M (list jsval * bool) :=
  let* found :=
    try_catch
      (let* saved := localStorage_getItem FAVORITE_TEAMS_KEY in
       if truthy saved then
         let* teams := JSON_parse_ saved in
         match teams with
         | VArr elems => if (0 <? length elems)%nat then ret (Some elems) else ret None
         | _ => ret None
         end
       else ret None)
      (ret None) in
  match found with
  | Some teams => ret (teams, false)
  | None => fun w => Ret (DEFAULT_TEAMS w, true) w
  end.

(** [saveFavoriteTeams(teams)]. *)
Definition saveFavoriteTeams (teams : list jsval) : M unit :=
  localStorage_setItem FAVORITE_TEAMS_KEY (JSON_stringify_ (VArr teams)).

(** [teams.some(predicate)]. *)
Fixpoint Array_some (teams : list jsval) (predicate : jsval -> ev bool) : ev bool :=
  match teams with
  | [] => Val false
  | t :: r =>
      let+ found := predicate t in
      if found then Val true else Array_some r predicate
  end.

(** [t => t.id === team.id && t.league === team.league]. *)
Definition same_team (team t : jsval) : ev bool :=
  let+ tid := get_prop t (js "id") in
  let+ id := get_prop team (js "id") in
  if strict_eq tid id then
    let+ tleague := get_prop t (js "league") in
    let+ league := get_prop team (js "league") in
    Val (strict_eq tleague league)
  else Val false.

Definition capacity_message : jsstring :=
  js "You can only have up to " ++ Number_toString (Z.of_nat MAX_TEAMS)
  ++ js " favorite teams. Remove one first.".

(** [addFavoriteTeam(team)]. *)
Definition addFavoriteTeam (team : jsval) : M bool :=
  let* got := getFavoriteTeams in
  let (teams, is_DEFAULT_TEAMS) := got in
  if (MAX_TEAMS <=? length teams)%nat then
    let* _ := alert capacity_message in
    ret false
  else
    let* already := Array_some teams (same_team team) in
    if already then ret false
    else
      let teams := teams ++ [team] in
      let* _ :=
        (fun w => Ret tt (if is_DEFAULT_TEAMS then set_DEFAULT_TEAMS teams w else w)) in
      let* _ := saveFavoriteTeams teams in
      ret true.

(** ** Settings page: the big-game toggles *)

(** [arr.filter(c => c !== category)]; only arrays have [filter]. *)
Definition call_filter_not (v category : jsval) : ev jsval :=
  match v with
  | VArr elems => Val (VArr (List.filter (fun c => negb (strict_eq c category)) elems))
  | _ => Exc
  end.

(** The [change] handler that [initBigGameSettings] attaches to each
    check box, for the box of [competition] and [category] whose state after
    the click is [checked]. *)
Definition toggled_settings (currentSettings : jsval) (competition category : jsstring)
    (checked : bool) : ev jsval :=
  let+ perCompetition := get_prop currentSettings (js "perCompetition") in
  let+ current := get_prop perCompetition competition in
  let+ currentSettings :=
    if negb (truthy current) then
      set_prop2 currentSettings (js "perCompetition") competition (VArr [])
    else Val currentSettings in
  let+ perCompetition := get_prop currentSettings (js "perCompetition") in
  let+ current := get_prop perCompetition competition in
  if checked then
    let+ present := call_includes current (VStr category) in
    if negb present then
      let+ current := call_push current (VStr category) in
      set_prop2 currentSettings (js "perCompetition") competition current
    else Val currentSettings
  else
    let+ current := call_filter_not current (VStr category) in
    set_prop2 currentSettings (js "perCompetition") competition current.

Definition onCategoryChange (competition category : jsstring) (checked : bool) : M unit :=
  let* currentSettings := getBigGameSettings in
  let* currentSettings := toggled_settings currentSettings competition category checked in
  saveBigGameSettings currentSettings.

(** [init()] of the settings page, as far as the big-game toggles go: in
    watch-party mode the page renders disabled check boxes and returns before
    [initBigGameSettings] runs, so no [change] handler exists.  The result
    tells whether the handlers were attached. *)
Definition init : M bool :=
  let* watchParty := getActiveWatchParty in
  if truthy watchParty then ret false
  else
    let* _ := getBigGameSettings in
    ret true.

(** A click on a big-game check box after [init]: it runs the handler, if
    one was attached. *)
Definition click_category (attached : bool) (competition category : jsstring)
    (checked : bool) : M unit :=
  if attached then onCategoryChange competition category checked else ret tt.

(** ** Notions used to state the properties *)

Local Open Scope js_scope.

Section Text_notions.
Local Open Scope N_scope.

(** The text of the elements of a non-empty array, through the closing
    bracket. *)
Fixpoint elements_text (l : list jsval) : jsstring :=
  match l with
  | [] => []
  | e :: r =>
      SerializeJSON e ++
      match r with
      | [] => [93]
      | _ :: _ => 44 :: elements_text r
      end
  end.

(** The text of the members of an object without [undefined] values,
    through the closing brace. *)
Fixpoint members_text (l : list (jsstring * jsval)) : jsstring :=
  match l with
  | [] => []
  | (k, x) :: r =>
      QuoteJSONString k ++ 58 :: SerializeJSON x ++
      match r with
      | [] => [125]
      | _ :: _ => 44 :: members_text r
      end
  end.

(** A text that cannot continue a number literal. *)
Definition ends_number (rest : jsstring) : bool :=
  match rest with
  | [] => true
  | c :: _ => negb (is_digit c || (c =? 46) || (c =? 101) || (c =? 69))
  end.

(** The encoding without its padding. *)
Fixpoint b64_unpadded (bytes : list N) : jsstring :=
  match bytes with
  | [] => []
  | [a] => [b64_char (a / 4); b64_char (a mod 4 * 16)]
  | [a; b] =>
      [b64_char (a / 4); b64_char (a mod 4 * 16 + b / 16); b64_char (b mod 16 * 4)]
  | a :: b :: c :: r =>
      b64_char (a / 4) :: b64_char (a mod 4 * 16 + b / 16)
      :: b64_char (b mod 16 * 4 + c / 64) :: b64_char (c mod 64) :: b64_unpadded r
  end.

(** Strings of code units below 256, the results of [atob]. *)
Definition bytes (s : jsstring) : Prop := Forall (fun c => c < 256) s.

End Text_notions.

(** The members of a well-formed object: distinct keys that are not array
    indices, with well-formed values. *)
Fixpoint members_ok (l : list (jsstring * jsval)) : bool :=
  match l with
  | [] => true
  | (k, x) :: r =>
      negb (is_integer_key k) && negb (obj_has k r) && json_value x && members_ok r
  end.

(** The parser reads the text of [v] back as [v] and stops at [rest]. *)
Definition roundtrips (v : jsval) : Prop :=
  json_value v = true ->
  forall (fuel : nat) (rest : jsstring),
    (length (SerializeJSON v) <= fuel)%nat -> ends_number rest = true ->
    parse_value fuel (SerializeJSON v ++ rest) = POk v rest.

(** A storage area that accepts reads and writes. *)
Definition working (s : Storage) : Prop := denied s = false /\ full s = false.

(** The state after [localStorage.setItem(key, text)] succeeded. *)
Definition stored (key text : jsstring) (w : World) : World :=
  set_localStorage
    {| items := <[key := text]> (items (localStorage w));
       denied := denied (localStorage w); full := full (localStorage w);
       writes := S (writes (localStorage w)) |} w.

(** The state after [localStorage.removeItem(key)] succeeded. *)
Definition removed (key : jsstring) (w : World) : World :=
  set_localStorage
    {| items := delete key (items (localStorage w));
       denied := denied (localStorage w); full := full (localStorage w);
       writes := writes (localStorage w) |} w.

(** The entry [setCache] writes. *)
Definition cache_entry (now : Z) (data ttl : jsval) : jsval :=
  VObj [ (js "timestamp", VNum now); (js "data", data); (js "ttl", ttl) ].

(** The integers a JS number holds exactly. *)
Definition safe (n : Z) : Prop := Z.abs n <= Z.of_N MAX_SAFE_INTEGER.

(** A state with empty storage areas, as a page finds it on a first visit. *)
Definition empty_storage : Storage :=
  {| items := ∅; denied := false; full := false; writes := 0 |}.

(** The page state on a first visit, outside a watch party. *)
Definition first_visit : World :=
  {| localStorage := empty_storage; sessionStorage := empty_storage;
     _bigGameSettingsCache := VNull; DEFAULT_TEAMS := DEFAULT_TEAMS_literal;
     location_wp := VNull; alerts := [] |}.

(** The code units [btoa] accepts. *)
Definition latin1 (s : jsstring) : bool := forallb (fun c => (c <? 256)%N) s.

(** A snapshot of the shape [{teams, bigGames, showPreseason, mustWatch}]
    whose only team has a name outside Latin-1 (L with stroke, o acute, d, z
    acute). *)
Definition snapshot_lodz : jsval :=
  VObj
    [ (js "teams",
        VArr [ VObj [ (js "name", VStr [321; 243; 100; 378]%N);
                      (js "id", VStr (js "4242"));
                      (js "league", VStr (js "premier-league"));
                      (js "sport", VStr (js "soccer"));
                      (js "espnPath", VStr (js "soccer/eng.1"));
                      (js "logo", VStr []) ] ]);
      (js "bigGames", VObj [ (js "nba", VArr [VStr (js "rob-lowe")]) ]);
      (js "showPreseason", VBool true);
      (js "mustWatch", VArr []) ].

(** A snapshot whose JSON text is ASCII. *)
Definition snapshot_everton : jsval :=
  VObj
    [ (js "teams", VArr [ team_object "Everton" "368" "premier-league" "soccer"
                            "soccer/eng.1"
                            "https://a.espncdn.com/i/teamlogos/soccer/500/368.png" ]);
      (js "bigGames", VObj [ (js "nba", VArr [VStr (js "rob-lowe")]) ]);
      (js "showPreseason", VBool true);
      (js "mustWatch", VArr [VStr (js "401584893")]) ].

(** Two teams of the popular-teams list of the settings page. *)
Definition everton : jsval :=
  team_object "Everton" "368" "premier-league" "soccer" "soccer/eng.1"
    "https://a.espncdn.com/i/teamlogos/soccer/500/368.png".

Definition arsenal : jsval :=
  team_object "Arsenal" "359" "premier-league" "soccer" "soccer/eng.1"
    "https://a.espncdn.com/i/teamlogos/soccer/500/359.png".

(** Property names of a settings document. *)
Definition perCompetition_key : jsstring := js "perCompetition".

Definition schemaVersion_key : jsstring := js "schemaVersion".

(** A document whose [perCompetition] is an object with a (truthy) list for
    each key of [done]; [J] tells whether it is known to be a JSON value. *)
Definition settled (J : bool) (done : list jsstring) (doc : jsval) : Prop :=
  exists ps pcs,
    doc = VObj ps
    /\ obj_get perCompetition_key ps = VObj pcs
    /\ Forall (fun k => truthy (obj_get k pcs) = true) done
    /\ (J = true -> json_value doc = true).

(** The document of the legacy branch, for the list [copy] that spreading
    [enabledCategories] gives. *)
Definition legacy_document (copy : list jsval) : jsval :=
  VObj
    [ (js "schemaVersion", VNum SETTINGS_SCHEMA_VERSION);
      (js "perCompetition",
        VObj [ (js "premier-league", VArr copy); (js "champions-league", VArr copy);
               (js "fa-cup", VArr copy); (js "league-cup", VArr copy);
               (js "nba", VArr copy); (js "nhl", VArr copy) ]) ].

(** The value of [watchParty && watchParty.bigGames] at the head of
    [getBigGameSettings]: the overlay is active when it is truthy. *)
Definition overlay : M jsval :=
  let* watchParty := getWatchPartySession in
  if truthy watchParty then get_prop watchParty (js "bigGames") else ret watchParty.

(** No overlay: there is no session, or its [bigGames] is falsy. *)
Definition no_overlay (w : World) : Prop :=
  exists bigGames, overlay w = Ret bigGames w /\ truthy bigGames = false.

(** The overlay is active with the map [bigGames]. *)
Definition overlay_active (w : World) (bigGames : jsval) : Prop :=
  overlay w = Ret bigGames w /\ truthy bigGames = true.

(** What [getBigGameSettings] does below the overlay test. *)
Definition cached_or_loaded : M jsval :=
  fun w =>
    if negb (strict_eq (_bigGameSettingsCache w) VNull) then
      Ret (_bigGameSettingsCache w) w
    else
      (let* loaded := try_catch load_saved_settings (ret None) in
       match loaded with
       | Some settings => ret settings
       | None =>
           let* defaultCopy :=
             JSON_parse_ (JSON_stringify_ DEFAULT_BIG_GAME_SETTINGS) in
           let* _ := set_cache defaultCopy in
           ret defaultCopy
       end) w.

(** The branch of the [try] block that a parsed document takes and what it
    gives: the document to return and whether it is saved first; [None]
    falls through to the defaults. *)
Definition plan (parsed : jsval) : ev (option (jsval * bool)) :=
  let+ enabledCategories := get_prop parsed (js "enabledCategories") in
  let+ legacy :=
    if truthy enabledCategories then
      let+ perCompetition := get_prop parsed (js "perCompetition") in
      Val (negb (truthy perCompetition))
    else Val false in
  if legacy then
    let+ migratedSettings := legacy_settings parsed in
    Val (Some (migratedSettings, true))
  else
    let+ perCompetition := get_prop parsed (js "perCompetition") in
    if truthy perCompetition then
      let+ st := upgrade_versioned parsed in
      Val (Some st)
    else Val None.

(** The plan for the text stored under the settings key; [Exc] when the
    read or the parse throws. *)
Definition stored_plan (w : World) : ev (option (jsval * bool)) :=
  match Storage_getItem (localStorage w) BIG_GAME_SETTINGS_KEY with
  | None => Exc
  | Some saved =>
      if truthy saved then let+ parsed := JSON_parse_ saved in plan parsed
      else Val None
  end.

(** The result of [getBigGameSettings] for a plan, with an empty read cache
    and no overlay: a document to save is returned when the store takes it,
    and the [catch] block gives the defaults when it does not. *)
Definition outcome (p : ev (option (jsval * bool))) (w : World) : result jsval :=
  match p with
  | Val (Some (doc, true)) =>
      if denied (localStorage w) || full (localStorage w) then
        Ret DEFAULT_BIG_GAME_SETTINGS
          (set_bigGameSettingsCache DEFAULT_BIG_GAME_SETTINGS w)
      else
        Ret doc
          (stored BIG_GAME_SETTINGS_KEY (ToString (JSON_stringify_ doc))
             (set_bigGameSettingsCache doc w))
  | Val (Some (doc, false)) => Ret doc (set_bigGameSettingsCache doc w)
  | Val None | Exc =>
      Ret DEFAULT_BIG_GAME_SETTINGS
        (set_bigGameSettingsCache DEFAULT_BIG_GAME_SETTINGS w)
  | Out => Beyond
  end.

(** What follows the [try] block: its [return] value, or the defaults after
    a fall-through or an exception. *)
Definition finish (r : result (option jsval)) : result jsval :=
  match r with
  | Ret (Some settings) w => Ret settings w
  | Ret None w | Throw w =>
      Ret DEFAULT_BIG_GAME_SETTINGS (set_bigGameSettingsCache DEFAULT_BIG_GAME_SETTINGS w)
  | Beyond => Beyond
  end.

(** The overlay depends on the session storage only. *)
Definition overlay_value (s : Storage) : ev jsval :=
  let+ watchParty :=
    match Storage_getItem s WATCH_PARTY_SESSION_KEY with
    | None => Val VNull
    | Some saved =>
        if truthy saved then
          match JSON_parse_ saved with
          | Val v => Val v
          | Exc => Val VNull
          | Out => Out
          end
        else Val VNull
    end in
  if truthy watchParty then get_prop watchParty (js "bigGames") else Val watchParty.

(** The list of a competition in a settings document. *)
Definition competition_list (settings : jsval) (competition : jsstring) : jsval :=
  match settings with
  | VObj ps =>
      match obj_get perCompetition_key ps with
      | VObj pcs => obj_get competition pcs
      | _ => VUndef
      end
  | _ => VUndef
  end.

(** A document whose [perCompetition] is an object with an entry for every
    key of [COMPETITIONS]. *)
Definition has_competitions (settings : jsval) : bool :=
  match settings with
  | VObj ps =>
      match obj_get perCompetition_key ps with
      | VObj pcs => forallb (fun k => obj_has k pcs) COMPETITION_KEYS
      | _ => false
      end
  | _ => false
  end.

(** The provision on a stored document: a truthy [perCompetition] is an
    object (not a number, a string, a boolean or an array). *)
Definition perCompetition_object (parsed : jsval) : bool :=
  match parsed with
  | VObj ps =>
      let perCompetition := obj_get perCompetition_key ps in
      negb (truthy perCompetition)
      || match perCompetition with VObj _ => true | _ => false end
  | _ => true
  end.

(** A document of schema version 1 with one competition and one category. *)
Definition version1_document : jsval :=
  VObj [ (js "schemaVersion", VNum 1);
         (js "perCompetition",
           VObj [ (js "premier-league", VArr [VStr (js "rob-lowe")]) ]) ].

(** The document the migrations make of it. *)
Definition version1_migrated : jsval :=
  VObj
    [ (js "schemaVersion", VNum SETTINGS_SCHEMA_VERSION);
      (js "perCompetition",
        VObj [ (js "premier-league",
                 VArr [VStr (js "rob-lowe"); VStr (js "playoff-preview")]);
               (js "champions-league", VArr CL_CATEGORIES);
               (js "fa-cup", VArr ALL_CATEGORIES);
               (js "league-cup", VArr ALL_CATEGORIES);
               (js "nba", VArr ALL_CATEGORIES);
               (js "nhl", VArr ALL_CATEGORIES) ]) ].

(** A first visit with the version 1 document in the store. *)
Definition version1_world : World :=
  stored BIG_GAME_SETTINGS_KEY (SerializeJSON version1_document) first_visit.

(** A [schemaVersion] that [<] compares as a number without a conversion
    from a string or an object. *)
Definition number_like (v : jsval) : bool :=
  match v with
  | VStr (_ :: _) | VArr _ | VObj _ => false
  | _ => true
  end.

(** The documents of the settings formats: JSON values whose
    [perCompetition], when truthy, is an object, with a [schemaVersion] that
    is a number (or absent, [null], a boolean, the empty string).  The legacy
    format, without [perCompetition], and every versioned format are of this
    kind. *)
Definition settings_format (doc : jsval) : bool :=
  json_value doc
  && perCompetition_object doc
  && match doc with
     | VObj ps =>
         negb (truthy (obj_get perCompetition_key ps))
         || number_like (obj_get schemaVersion_key ps)
     | _ => true
     end.

(** What the store holds under the settings key: nothing, or the JSON text
    of a document of the settings formats. *)
Definition stored_document (w : World) (document : option jsval) : Prop :=
  match document with
  | None => items (localStorage w) !! BIG_GAME_SETTINGS_KEY = None
  | Some doc =>
      items (localStorage w) !! BIG_GAME_SETTINGS_KEY = Some (SerializeJSON doc)
      /\ settings_format doc = true
  end.

(** The read cache is empty or holds a complete document. *)
Definition cache_ok (w : World) : Prop :=
  _bigGameSettingsCache w = VNull \/ has_competitions (_bigGameSettingsCache w) = true.

(** A watch-party session as an older link carries it: its [bigGames] has a
    list for the NBA only. *)
Definition party_snapshot : jsval :=
  VObj [ (js "teams", VArr [everton]);
         (js "bigGames", VObj [ (js "nba", VArr [VStr (js "rob-lowe")]) ]);
         (js "showPreseason", VBool true);
         (js "mustWatch", VArr []) ].

(** A page opened from that link, with the user's own settings stored. *)
Definition party_world : World :=
  set_sessionStorage
    {| items := {[ WATCH_PARTY_SESSION_KEY := SerializeJSON party_snapshot ]};
       denied := false; full := false; writes := 1 |}
    (stored BIG_GAME_SETTINGS_KEY (SerializeJSON DEFAULT_BIG_GAME_SETTINGS) first_visit).


(** * Further functions of [shared.js] and of the settings page *)

(** ** Big-game lookups *)

(** [computeIsBigGameForCompetition(gameCategory, competition)]. *)
Definition computeIsBigGameForCompetition (gameCategory competition : jsval) : M bool :=
  if negb (truthy gameCategory) || negb (truthy competition) then ret false
  else isCategoryEnabledForCompetition gameCategory competition.

(** The loop of [isCategoryEnabled] over [Object.keys(COMPETITIONS)]:
    [settings.perCompetition[competition]?.includes(category)] stops at the
    first competition that has the category. *)
Fixpoint enabled_in_some (settings category : jsval) (competitions : list jsstring)
  : ev bool :=
  match competitions with
  | [] => Val false
  | competition :: rest =>
      let+ perCompetition := get_prop settings (js "perCompetition") in
      let+ current := get_prop perCompetition competition in
      let+ found :=
        match current with
        | VUndef | VNull => Val false
        | _ => call_includes current category
        end in
      if found then Val true else enabled_in_some settings category rest
  end.

(** [isCategoryEnabled(category)]. *)
Definition isCategoryEnabled (category : jsval) : M bool :=
  let* settings := getBigGameSettings in
  enabled_in_some settings category COMPETITION_KEYS.

(** [computeIsBigGame(gameCategory)]. *)
Definition computeIsBigGame (gameCategory : jsval) : M bool :=
  if negb (truthy gameCategory) then ret false else isCategoryEnabled gameCategory.

(** ** The team category map *)

(** [buildTeamCategoryMap(allTeamIds, topTierTeamIds, favoriteTeamIds)].  The
    object is used as a map from the printed id to the category.  Assigning
    to [__proto__] sets the prototype instead of a property: an id that
    prints so leaves the model. *)
Definition buildTeamCategoryMap (allTeamIds topTierTeamIds favoriteTeamIds : list jsval)
  : ev (gmap jsstring jsval) :=
  for_of allTeamIds
    (fun teamId categoryMap =>
       if bool_decide (ToString teamId = js "__proto__") then Out
       else
         Val (<[ToString teamId := categorizeTeam teamId topTierTeamIds favoriteTeamIds]>
                categoryMap))
    ∅.

(** ** Display names *)

Definition GAME_CATEGORY_DISPLAY_NAMES : jsval :=
  VObj [ (GAME_CATEGORIES.ROB_LOWE, VStr (js "Rob Lowe"));
         (GAME_CATEGORIES.PLAYOFF_PREVIEW, VStr (js "Playoff Preview"));
         (GAME_CATEGORIES.MEASURING_STICK, VStr (js "Measuring Stick"));
         (GAME_CATEGORIES.BEAT_EM_OFF, VStr (js "Beat Em Off"));
         (GAME_CATEGORIES.HOUSE_DIVIDED, VStr (js "House Divided")) ].

Definition GAME_CATEGORY_DESCRIPTIONS : jsval :=
  VObj [ (GAME_CATEGORIES.ROB_LOWE, VStr (js "Two top tier teams (not your favorites)"));
         (GAME_CATEGORIES.PLAYOFF_PREVIEW, VStr (js "Top tier vs your top-tier favorite"));
         (GAME_CATEGORIES.MEASURING_STICK,
           VStr (js "Your underdog favorites vs top tier opponents"));
         (GAME_CATEGORIES.BEAT_EM_OFF, VStr (js "Your favorites vs regular teams"));
         (GAME_CATEGORIES.HOUSE_DIVIDED,
           VStr (js "Two of your favorites playing each other")) ].

Definition CL_CATEGORY_DISPLAY_NAMES : jsval :=
  VObj [ (js "cl-favorite", VStr (js "Favorite Team"));
         (js "cl-top-english", VStr (js "Top English"));
         (js "cl-other-english", VStr (js "Other English"));
         (js "cl-english-derby", VStr (js "English Derby")) ].

Definition CL_CATEGORY_DESCRIPTIONS : jsval :=
  VObj [ (js "cl-favorite",
           VStr (js "Champions League games involving one of your favorite teams"));
         (js "cl-top-english", VStr (js "Games involving a top-tier Premier League team"));
         (js "cl-other-english",
           VStr (js "Games involving a non-top-tier Premier League team"));
         (js "cl-english-derby", VStr (js "Two English teams facing off")) ].

(** [getGameCategoryDisplayName(category)]. *)
Definition getGameCategoryDisplayName (category : jsval) : ev jsval :=
  let+ standard := get_member GAME_CATEGORY_DISPLAY_NAMES (ToString category) in
  if truthy standard then Val standard
  else
    let+ cl := get_member CL_CATEGORY_DISPLAY_NAMES (ToString category) in
    if truthy cl then Val cl else Val category.

(** [getGameCategoryDescription(category)]. *)
Definition getGameCategoryDescription (category : jsval) : ev jsval :=
  let+ standard := get_member GAME_CATEGORY_DESCRIPTIONS (ToString category) in
  if truthy standard then Val standard
  else
    let+ cl := get_member CL_CATEGORY_DESCRIPTIONS (ToString category) in
    if truthy cl then Val cl else Val (VStr []).

Definition TEAM_CATEGORY_LABELS : jsval :=
  VObj [ (TEAM_LEVELS.THINKIN_SUPEY, VStr (js "Thinkin' Supey"));
         (TEAM_LEVELS.YA_NEVER_KNOW, VStr (js "Ya Never Know"));
         (TEAM_LEVELS.TOP_TIER, VStr (js "Top Tier"));
         (TEAM_LEVELS.FAVORITE, VStr (js "Favorite")) ].

(** [getCategoryLabel(category)]. *)
Definition getCategoryLabel (category : jsval) : ev jsval :=
  let+ label := get_member TEAM_CATEGORY_LABELS (ToString category) in
  if truthy label then Val label else Val (VStr (js "Normie")).

(** ** The preseason switch *)

Definition PRESEASON_SETTINGS_KEY : jsstring := js "sports-tracker-show-preseason".

(** [getShowPreseason()].  The module variable [_showPreseasonCache] is
    passed in; the call gives its result and the value of the variable after
    the call. *)
Definition getShowPreseason (_showPreseasonCache : jsval) : M (jsval * jsval) :=
  let* watchParty := getWatchPartySession in
  let* showPreseason :=
    if truthy watchParty then get_prop watchParty (js "showPreseason")
    else ret VUndef in
  if truthy watchParty && negb (strict_eq showPreseason VUndef) then
    ret (showPreseason, _showPreseasonCache)
  else if negb (strict_eq _showPreseasonCache VNull) then
    ret (_showPreseasonCache, _showPreseasonCache)
  else
    let* saved := localStorage_getItem PRESEASON_SETTINGS_KEY in
    let value :=
      VBool (if strict_eq saved VNull then true else strict_eq saved (VStr (js "true"))) in
    ret (value, value).

(** [setShowPreseason(value)]: the value of [_showPreseasonCache] after the
    call, which is assigned first, and the write that follows. *)
Definition setShowPreseason (value : jsval) : jsval * M unit :=
  (value, localStorage_setItem PRESEASON_SETTINGS_KEY (VStr (ToString value))).

(** ** Clearing the response cache *)

(** The names a storage object inherits ([Storage.prototype] and
    [Object.prototype]): a key with such a name is not an enumerable own
    property of the object. *)
Definition Storage_prototype_names : list jsstring :=
  [ js "length"; js "key"; js "getItem"; js "setItem"; js "removeItem"; js "clear" ]
  ++ Object_prototype_names.

(** [Object.keys(localStorage)].  The order of the keys is the one the
    browser keeps; the model takes the order of the map. *)
Definition Object_keys_localStorage : M (list jsstring) :=
  fun w =>
    if denied (localStorage w) then Throw w
    else
      Ret (List.filter (fun key => negb (bool_decide (key ∈ Storage_prototype_names)))
             (List.map fst (map_to_list (items (localStorage w))))) w.

(** [for (const x of l) { body(x) }], for a body that acts on the state. *)
Fixpoint for_each {A} (l : list A) (body : A -> M unit) : M unit :=
  match l with
  | [] => ret tt
  | x :: r => let* _ := body x in for_each r body
  end.

(** [clearAllCache()]. *)
Definition clearAllCache : M unit :=
  let* keys := Object_keys_localStorage in
  for_each keys
    (fun key =>
       if starts_with CACHE_KEY_PREFIX key then localStorage_removeItem key
       else ret tt).

(** ** Watch-party teams *)

(** [v.length]: the length of an array or a string, the own property of an
    object, [undefined] on numbers and booleans. *)
Definition get_length (v : jsval) : ev jsval :=
  match v with
  | VUndef | VNull => Exc
  | VArr elems => Val (VNum (Z.of_nat (length elems)))
  | VStr s => Val (VNum (Z.of_nat (length s)))
  | VObj props => Val (obj_get (js "length") props)
  | VBool _ | VNum _ => Val VUndef
  end.

(** [v[0]]: the first element of an array, the first code unit of a string,
    the own property [0] of an object. *)
Definition get_first (v : jsval) : ev jsval :=
  match v with
  | VUndef | VNull => Exc
  | VArr elems => Val (match elems with x :: _ => x | [] => VUndef end)
  | VStr s => Val (match s with c :: _ => VStr [c] | [] => VUndef end)
  | VObj props => Val (obj_get (js "0") props)
  | VBool _ | VNum _ => Val VUndef
  end.

(** [typeof v === 'object']. *)
Definition typeof_object (v : jsval) : bool :=
  match v with
  | VNull | VArr _ | VObj _ => true
  | VUndef | VBool _ | VNum _ | VStr _ => false
  end.

(** [v.length > 0 && typeof v[0] === 'object']. *)
Definition holds_objects (v : jsval) : ev bool :=
  let+ len := get_length v in
  let+ n := ToNumber len in
  if js_lt (Num 0) n then
    let+ first := get_first v in
    Val (typeof_object first)
  else Val false.

(** [getWatchPartyTeams(watchParty)]. *)
Definition getWatchPartyTeams (watchParty : jsval) : ev jsval :=
  if negb (truthy watchParty) then Val (VArr [])
  else
    let+ teams := get_prop watchParty (js "teams") in
    if negb (truthy teams) then Val (VArr [])
    else
      let+ objects := holds_objects teams in
      if objects then Val teams else Val (VArr []).

(** ** Favourite teams: removing, reordering, asking *)

(** [t => t.id === teamId && t.league === league]. *)
Definition is_team (teamId league t : jsval) : ev bool :=
  let+ id := get_prop t (js "id") in
  if strict_eq id teamId then
    let+ l := get_prop t (js "league") in
    Val (strict_eq l league)
  else Val false.

(** [arr.filter(keep)]. *)
Fixpoint Array_filter (arr : list jsval) (keep : jsval -> ev bool) : ev (list jsval) :=
  match arr with
  | [] => Val []
  | x :: r =>
      let+ kept := keep x in
      let+ r' := Array_filter r keep in
      Val (if kept then x :: r' else r')
  end.

(** [arr.findIndex(p)], counting from [i]: the index of the first element
    that satisfies [p], or [-1]. *)
Fixpoint findIndex_from (i : Z) (arr : list jsval) (p : jsval -> ev bool) : ev Z :=
  match arr with
  | [] => Val (-1)
  | x :: r =>
      let+ found := p x in
      if found then Val i else findIndex_from (i + 1) r p
  end.

Definition Array_findIndex (arr : list jsval) (p : jsval -> ev bool) : ev Z :=
  findIndex_from 0 arr p.

(** [arr[i]] for an index [i >= 0]: [undefined] beyond the end. *)
Definition Array_get (i : nat) (arr : list jsval) : jsval :=
  match arr !! i with
  | Some x => x
  | None => VUndef
  end.

(** [arr[i] = x]: beyond the end the array grows, the holes reading as
    [undefined]. *)
Definition Array_set (i : nat) (x : jsval) (arr : list jsval) : list jsval :=
  if (i <? length arr)%nat then <[i := x]> arr
  else arr ++ replicate (i - length arr) VUndef ++ [x].

(** [removeFavoriteTeam(teamId, league)]. *)
Definition removeFavoriteTeam (teamId league : jsval) : M unit :=
  let* got := getFavoriteTeams in
  let (teams, _) := got in
  let* filtered :=
    Array_filter teams
      (fun t => let+ same := is_team teamId league t in Val (negb same)) in
  saveFavoriteTeams filtered.

(** [moveFavoriteTeam(teamId, league, direction)].  The swap assigns to the
    array [getFavoriteTeams] returned, which is [DEFAULT_TEAMS] itself when
    nothing is stored. *)
Definition moveFavoriteTeam (teamId league direction : jsval) : M unit :=
  let* got := getFavoriteTeams in
  let (teams, is_DEFAULT_TEAMS) := got in
  let* index := Array_findIndex teams (is_team teamId league) in
  if index =? -1 then ret tt
  else
    let newIndex :=
      if strict_eq direction (VStr (js "up")) then index - 1 else index + 1 in
    if (newIndex <? 0) || (Z.of_nat (length teams) <=? newIndex) then ret tt
    else
      let moved := Array_get (Z.to_nat newIndex) teams in
      let other := Array_get (Z.to_nat index) teams in
      let teams :=
        Array_set (Z.to_nat newIndex) other (Array_set (Z.to_nat index) moved teams) in
      let* _ :=
        (fun w => Ret tt (if is_DEFAULT_TEAMS then set_DEFAULT_TEAMS teams w else w)) in
      saveFavoriteTeams teams.

(** [isFavorite(teamId, league)]. *)
Definition isFavorite (teamId league : jsval) : M bool :=
  let* got := getFavoriteTeams in
  let (teams, _) := got in
  Array_some teams (is_team teamId league).

(** ** Must-watch games (calendar page) *)

Definition MUST_WATCH_KEY : jsstring := js "sports-tracker-must-watch".

(** [getMustWatchGames()]. *)
Definition getMustWatchGames : M jsval :=
  try_catch
    (let* saved := localStorage_getItem MUST_WATCH_KEY in
     if truthy saved then JSON_parse_ saved else ret (VArr []))
    (ret (VArr [])).

(** [saveMustWatchGames(gameIds)]. *)
Definition saveMustWatchGames (gameIds : jsval) : M unit :=
  localStorage_setItem MUST_WATCH_KEY (JSON_stringify_ gameIds).

(** [arr.indexOf(x)]: the index of the first element strictly equal to [x],
    or [-1]. *)
Fixpoint indexOf_from (i : Z) (arr : list jsval) (x : jsval) : Z :=
  match arr with
  | [] => -1
  | y :: r => if strict_eq y x then i else indexOf_from (i + 1) r x
  end.

Definition Array_indexOf (arr : list jsval) (x : jsval) : Z := indexOf_from 0 arr x.

(** The list after [mustWatch.push(gameId)] or [mustWatch.splice(index, 1)].
    A value that is not an array has no [push] and no [splice] (a string has
    an [indexOf], and fails at the next step). *)
Definition toggled_games (mustWatch gameId : jsval) : ev jsval :=
  match mustWatch with
  | VArr ids =>
      let index := Array_indexOf ids gameId in
      if index =? -1 then Val (VArr (ids ++ [gameId]))
      else Val (VArr (delete (Z.to_nat index) ids))
  | _ => Exc
  end.

(** [toggleMustWatch(gameId)]; [loadSchedules] is the function of the page
    that the call ends with. *)
Definition toggleMustWatch (loadSchedules : M unit) (gameId : jsval) : M unit :=
  let* mustWatch := getMustWatchGames in
  let* mustWatch := toggled_games mustWatch gameId in
  let* _ := saveMustWatchGames mustWatch in
  loadSchedules.

(** [isMustWatch(gameId)]. *)
Definition isMustWatch (gameId : jsval) : M bool :=
  let* mustWatch := getMustWatchGames in
  call_includes mustWatch gameId.

(** [cleanupOldMustWatch(currentGameIds)]; only an array has [filter]. *)
Definition cleanupOldMustWatch (currentGameIds : jsval) : M unit :=
  let* mustWatch := getMustWatchGames in
  match mustWatch with
  | VArr ids =>
      let* validIds := Array_filter ids (fun id => call_includes currentGameIds id) in
      if negb (length validIds =? length ids)%nat then saveMustWatchGames (VArr validIds)
      else ret tt
  | _ => Exc
  end.

(** ** Page addresses and watch-party links *)

(** A parsed URL, as far as the code uses one: whether its scheme is special
    ([http], [https], [file], ...), its serialisation up to the end of the
    path, its query and its fragment ([None] for [null]). *)
Record URL : Type := {
  special : bool;
  before_query : jsstring;
  query : option jsstring;
  fragment : option jsstring
}.

Section Links.
Local Open Scope N_scope.

(** [url.href] and [url.toString()]. *)
Definition URL_href (u : URL) : jsstring :=
  before_query u
  ++ match query u with Some q => 63 :: q | None => [] end
  ++ match fragment u with Some f => 35 :: f | None => [] end.

(** [url.search] and [location.search]. *)
Definition URL_search (u : URL) : jsstring :=
  match query u with
  | Some (c :: q) => 63 :: c :: q
  | _ => []
  end.

Definition upper_hex (n : N) : N := if n <? 10 then 48 + n else 55 + n.

(** The code points the URL parser escapes in a query: the C0 controls and
    the space, the quotation mark, [#], [<], [>], everything above [~], and
    the apostrophe when the scheme is special. *)
Definition in_query_percent_encode_set (is_special : bool) (c : N) : bool :=
  (c <=? 32) || (c =? 34) || (c =? 35) || (c =? 60) || (c =? 62) || (126 <? c)
  || (is_special && (c =? 39)).

Definition percent_encode (is_special : bool) (c : N) : jsstring :=
  if in_query_percent_encode_set is_special c
  then [37; upper_hex (c / 16); upper_hex (c mod 16)]
  else [c].

(** [url.search = value]: a leading [?] is dropped, tabs and newlines are
    removed and the rest is escaped as a query.  A code unit above 127 is
    escaped through its UTF-8 bytes, and an empty value trims an opaque
    path: both leave the model. *)
Definition URL_set_search (value : jsstring) (u : URL) : ev URL :=
  match value with
  | [] =>
      if special u then
        Val {| special := special u; before_query := before_query u; query := None;
               fragment := fragment u |}
      else Out
  | c :: r =>
      let input := if c =? 63 then r else value in
      let input :=
        List.filter (fun c => negb ((c =? 9) || (c =? 10) || (c =? 13))) input in
      if existsb (fun c => 127 <? c) input then Out
      else
        Val {| special := special u; before_query := before_query u;
               query := Some (flat_map (percent_encode (special u)) input);
               fragment := fragment u |}
  end.

(** The pieces of a string between the occurrences of [sep]. *)
Fixpoint split_at (sep : N) (s : jsstring) : list jsstring :=
  match s with
  | [] => [[]]
  | c :: r =>
      if c =? sep then [] :: split_at sep r
      else
        match split_at sep r with
        | piece :: pieces => (c :: piece) :: pieces
        | [] => [[c]]
        end
  end.

(** The parts of a string before and after the first [sep]; the second part
    is empty when there is none. *)
Fixpoint split_first (sep : N) (s : jsstring) : jsstring * jsstring :=
  match s with
  | [] => ([], [])
  | c :: r =>
      if c =? sep then ([], r)
      else let (before, after) := split_first sep r in (c :: before, after)
  end.

(** Percent-decoding followed by UTF-8 decoding, for results within ASCII:
    a byte above 127 needs the UTF-8 decoder and leaves the model. *)
Fixpoint percent_decode (s : jsstring) : ev jsstring :=
  match s with
  | [] => Val []
  | c :: r =>
      if 127 <? c then Out
      else
        match r with
        | h :: l :: r' =>
            match (if c =? 37 then hex_val h else None), hex_val l with
            | Some a, Some b =>
                if 127 <? 16 * a + b then Out
                else let+ rest := percent_decode r' in Val (16 * a + b :: rest)
            | _, _ => let+ rest := percent_decode r in Val (c :: rest)
            end
        | _ => let+ rest := percent_decode r in Val (c :: rest)
        end
  end.

Definition plus_to_space (s : jsstring) : jsstring :=
  List.map (fun c => if c =? 43 then 32 else c) s.

(** A name and value of the [application/x-www-form-urlencoded] parser. *)
Definition form_pair (piece : jsstring) : ev (jsstring * jsstring) :=
  let (name, value) := split_first 61 piece in
  let+ name := percent_decode (plus_to_space name) in
  let+ value := percent_decode (plus_to_space value) in
  Val (name, value).

Fixpoint form_pairs (pieces : list jsstring) : ev (list (jsstring * jsstring)) :=
  match pieces with
  | [] => Val []
  | piece :: r =>
      match piece with
      | [] => form_pairs r
      | _ :: _ =>
          let+ pair := form_pair piece in
          let+ pairs := form_pairs r in
          Val (pair :: pairs)
      end
  end.

(** [new URLSearchParams(init)] for a string. *)
Definition URLSearchParams (init : jsstring) : ev (list (jsstring * jsstring)) :=
  let input := match init with
               | c :: r => if c =? 63 then r else init
               | [] => init
               end in
  form_pairs (split_at 38 input).

End Links.

(** [params.get(name)]: the value of the first pair with the name, or
    [null]. *)
Fixpoint URLSearchParams_get (params : list (jsstring * jsstring)) (name : jsstring)
  : jsval :=
  match params with
  | [] => VNull
  | (n, v) :: r => if bool_decide (n = name) then VStr v else URLSearchParams_get r name
  end.

(** [new URLSearchParams(window.location.search).get('wp')], the value that
    [location_wp] stands for, from the [search] of the page address. *)
Definition wp_parameter (search : jsstring) : ev jsval :=
  let+ params := URLSearchParams search in
  Val (URLSearchParams_get params (js "wp")).

(** [arr.map(f)]. *)
Fixpoint Array_map (arr : list jsval) (f : jsval -> ev jsval) : ev (list jsval) :=
  match arr with
  | [] => Val []
  | x :: r =>
      let+ y := f x in
      let+ r' := Array_map r f in
      Val (y :: r')
  end.

(** [t => ({name: t.name, id: t.id, league: t.league, sport: t.sport,
    espnPath: t.espnPath, logo: t.logo})]. *)
Definition team_fields (t : jsval) : ev jsval :=
  let+ name := get_prop t (js "name") in
  let+ id := get_prop t (js "id") in
  let+ league := get_prop t (js "league") in
  let+ sport := get_prop t (js "sport") in
  let+ espnPath := get_prop t (js "espnPath") in
  let+ logo := get_prop t (js "logo") in
  Val (VObj [ (js "name", name); (js "id", id); (js "league", league);
              (js "sport", sport); (js "espnPath", espnPath); (js "logo", logo) ]).

(** [generateWatchPartyURL(teams, bigGameSettings, showPreseason, mustWatch)]
    on a page whose address is [location]; only an array has [map]. *)
Definition generateWatchPartyURL (location : URL)
    (teams bigGameSettings showPreseason mustWatch : jsval) : M jsval :=
  let* teams :=
    match teams with
    | VArr elems => let+ copies := Array_map elems team_fields in Val (VArr copies)
    | _ => Exc
    end in
  let* bigGames := get_prop bigGameSettings (js "perCompetition") in
  let settings :=
    VObj [ (js "teams", teams); (js "bigGames", bigGames);
           (js "showPreseason", showPreseason);
           (js "mustWatch", if truthy mustWatch then mustWatch else VArr []) ] in
  let* encoded := encodeWatchParty settings in
  if negb (truthy encoded) then ret VNull
  else
    let* url := URL_set_search (js "?wp=" ++ ToString encoded) location in
    ret (VStr (URL_href url)).

(** ** Favourite ids (calendar page) *)

(** [getFavoriteTeamIds()]. *)
Definition getFavoriteTeamIds : M (list jsval) :=
  let* got := getFavoriteTeams in
  let (teams, _) := got in
  Array_map teams (fun t => get_prop t (js "id")).

(** [getFavoriteTeamIdsBySport(sport)]. *)
Definition getFavoriteTeamIdsBySport (sport : jsval) : M (list jsval) :=
  let* got := getFavoriteTeams in
  let (teams, _) := got in
  let* played :=
    Array_filter teams
      (fun t => let+ s := get_prop t (js "sport") in Val (strict_eq s sport)) in
  Array_map played (fun t => get_prop t (js "id")).

(** [isFavoriteTeamId(teamId, sport)]. *)
Definition isFavoriteTeamId (teamId sport : jsval) : M bool :=
  let* favoriteIds := getFavoriteTeamIdsBySport sport in
  ret (Array_includes (Array_map_String favoriteIds) (VStr (ToString teamId))).

(** [teamIdMatchesList(teamId, teamIdList)]. *)
Definition teamIdMatchesList (teamId : jsval) (teamIdList : list jsval) : bool :=
  Array_includes (Array_map_String teamIdList) (VStr (ToString teamId)).

(** ** Notions used to state the further properties *)

(** The id, printed, is among the printed ids of the list. *)
Definition listed_id (teamId : jsval) (ids : list jsval) : bool :=
  bool_decide (ToString teamId ∈ List.map ToString ids).

(** The five standard game categories, as [categorizeGame] names them. *)
Definition standard_categories : list jsval :=
  [ VStr GAME_CATEGORIES.ROB_LOWE; VStr GAME_CATEGORIES.PLAYOFF_PREVIEW;
    VStr GAME_CATEGORIES.MEASURING_STICK; VStr GAME_CATEGORIES.BEAT_EM_OFF;
    VStr GAME_CATEGORIES.HOUSE_DIVIDED ].

(** The list the check boxes of a competition work on: the stored array, or
    an empty one when the competition has no (truthy) entry; the handler
    fails on any other entry. *)
Definition enabled_list (current : jsval) : option (list jsval) :=
  match current with
  | VArr l => Some l
  | _ => if truthy current then None else Some []
  end.

(** The list after the box of [category] was set to [checked]. *)
Definition toggled_list (l : list jsval) (category : jsstring) (checked : bool)
  : list jsval :=
  if checked then
    if Array_includes l (VStr category) then l else l ++ [VStr category]
  else List.filter (fun c => negb (strict_eq c (VStr category))) l.

(** The settings document with the list of [competition] replaced. *)
Definition with_list (ps pcs : list (jsstring * jsval)) (competition : jsstring)
    (l : list jsval) : jsval :=
  VObj (obj_set perCompetition_key (VObj (obj_set competition (VArr l) pcs)) ps).

(** Every competition has an array as its list. *)
Definition lists_are_arrays (pcs : list (jsstring * jsval)) : Prop :=
  Forall (fun k => exists l, obj_get k pcs = VArr l) COMPETITION_KEYS.

(** Whether the array listed for a competition holds the category. *)
Definition listed_category (pcs : list (jsstring * jsval)) (category : jsval)
    (competition : jsstring) : bool :=
  match obj_get competition pcs with
  | VArr l => Array_includes l category
  | _ => false
  end.

(** The state after [sessionStorage.setItem] stored the watch-party text. *)
Definition session_stored (text : jsstring) (w : World) : World :=
  set_sessionStorage
    {| items := <[WATCH_PARTY_SESSION_KEY := text]> (items (sessionStorage w));
       denied := denied (sessionStorage w); full := full (sessionStorage w);
       writes := S (writes (sessionStorage w)) |} w.

(** The state after [sessionStorage.removeItem] removed it. *)
Definition session_cleared (w : World) : World :=
  set_sessionStorage
    {| items := delete WATCH_PARTY_SESSION_KEY (items (sessionStorage w));
       denied := denied (sessionStorage w); full := full (sessionStorage w);
       writes := writes (sessionStorage w) |} w.

(** A page address whose [wp] parameter decodes to nothing: there is no
    parameter (or an empty one), it is not base64, or it is not the base64
    of a JSON text. *)
Definition no_party_in_address (w : World) : Prop :=
  truthy (location_wp w) = false
  \/ atob (ToString (location_wp w)) = None
  \/ exists text, atob (ToString (location_wp w)) = Some text
                  /\ JSON_parse text = PSyntaxError.

(** [v.k], with [undefined] where the read throws. *)
Definition prop (v : jsval) (k : jsstring) : jsval :=
  match get_prop v k with
  | Val x => x
  | Exc | Out => VUndef
  end.

(** The team has the id and the league asked for. *)
Definition team_matches (teamId league t : jsval) : bool :=
  strict_eq (prop t (js "id")) teamId && strict_eq (prop t (js "league")) league.

(** No element of the list is [null] or [undefined] (reading a property of
    such an element throws). *)
Definition no_null (l : list jsval) : bool :=
  forallb (fun t => match t with VNull | VUndef => false | _ => true end) l.

(** The values [===] compares by content. *)
Definition primitive (v : jsval) : bool :=
  match v with
  | VArr _ | VObj _ => false
  | _ => true
  end.

(** The state after the list [teams] was saved; [is_DEFAULT_TEAMS] tells
    whether the list is the array [DEFAULT_TEAMS] itself, changed in place. *)
Definition saved_teams (teams : list jsval) (is_DEFAULT_TEAMS : bool) (w : World) : World :=
  stored FAVORITE_TEAMS_KEY (SerializeJSON (VArr teams))
    (if is_DEFAULT_TEAMS then set_DEFAULT_TEAMS teams w else w).

(** The characters of a base64 text: letters, digits, [+], [/] and [=]. *)
Definition b64_text (c : N) : bool :=
  ((65 <=? c) && (c <=? 90) || (97 <=? c) && (c <=? 122) || (48 <=? c) && (c <=? 57)
   || (c =? 43) || (c =? 47) || (c =? 61))%N.

(** A JSON text whose token has no [+]: ASCII without [>] and [~]. *)
Definition link_safe (text : jsstring) : bool :=
  forallb (fun c => (c <? 128) && negb (c =? 62) && negb (c =? 126))%N text.

(** The copy of a team that a link carries. *)
Definition team_record (t : jsval) : jsval :=
  VObj [ (js "name", prop t (js "name")); (js "id", prop t (js "id"));
         (js "league", prop t (js "league")); (js "sport", prop t (js "sport"));
         (js "espnPath", prop t (js "espnPath")); (js "logo", prop t (js "logo")) ].

(** The snapshot a link carries. *)
Definition party_settings (teams : list jsval) (bigGameSettings showPreseason mustWatch : jsval)
  : jsval :=
  VObj [ (js "teams", VArr (List.map team_record teams));
         (js "bigGames", prop bigGameSettings (js "perCompetition"));
         (js "showPreseason", showPreseason);
         (js "mustWatch", if truthy mustWatch then mustWatch else VArr []) ].

(** The ids of the teams of a sport, in the order of the list. *)
Definition ids_of_sport (sport : jsval) (teams : list jsval) : list jsval :=
  List.map (fun t => prop t (js "id"))
    (List.filter (fun t => strict_eq (prop t (js "sport")) sport) teams).

(** * Properties *)

(** ** Game categorisation *)

Example categorize_scenarios :
  categorizeGame (VStr TEAM_LEVELS.TOP_TIER) (VStr TEAM_LEVELS.THINKIN_SUPEY)
    = VStr GAME_CATEGORIES.PLAYOFF_PREVIEW
  /\ categorizeGame (VStr TEAM_LEVELS.YA_NEVER_KNOW) VNull
    = VStr GAME_CATEGORIES.BEAT_EM_OFF
  /\ categorizeGame (VStr TEAM_LEVELS.YA_NEVER_KNOW) (VStr TEAM_LEVELS.THINKIN_SUPEY)
    = VStr GAME_CATEGORIES.HOUSE_DIVIDED.
Proof. repeat split; reflexivity. Qed.

(** C1. On every pair of tiers among [null], ['top-tier'], ['thinkin-supey']
    and ['ya-never-know'], [categorizeGame] returns the result of the ordered
    rule table; a top-tier against thinkin-supey pair is a playoff preview in
    either argument order (so never a rob-lowe game), and swapping home and
    away never changes the category. *)
Theorem categorizeGame_rule_table :
  Forall (fun homeTier => Forall (fun awayTier =>
    categorizeGame homeTier awayTier = RuleTable.category homeTier awayTier
    /\ categorizeGame homeTier awayTier = categorizeGame awayTier homeTier) tiers) tiers
  /\ categorizeGame (VStr TEAM_LEVELS.TOP_TIER) (VStr TEAM_LEVELS.THINKIN_SUPEY)
       = VStr GAME_CATEGORIES.PLAYOFF_PREVIEW
  /\ categorizeGame (VStr TEAM_LEVELS.THINKIN_SUPEY) (VStr TEAM_LEVELS.TOP_TIER)
       = VStr GAME_CATEGORIES.PLAYOFF_PREVIEW
  /\ VStr GAME_CATEGORIES.PLAYOFF_PREVIEW <> VStr GAME_CATEGORIES.ROB_LOWE.
Proof.
  split; [ | split; [reflexivity | split; [reflexivity | discriminate]]].
  unfold tiers.
  repeat (apply List.Forall_cons || apply List.Forall_nil);
    (split; vm_compute; reflexivity).
Qed.

(** ** Team categorisation *)

Lemma Array_includes_map_String (ids : list jsval) (s : jsstring) :
  Array_includes (Array_map_String ids) (VStr s)
  = bool_decide (s ∈ Classifier.normalize ids).
Proof.
  unfold Classifier.normalize, Array_includes, Array_map_String.
  induction ids as [ | e ids IH ]; simpl.
  - symmetry. apply bool_decide_eq_false. set_solver.
  - rewrite IH. unfold jsstring_eqb.
    destruct (decide (ToString e = s)) as [-> | Hne].
    + rewrite (bool_decide_eq_true_2 (s = s)) by reflexivity. simpl.
      symmetry. apply bool_decide_eq_true. set_solver.
    + rewrite (bool_decide_eq_false_2 (ToString e = s)) by assumption. simpl.
      apply bool_decide_ext. set_solver.
Qed.

Example classify_scenarios :
  let topTierIds := [VStr (js "55"); VStr (js "10")] in
  let favoriteIds := [VStr (js "55")] in
  categorizeTeam (VStr (js "55")) topTierIds favoriteIds = VStr TEAM_LEVELS.THINKIN_SUPEY
  /\ categorizeTeam (VStr (js "10")) topTierIds favoriteIds = VStr TEAM_LEVELS.TOP_TIER
  /\ categorizeTeam (VStr (js "99")) topTierIds favoriteIds = VNull
  /\ categorizeTeam (VNum 55) topTierIds [VNum 55] = VStr TEAM_LEVELS.THINKIN_SUPEY.
Proof. repeat split; reflexivity. Qed.



(** ** JSON text: strings and numbers *)

Section JSON_string_facts.
Local Open Scope N_scope.

Lemma list_pair_ind {A} (P : list A -> Prop) :
  P [] -> (forall a, P [a]) ->
  (forall a b l, P l -> P (b :: l) -> P (a :: b :: l)) ->
  forall l, P l.
Proof.
  intros H0 H1 H2 l.
  enough (P l /\ forall a, P (a :: l)) by tauto.
  induction l as [ | b l [IHl IHbl] ]; split; auto.
Qed.

Ltac small_N n :=
  let p := fresh "p" in
  destruct n as [ | p ];
  [ | do 5 (try destruct p as [ p | p | ]) ];
  try reflexivity; try (exfalso; lia).

Lemma hex_val_digit (n : N) : n < 16 -> hex_val (hex_digit n) = Some n.
Proof. intros H. small_N n. Qed.

Lemma hex4_unicode_escape (c : N) :
  c < 65536 ->
  hex4 (hex_digit (c / 4096 mod 16)) (hex_digit (c / 256 mod 16))
       (hex_digit (c / 16 mod 16)) (hex_digit (c mod 16)) = Some c.
Proof.
  intros H. unfold hex4.
  rewrite !hex_val_digit by (apply N.mod_upper_bound; discriminate).
  f_equal.
  pose proof (N.Div0.div_mod c 16) as E0.
  pose proof (N.Div0.div_mod (c / 16) 16) as E1.
  pose proof (N.Div0.div_mod (c / 256) 16) as E2.
  assert (c / 16 / 16 = c / 256) as E3 by (rewrite N.Div0.div_div; reflexivity).
  assert (c / 256 / 16 = c / 4096) as E4 by (rewrite N.Div0.div_div; reflexivity).
  assert (c / 4096 < 16) as E5 by (apply N.Div0.div_lt_upper_bound; lia).
  rewrite (N.mod_small (c / 4096) 16) by assumption.
  lia.
Qed.

Lemma parse_chars_escape (c : N) (t : jsstring) :
  c < 65536 ->
  parse_chars (unicode_escape c ++ t) = pcons c (parse_chars t).
Proof.
  intros H. unfold unicode_escape. cbn [app parse_chars].
  change (92 =? 34) with false. change (92 =? 92) with true.
  change (117 =? 34) with false. change (117 =? 92) with false.
  change (117 =? 47) with false. change (117 =? 98) with false.
  change (117 =? 102) with false. change (117 =? 110) with false.
  change (117 =? 114) with false. change (117 =? 116) with false.
  change (117 =? 117) with true. cbv iota.
  now rewrite hex4_unicode_escape.
Qed.

Lemma parse_chars_plain (c : N) (t : jsstring) :
  c <> 34 -> c <> 92 -> 32 <= c ->
  parse_chars (c :: t) = pcons c (parse_chars t).
Proof.
  intros H1 H2 H3. cbn [parse_chars].
  destruct (N.eqb_spec c 34); [contradiction | ].
  destruct (N.eqb_spec c 92); [contradiction | ].
  destruct (N.ltb_spec c 32); [lia | reflexivity].
Qed.

Lemma parse_chars_quote_unit (c : N) (t : jsstring) :
  parse_chars (quote_unit c ++ t) = pcons c (parse_chars t).
Proof.
  unfold quote_unit.
  repeat match goal with
         | |- context [if ?x =? ?y then _ else _] =>
             destruct (N.eqb_spec x y); [subst; reflexivity | ]
         end.
  destruct (N.ltb_spec c 32).
  - apply parse_chars_escape. lia.
  - apply parse_chars_plain; assumption.
Qed.

Lemma high_surrogate_range (c : N) :
  is_high_surrogate c = true -> 55296 <= c <= 56319.
Proof.
  unfold is_high_surrogate. intros H. apply andb_true_iff in H as [H1 H2].
  apply N.leb_le in H1, H2. lia.
Qed.

Lemma low_surrogate_range (c : N) :
  is_low_surrogate c = true -> 56320 <= c <= 57343.
Proof.
  unfold is_low_surrogate. intros H. apply andb_true_iff in H as [H1 H2].
  apply N.leb_le in H1, H2. lia.
Qed.

Lemma quote_units_cons (c : N) (r : jsstring) :
  quote_units (c :: r)
  = if is_high_surrogate c then
      match r with
      | d :: r' =>
          if is_low_surrogate d then c :: d :: quote_units r'
          else unicode_escape c ++ quote_units r
      | [] => unicode_escape c
      end
    else if is_low_surrogate c then unicode_escape c ++ quote_units r
    else quote_unit c ++ quote_units r.
Proof. reflexivity. Qed.

(** Reading back the quoted characters of a string gives the string. *)
Lemma parse_chars_quote_units (s rest : jsstring) :
  parse_chars (quote_units s ++ 34 :: rest) = POk s rest.
Proof.
  induction s as [ | c | c d s IHs IHds ] using list_pair_ind.
  - reflexivity.
  - rewrite quote_units_cons.
    destruct (is_high_surrogate c) eqn:Hh.
    { rewrite parse_chars_escape; [reflexivity | ].
      apply high_surrogate_range in Hh. lia. }
    destruct (is_low_surrogate c) eqn:Hl.
    { rewrite <- app_assoc, parse_chars_escape; [reflexivity | ].
      apply low_surrogate_range in Hl. lia. }
    rewrite <- app_assoc, parse_chars_quote_unit. reflexivity.
  - rewrite (quote_units_cons c).
    destruct (is_high_surrogate c) eqn:Hh.
    { apply high_surrogate_range in Hh.
      destruct (is_low_surrogate d) eqn:Hl.
      - apply low_surrogate_range in Hl.
        rewrite <- !app_comm_cons.
        rewrite (parse_chars_plain c) by lia.
        rewrite (parse_chars_plain d) by lia.
        rewrite IHs. reflexivity.
      - rewrite <- app_assoc, parse_chars_escape by lia.
        rewrite IHds. reflexivity. }
    destruct (is_low_surrogate c) eqn:Hl.
    { apply low_surrogate_range in Hl.
      rewrite <- app_assoc, parse_chars_escape by lia.
      rewrite IHds. reflexivity. }
    rewrite <- app_assoc, parse_chars_quote_unit.
    rewrite IHds. reflexivity.
Qed.

Lemma read_uint_chars (d : uint) (rest : jsstring) :
  ends_number rest = true ->
  read_uint (uint_chars d ++ rest) = (d, rest).
Proof.
  intros H. induction d; cbn [uint_chars app read_uint];
    try (change (is_digit _) with true; cbv iota; rewrite IHd; reflexivity).
  destruct rest as [ | c r ]; [reflexivity | ].
  cbn [read_uint]. simpl in H.
  destruct (is_digit c); [discriminate | reflexivity].
Qed.

Lemma nzhead_not_D0 (d d' : uint) : nzhead d <> D0 d'.
Proof. induction d; simpl; try discriminate; assumption. Qed.

Lemma to_uint_shape (n : N) :
  match N.to_uint n with
  | Nil => False
  | D0 Nil => True
  | D0 _ => False
  | _ => True
  end.
Proof.
  pose proof (DecimalN.Unsigned.to_of (N.to_uint n)) as E.
  rewrite DecimalN.Unsigned.of_to in E.
  rewrite E. unfold unorm.
  pose proof (nzhead_not_D0 (N.to_uint n)) as Hn.
  destruct (nzhead (N.to_uint n)); try exact I.
  exfalso. eapply Hn. reflexivity.
Qed.

Lemma parse_number_digits (negative : bool) (n : N) (rest : jsstring) :
  n <= MAX_SAFE_INTEGER -> ends_number rest = true ->
  parse_number negative (uint_chars (N.to_uint n) ++ rest)
  = POk (VNum (if negative then Z.opp (Z.of_N n) else Z.of_N n)) rest.
Proof.
  intros Hn Hr. unfold parse_number. rewrite read_uint_chars by assumption.
  pose proof (to_uint_shape n) as Hs.
  assert (Hf : match rest with
               | [] => false
               | c :: _ => (c =? 46) || (c =? 101) || (c =? 69)
               end = false).
  { destruct rest as [ | c r ]; [reflexivity | ]. simpl in Hr.
    destruct (is_digit c); [discriminate | ]. simpl in Hr.
    now apply negb_true_iff in Hr. }
  rewrite Hf.
  assert (Hle : (N.of_uint (N.to_uint n) <=? MAX_SAFE_INTEGER) = true).
  { rewrite DecimalN.Unsigned.of_to. now apply N.leb_le. }
  destruct (N.to_uint n) as [ | d | d | d | d | d | d | d | d | d | d ] eqn:E;
    try contradiction;
    try (rewrite Hle; rewrite <- E, DecimalN.Unsigned.of_to; reflexivity).
  destruct d; try contradiction.
  rewrite Hle. rewrite <- E, DecimalN.Unsigned.of_to. reflexivity.
Qed.

End JSON_string_facts.

(** ** JSON text: [JSON.parse] undoes [JSON.stringify] *)

Section JSON_roundtrip.
Local Open Scope N_scope.

Lemma json_value_obj (props : list (jsstring * jsval)) :
  json_value (VObj props) = members_ok props.
Proof. induction props as [ | [k x] r IH ]; [reflexivity | ]. simpl in *. now rewrite IH. Qed.

Lemma SerializeJSON_arr (l : list jsval) :
  SerializeJSON (VArr l) = 91 :: match l with [] => [93] | _ :: _ => elements_text l end.
Proof.
  cbn [SerializeJSON]. f_equal.
  induction l as [ | e r IH ]; [reflexivity | ].
  cbn [elements_text]. f_equal. destruct r as [ | e' r' ]; [reflexivity | ].
  f_equal. exact IH.
Qed.

Lemma SerializeJSON_obj (props : list (jsstring * jsval)) :
  members_ok props = true ->
  SerializeJSON (VObj props)
  = 123 :: match props with [] => [125] | _ :: _ => members_text props end.
Proof.
  intros Hok. cbn [SerializeJSON]. f_equal.
  set (members := fix members (l : list (jsstring * jsval)) (first : bool) : jsstring :=
                    match l with
                    | [] => [125]
                    | (k, x) :: r =>
                        match x with
                        | VUndef => members r first
                        | _ =>
                            (if first then [] else [44]) ++
                            QuoteJSONString k ++ 58 :: SerializeJSON x ++ members r false
                        end
                    end).
  assert (H : forall l, members_ok l = true ->
                forall first, members l first
                = match l with
                  | [] => [125]
                  | _ :: _ => (if first then [] else [44]) ++ members_text l
                  end).
  { induction l as [ | [k x] r IH ]; intros Hl first; [reflexivity | ].
    cbn [members_ok] in Hl. apply andb_true_iff in Hl as [Hl Hr].
    apply andb_true_iff in Hl as [_ Hx].
    cbn [members members_text]. rewrite (IH Hr false).
    destruct x; try discriminate; f_equal; f_equal; f_equal; f_equal;
      destruct r; reflexivity. }
  rewrite (H props Hok true). destruct props; reflexivity.
Qed.

Lemma uint_chars_head (d : uint) :
  d <> Nil -> exists c r, uint_chars d = c :: r /\ is_digit c = true.
Proof. destruct d; intros H; try contradiction; simpl; eauto. Qed.

Lemma digit_dispatch (c : N) :
  is_digit c = true ->
  is_ws c = false /\ (c =? 123) = false /\ (c =? 91) = false /\ (c =? 34) = false
  /\ (c =? 116) = false /\ (c =? 102) = false /\ (c =? 110) = false
  /\ (c =? 45) = false /\ (c =? 93) = false /\ (c =? 125) = false.
Proof.
  unfold is_digit, is_ws. intros H. apply andb_true_iff in H as [H1 H2].
  apply N.leb_le in H1, H2.
  repeat split;
    repeat match goal with
           | |- context [?x =? ?y] => destruct (N.eqb_spec x y); [lia | ]
           end; reflexivity.
Qed.

Lemma parse_value_digit (fuel : nat) (c : N) (r : jsstring) :
  is_digit c = true ->
  parse_value (S fuel) (c :: r) = parse_number false (c :: r).
Proof.
  intros H. destruct (digit_dispatch c H) as (H0 & H1 & H2 & H3 & H4 & H5 & H6 & H7 & _).
  cbn [parse_value skip_ws]. rewrite H0, H1, H2, H3, H4, H5, H6, H7, H. reflexivity.
Qed.

(** The first character of the text of a value is not white space and closes
    neither an array nor an object. *)
Lemma SerializeJSON_head (v : jsval) :
  exists c r, SerializeJSON v = c :: r /\ is_ws c = false
              /\ (c =? 93) = false /\ (c =? 125) = false.
Proof.
  destruct v as [ | | [ | ] | n | s | l | p ]; try (simpl; eauto 10).
  destruct n as [ | q | q ]; try (simpl; eauto 10).
  simpl. destruct (uint_chars_head (Pos.to_uint q)) as (c & r & E & Hd).
  { apply DecimalPos.Unsigned.to_uint_nonnil. }
  rewrite E. destruct (digit_dispatch c Hd) as (H0 & _ & _ & _ & _ & _ & _ & _ & H8 & H9).
  eauto 10.
Qed.

Lemma obj_set_fresh (k : jsstring) (v : jsval) (acc : list (jsstring * jsval)) :
  obj_has k acc = false -> obj_set k v acc = acc ++ [(k, v)].
Proof.
  induction acc as [ | [k' v'] r IH ]; [reflexivity | ].
  unfold obj_has. cbn [existsb fst]. intros H. apply orb_false_iff in H as [H1 H2].
  cbn [obj_set]. rewrite H1. cbn [app]. f_equal. now apply IH.
Qed.

Lemma obj_has_app (k : jsstring) (a b : list (jsstring * jsval)) :
  obj_has k (a ++ b) = obj_has k a || obj_has k b.
Proof. unfold obj_has. apply existsb_app. Qed.

Lemma fold_obj_set (l acc : list (jsstring * jsval)) :
  members_ok l = true ->
  (forall k x, In (k, x) l -> obj_has k acc = false) ->
  fold_left (fun o kv => obj_set (fst kv) (snd kv) o) l acc = acc ++ l.
Proof.
  revert acc. induction l as [ | [k x] r IH ]; intros acc Hok Hacc.
  - now rewrite app_nil_r.
  - cbn [members_ok] in Hok. apply andb_true_iff in Hok as [Hok Hr].
    apply andb_true_iff in Hok as [Hok _]. apply andb_true_iff in Hok as [_ Hk].
    apply negb_true_iff in Hk.
    cbn [fold_left fst snd]. rewrite obj_set_fresh by (eapply Hacc; left; reflexivity).
    rewrite IH; [now rewrite <- app_assoc | assumption | ].
    intros k' x' Hin. rewrite obj_has_app, (Hacc k' x') by (right; assumption).
    unfold obj_has at 1. cbn [existsb fst orb].
    rewrite orb_false_r. apply bool_decide_eq_false. intros ->.
    unfold obj_has in Hk. rewrite <- not_true_iff_false in Hk. apply Hk.
    apply existsb_exists. exists (k, x'). split; [assumption | ].
    now apply bool_decide_eq_true.
Qed.

Lemma members_ok_keys (l : list (jsstring * jsval)) :
  members_ok l = true -> existsb (fun kv => is_integer_key (fst kv)) l = false.
Proof.
  induction l as [ | [k x] r IH ]; [reflexivity | ].
  cbn [members_ok existsb fst]. intros H. apply andb_true_iff in H as [H Hr].
  apply andb_true_iff in H as [H _]. apply andb_true_iff in H as [Hk _].
  apply negb_true_iff in Hk. rewrite Hk. now apply IH.
Qed.

Lemma object_of_members_ok (l : list (jsstring * jsval)) (rest : jsstring) :
  members_ok l = true -> object_of_members l rest = POk (VObj l) rest.
Proof.
  intros H. unfold object_of_members. rewrite members_ok_keys by assumption.
  rewrite fold_obj_set; [reflexivity | assumption | reflexivity].
Qed.

Lemma SerializeJSON_length (v : jsval) : (1 <= length (SerializeJSON v))%nat.
Proof.
  destruct (SerializeJSON_head v) as (c & r & E & _). rewrite E. simpl. lia.
Qed.

Lemma elements_text_app (e : jsval) (r : list jsval) (rest : jsstring) :
  elements_text (e :: r) ++ rest
  = SerializeJSON e ++
    match r with
    | [] => 93 :: rest
    | _ :: _ => 44 :: (elements_text r ++ rest)
    end.
Proof. cbn [elements_text]. rewrite <- app_assoc. destruct r; reflexivity. Qed.

Lemma parse_elements_text (l : list jsval) :
  Forall roundtrips l -> l <> [] -> forallb json_value l = true ->
  forall (fuel : nat) (rest : jsstring),
    (length (elements_text l) <= fuel)%nat ->
    parse_elements fuel (elements_text l ++ rest) = POk l rest.
Proof.
  induction 1 as [ | e r He _ IH ]; intros Hne Hok fuel rest Hfuel; [contradiction | ].
  cbn [forallb] in Hok. apply andb_true_iff in Hok as [Hoke Hokr].
  pose proof (SerializeJSON_length e) as Hlen.
  cbn [elements_text] in Hfuel. rewrite length_app in Hfuel.
  rewrite elements_text_app.
  destruct fuel as [ | fuel ]; [destruct r; simpl in Hfuel; lia | ].
  cbn [parse_elements].
  destruct r as [ | e' r' ].
  - rewrite (He Hoke fuel (93 :: rest)); [reflexivity | simpl in Hfuel; lia | reflexivity].
  - rewrite (He Hoke fuel (44 :: (elements_text (e' :: r') ++ rest)));
      [ | simpl in Hfuel; lia | reflexivity ].
    cbn [skip_ws]. change (is_ws 44) with false. cbv iota.
    change (44 =? 44) with true. cbv iota.
    rewrite IH; [reflexivity | discriminate | assumption | ].
    simpl in Hfuel. cbn [elements_text]. lia.
Qed.

Lemma members_text_app (k : jsstring) (x : jsval) (r : list (jsstring * jsval))
    (rest : jsstring) :
  members_text ((k, x) :: r) ++ rest
  = 34 :: quote_units k ++ 34 :: 58 ::
      (SerializeJSON x ++
       match r with
       | [] => 125 :: rest
       | _ :: _ => 44 :: (members_text r ++ rest)
       end).
Proof.
  cbn [members_text]. unfold QuoteJSONString.
  rewrite <- !app_comm_cons, <- !app_assoc. cbn [app].
  do 4 f_equal. rewrite <- app_assoc. destruct r; reflexivity.
Qed.

Lemma parse_members_text (l : list (jsstring * jsval)) :
  Forall (fun kv => roundtrips (snd kv)) l -> l <> [] -> members_ok l = true ->
  forall (fuel : nat) (rest : jsstring),
    (length (members_text l) <= fuel)%nat ->
    parse_members fuel (members_text l ++ rest) = POk l rest.
Proof.
  induction 1 as [ | [k x] r Hx _ IH ]; intros Hne Hok fuel rest Hfuel; [contradiction | ].
  cbn [members_ok] in Hok. apply andb_true_iff in Hok as [Hok Hokr].
  apply andb_true_iff in Hok as [_ Hokx]. cbn [snd] in Hx.
  pose proof (SerializeJSON_length x) as Hlen.
  cbn [members_text] in Hfuel. rewrite length_app in Hfuel.
  cbn [length] in Hfuel. rewrite length_app in Hfuel.
  rewrite members_text_app.
  destruct fuel as [ | fuel ]; [lia | ].
  cbn [parse_members skip_ws]. change (is_ws 34) with false. cbv iota.
  change (34 =? 34) with true. cbv iota.
  rewrite parse_chars_quote_units.
  cbn [skip_ws]. change (is_ws 58) with false. cbv iota.
  change (58 =? 58) with true. cbv iota.
  destruct r as [ | kx' r' ].
  - rewrite (Hx Hokx fuel (125 :: rest)); [reflexivity | lia | reflexivity].
  - rewrite (Hx Hokx fuel (44 :: (members_text (kx' :: r') ++ rest)));
      [ | lia | reflexivity ].
    cbn [skip_ws]. change (is_ws 44) with false. cbv iota.
    change (44 =? 44) with true. cbv iota.
    rewrite IH; [reflexivity | discriminate | assumption | ].
    cbn [length] in Hfuel. lia.
Qed.

(** Every JSON value is read back from its text, whatever follows it (as
    long as what follows cannot continue a number). *)
Lemma parse_value_SerializeJSON (v : jsval) : roundtrips v.
Proof.
  induction v as [ | | b | n | s | l IH | props IH ] using jsval_ind;
    intros Hv fuel rest Hfuel Hrest.
  - discriminate.
  - destruct fuel; [simpl in Hfuel; lia | reflexivity].
  - destruct fuel; [destruct b; simpl in Hfuel; lia | destruct b; reflexivity].
  - destruct fuel as [ | fuel ]; [pose proof (SerializeJSON_length (VNum n)); lia | ].
    cbn [json_value] in Hv. apply N.leb_le in Hv.
    destruct n as [ | p | p ].
    + change (SerializeJSON (VNum 0) ++ rest) with (48 :: rest).
      rewrite parse_value_digit by reflexivity.
      apply (parse_number_digits false 0 rest); [discriminate | assumption].
    + change (SerializeJSON (VNum (Z.pos p))) with (uint_chars (N.to_uint (N.pos p))).
      destruct (uint_chars_head (N.to_uint (N.pos p))) as (c & r & E & Hd).
      { apply DecimalPos.Unsigned.to_uint_nonnil. }
      rewrite E. cbn [app]. rewrite parse_value_digit by assumption.
      change (c :: r ++ rest) with ((c :: r) ++ rest). rewrite <- E.
      apply (parse_number_digits false (N.pos p) rest); assumption.
    + change (SerializeJSON (VNum (Z.neg p)) ++ rest)
        with (45 :: (uint_chars (N.to_uint (N.pos p)) ++ rest)).
      change (parse_value (S fuel) (45 :: (uint_chars (N.to_uint (N.pos p)) ++ rest)))
        with (parse_number true (uint_chars (N.to_uint (N.pos p)) ++ rest)).
      apply (parse_number_digits true (N.pos p) rest); assumption.
  - destruct fuel as [ | fuel ]; [simpl in Hfuel; lia | ].
    change (SerializeJSON (VStr s)) with (34 :: quote_units s ++ [34]).
    rewrite <- app_comm_cons, <- app_assoc. cbn [app].
    cbn [parse_value skip_ws]. change (is_ws 34) with false. cbv iota.
    change (34 =? 123) with false. change (34 =? 91) with false.
    change (34 =? 34) with true. cbv iota.
    rewrite parse_chars_quote_units. reflexivity.
  - rewrite SerializeJSON_arr in *.
    destruct fuel as [ | fuel ]; [simpl in Hfuel; lia | ].
    destruct l as [ | e r ]; [reflexivity | ].
    cbn [length] in Hfuel. rewrite <- app_comm_cons.
    destruct (SerializeJSON_head e) as (c & t & E & Hws & H93 & _).
    assert (Et : exists t', elements_text (e :: r) ++ rest = c :: t').
    { rewrite elements_text_app, E. eexists. reflexivity. }
    destruct Et as [t' Et].
    cbn [parse_value skip_ws]. change (is_ws 91) with false. cbv iota.
    change (91 =? 123) with false. change (91 =? 91) with true. cbv iota.
    rewrite Et. cbn [skip_ws]. rewrite Hws, H93. rewrite <- Et.
    rewrite parse_elements_text; [reflexivity | assumption | discriminate | | lia].
    exact Hv.
  - rewrite json_value_obj in Hv. rewrite (SerializeJSON_obj _ Hv) in *.
    destruct fuel as [ | fuel ]; [simpl in Hfuel; lia | ].
    destruct props as [ | [k x] r ]; [reflexivity | ].
    cbn [length] in Hfuel. rewrite <- app_comm_cons.
    cbn [parse_value skip_ws]. change (is_ws 123) with false. cbv iota.
    change (123 =? 123) with true. cbv iota.
    rewrite (members_text_app k x r rest).
    cbn [skip_ws]. change (is_ws 34) with false. cbv iota.
    change (34 =? 125) with false. cbv iota.
    rewrite <- (members_text_app k x r rest).
    rewrite parse_members_text; [ | assumption | discriminate | assumption | lia].
    now apply object_of_members_ok.
Qed.

(** [JSON.parse(JSON.stringify(v))] is [v] for every JSON value. *)
Lemma JSON_parse_stringify (v : jsval) :
  json_value v = true -> JSON_parse (SerializeJSON v) = POk v [].
Proof.
  intros Hv. unfold JSON_parse.
  rewrite <- (app_nil_r (SerializeJSON v)) at 2.
  rewrite (parse_value_SerializeJSON v Hv); [reflexivity | | reflexivity].
  lia.
Qed.

End JSON_roundtrip.

(** ** Base64: [atob] undoes [btoa] *)

Section Base64_facts.
Local Open Scope N_scope.

Lemma list_triple_ind {A} (P : list A -> Prop) :
  P [] -> (forall a, P [a]) -> (forall a b, P [a; b]) ->
  (forall a b c l, P l -> P (a :: b :: c :: l)) ->
  forall l, P l.
Proof.
  intros H0 H1 H2 H3 l.
  enough (P l /\ (forall a, P (a :: l)) /\ (forall a b, P (a :: b :: l))) by tauto.
  induction l as [ | c l (IH0 & IH1 & IH2) ]; repeat split; auto.
Qed.

Lemma b64_value_char (n : N) : n < 64 -> b64_value (b64_char n) = Some n.
Proof.
  intros H. unfold b64_char, b64_value.
  repeat match goal with
         | |- context [?x <? ?y] => destruct (N.ltb_spec x y)
         | |- context [?x <=? ?y] => destruct (N.leb_spec x y)
         | |- context [?x =? ?y] => destruct (N.eqb_spec x y)
         end; cbn [andb]; try (f_equal; lia); try lia.
Qed.

Lemma b64_value_not_space (c n : N) :
  b64_value c = Some n -> is_ascii_whitespace c = false /\ (c =? 61) = false.
Proof.
  unfold b64_value, is_ascii_whitespace.
  repeat match goal with
         | |- context [?x <=? ?y] => destruct (N.leb_spec x y)
         | |- context [?x =? ?y] => destruct (N.eqb_spec x y)
         end; cbn [andb orb]; try discriminate; try lia; auto.
Qed.

Lemma b64_char_plain (n : N) :
  n < 64 -> is_ascii_whitespace (b64_char n) = false /\ (b64_char n =? 61) = false.
Proof. intros H. eapply b64_value_not_space, b64_value_char, H. Qed.

Local Ltac sextet := zify; Z.to_euclidean_division_equations; lia.

Lemma sextet_bounds (a b c : N) :
  a < 256 -> b < 256 -> c < 256 ->
  a / 4 < 64 /\ a mod 4 * 16 < 64 /\ a mod 4 * 16 + b / 16 < 64
  /\ b mod 16 * 4 < 64 /\ b mod 16 * 4 + c / 64 < 64 /\ c mod 64 < 64.
Proof. intros Ha Hb Hc. repeat split; sextet. Qed.

Lemma filter_b64_encode (s : jsstring) :
  bytes s ->
  List.filter (fun c => negb (is_ascii_whitespace c)) (b64_encode s) = b64_encode s.
Proof.
  induction s as [ | a | a b | a b c s IH ] using list_triple_ind; intros Hs.
  - reflexivity.
  - inversion Hs as [ | ? ? Ha _ ]; subst.
    destruct (sextet_bounds a 0 0) as (H1 & H2 & _); try lia.
    cbn [b64_encode List.filter].
    rewrite (proj1 (b64_char_plain _ H1)), (proj1 (b64_char_plain _ H2)). reflexivity.
  - inversion Hs as [ | ? ? Ha Hs' ]; subst. inversion Hs' as [ | ? ? Hb _ ]; subst.
    destruct (sextet_bounds a b 0) as (H1 & _ & H2 & H3 & _); try lia.
    cbn [b64_encode List.filter].
    rewrite (proj1 (b64_char_plain _ H1)), (proj1 (b64_char_plain _ H2)),
      (proj1 (b64_char_plain _ H3)). reflexivity.
  - inversion Hs as [ | ? ? Ha Hs1 ]; subst. inversion Hs1 as [ | ? ? Hb Hs2 ]; subst.
    inversion Hs2 as [ | ? ? Hc Hs3 ]; subst.
    destruct (sextet_bounds a b c) as (H1 & _ & H2 & _ & H3 & H4); try lia.
    cbn [b64_encode List.filter].
    rewrite (proj1 (b64_char_plain _ H1)), (proj1 (b64_char_plain _ H2)),
      (proj1 (b64_char_plain _ H3)), (proj1 (b64_char_plain _ H4)).
    cbn [negb]. now rewrite IH.
Qed.

Lemma length_b64_encode (s : jsstring) : (length (b64_encode s) mod 4 = 0)%nat.
Proof.
  induction s as [ | a | a b | a b c s IH ] using list_triple_ind; try reflexivity.
  cbn [b64_encode length].
  change (S (S (S (S (length (b64_encode s)))))) with (4 + length (b64_encode s))%nat.
  rewrite <- Nat.Div0.add_mod_idemp_l. exact IH.
Qed.

Lemma remove_padding_b64_encode (s : jsstring) :
  bytes s -> remove_padding (b64_encode s) = b64_unpadded s.
Proof.
  induction s as [ | a | a b | a b c s IH ] using list_triple_ind; intros Hs.
  - reflexivity.
  - reflexivity.
  - inversion Hs as [ | ? ? Ha Hs' ]; subst. inversion Hs' as [ | ? ? Hb _ ]; subst.
    destruct (sextet_bounds a b 0) as (_ & _ & _ & H3 & _); try lia.
    cbn [b64_encode remove_padding b64_unpadded].
    rewrite (proj2 (b64_char_plain _ H3)). reflexivity.
  - inversion Hs as [ | ? ? Ha Hs1 ]; subst. inversion Hs1 as [ | ? ? Hb Hs2 ]; subst.
    inversion Hs2 as [ | ? ? Hc Hs3 ]; subst.
    destruct (sextet_bounds a b c) as (_ & _ & _ & _ & H3 & H4); try lia.
    specialize (IH Hs3).
    cbn [b64_encode b64_unpadded]. rewrite <- IH.
    destruct (b64_encode s) as [ | e1 [ | e2 [ | e3 r ] ] ] eqn:E.
    + cbn [remove_padding andb].
      rewrite (proj2 (b64_char_plain _ H3)), (proj2 (b64_char_plain _ H4)). reflexivity.
    + pose proof (length_b64_encode s) as L. rewrite E in L. discriminate.
    + pose proof (length_b64_encode s) as L. rewrite E in L. discriminate.
    + reflexivity.
Qed.

Lemma length_b64_unpadded (s : jsstring) :
  (length (b64_unpadded s) mod 4 =? 1)%nat = false.
Proof.
  induction s as [ | a | a b | a b c s IH ] using list_triple_ind; try reflexivity.
  cbn [b64_unpadded length].
  change (S (S (S (S (length (b64_unpadded s)))))) with (4 + length (b64_unpadded s))%nat.
  rewrite <- Nat.Div0.add_mod_idemp_l. exact IH.
Qed.

Lemma b64_decode_unpadded (s : jsstring) :
  bytes s ->
  exists values, b64_values (b64_unpadded s) = Some values /\ b64_bytes values = s.
Proof.
  induction s as [ | a | a b | a b c s IH ] using list_triple_ind; intros Hs.
  - exists []. split; reflexivity.
  - inversion Hs as [ | ? ? Ha _ ]; subst.
    destruct (sextet_bounds a 0 0) as (H1 & H2 & _); try lia.
    eexists. cbn [b64_unpadded b64_values].
    rewrite !b64_value_char by assumption. split; [reflexivity | ].
    cbn [b64_bytes]. f_equal. sextet.
  - inversion Hs as [ | ? ? Ha Hs' ]; subst. inversion Hs' as [ | ? ? Hb _ ]; subst.
    destruct (sextet_bounds a b 0) as (H1 & _ & H2 & H3 & _); try lia.
    eexists. cbn [b64_unpadded b64_values].
    rewrite !b64_value_char by assumption. split; [reflexivity | ].
    cbn [b64_bytes]. f_equal; [sextet | f_equal; sextet].
  - inversion Hs as [ | ? ? Ha Hs1 ]; subst. inversion Hs1 as [ | ? ? Hb Hs2 ]; subst.
    inversion Hs2 as [ | ? ? Hc Hs3 ]; subst.
    destruct (sextet_bounds a b c) as (H1 & _ & H2 & _ & H3 & H4); try lia.
    destruct (IH Hs3) as (values & Ev & Eb).
    eexists. cbn [b64_unpadded b64_values].
    rewrite !b64_value_char by assumption. rewrite Ev. split; [reflexivity | ].
    cbn [b64_bytes]. rewrite Eb.
    f_equal; [sextet | f_equal; [sextet | f_equal; sextet]].
Qed.

(** Decoding the base64 text of a byte string gives the byte string. *)
Lemma atob_b64_encode (s : jsstring) : bytes s -> atob (b64_encode s) = Some s.
Proof.
  intros Hs. unfold atob.
  rewrite filter_b64_encode by assumption.
  rewrite length_b64_encode. cbn [Nat.eqb].
  rewrite remove_padding_b64_encode by assumption.
  rewrite length_b64_unpadded.
  destruct (b64_decode_unpadded s Hs) as (values & -> & ->). reflexivity.
Qed.

End Base64_facts.

(** ** Response cache *)

Local Open Scope js_scope.

Lemma localStorage_setItem_working (key : jsstring) (v : jsval) (w : World) :
  working (localStorage w) ->
  localStorage_setItem key v w = Ret tt (stored key (ToString v) w).
Proof.
  intros [Hd Hf]. unfold localStorage_setItem, Storage_setItem.
  replace (denied (localStorage w) || full (localStorage w)) with false
    by (rewrite Hd, Hf; reflexivity).
  reflexivity.
Qed.

Lemma localStorage_getItem_stored (key text : jsstring) (w : World) :
  denied (localStorage w) = false ->
  localStorage_getItem key (stored key text w) = Ret (VStr text) (stored key text w).
Proof.
  intros Hd. unfold localStorage_getItem, Storage_getItem, stored.
  cbn [localStorage set_localStorage denied items].
  rewrite lookup_insert_eq.
  replace (denied (localStorage w)) with false at 1. reflexivity.
Qed.

Lemma SerializeJSON_truthy (v : jsval) : truthy (VStr (SerializeJSON v)) = true.
Proof.
  destruct (SerializeJSON_head v) as (c & r & E & _). simpl. now rewrite E.
Qed.

Lemma JSON_parse_SerializeJSON (v : jsval) :
  json_value v = true -> JSON_parse_ (VStr (SerializeJSON v)) = Val v.
Proof.
  intros H. unfold JSON_parse_. cbn [ToString].
  now rewrite JSON_parse_stringify.
Qed.

Lemma cache_entry_json (now : Z) (data ttl : jsval) :
  safe now -> json_value data = true -> json_value ttl = true ->
  json_value (cache_entry now data ttl) = true.
Proof.
  intros Hn Hd Ht. unfold cache_entry. rewrite json_value_obj.
  cbn [members_ok]. rewrite Hd, Ht.
  assert (json_value (VNum now) = true) as ->.
  { cbn [json_value]. apply N.leb_le. unfold safe in Hn. lia. }
  reflexivity.
Qed.

(** Writing an entry and reading it back: the age is compared with the stored
    [ttl], or with [DEFAULT_TTL] when the stored [ttl] is falsy; a fresh
    entry is returned, an expired one is removed. *)
Lemma getCached_setCache (w : World) (key : jsstring) (data ttl : jsval)
    (t0 t1 : Z) (limit : number) :
  working (localStorage w) ->
  json_value data = true -> json_value ttl = true ->
  safe t0 -> safe (t1 - t0) ->
  ToNumber (if truthy ttl then ttl else VNum DEFAULT_TTL) = Val limit ->
  let w1 := stored (CACHE_KEY_PREFIX ++ key) (SerializeJSON (cache_entry t0 data ttl)) w in
  setCache t0 key data ttl w = Ret tt w1
  /\ getCached t1 key w1
     = if js_lt (Num (t1 - t0)) limit then Ret data w1
       else Ret VNull (removed (CACHE_KEY_PREFIX ++ key) w1).
Proof.
  intros Hw Hd Ht H0 H1 Hlim w1.
  assert (Httl : match ttl with VUndef => VNum DEFAULT_TTL | _ => ttl end = ttl).
  { destruct ttl; try reflexivity. discriminate. }
  split.
  - unfold setCache, try_catch. rewrite Httl.
    rewrite localStorage_setItem_working by assumption. reflexivity.
  - unfold getCached, try_catch, bind. subst w1.
    rewrite localStorage_getItem_stored by apply Hw.
    rewrite SerializeJSON_truthy. cbn [negb].
    rewrite JSON_parse_SerializeJSON by (apply cache_entry_json; assumption).
    cbn [lift].
    change (get_prop (cache_entry t0 data ttl) (js "timestamp")) with (Val (VNum t0)).
    change (get_prop (cache_entry t0 data ttl) (js "ttl")) with (Val ttl).
    change (get_prop (cache_entry t0 data ttl) (js "data")) with (Val data).
    cbn [lift ToNumber js_sub].
    unfold safe in H1. apply Z.leb_le in H1. rewrite H1. cbn [lift].
    rewrite Hlim. cbn [lift].
    destruct (js_lt (Num (t1 - t0)) limit); [reflexivity | ].
    unfold localStorage_removeItem, Storage_removeItem.
    destruct Hw as [Hden _]. cbn [localStorage stored set_localStorage denied].
    replace (denied (localStorage w)) with false at 1. reflexivity.
Qed.

Lemma getCached_never_throws (now : Z) (key : jsstring) (w w' : World) :
  getCached now key w <> Throw w'.
Proof.
  unfold getCached, try_catch.
  match goal with |- context [match ?b with _ => _ end] => destruct b end;
    discriminate.
Qed.

Lemma getCached_denied (now : Z) (key : jsstring) (w : World) :
  denied (localStorage w) = true -> getCached now key w = Ret VNull w.
Proof.
  intros H. unfold getCached, try_catch, bind, localStorage_getItem, Storage_getItem.
  rewrite H. reflexivity.
Qed.

Lemma getCached_malformed (now : Z) (key text : jsstring) (w : World) :
  denied (localStorage w) = false ->
  items (localStorage w) !! (CACHE_KEY_PREFIX ++ key) = Some text ->
  JSON_parse text = PSyntaxError ->
  getCached now key w = Ret VNull w.
Proof.
  intros Hd Hi Hp.
  unfold getCached, try_catch, bind, localStorage_getItem, Storage_getItem.
  rewrite Hd, Hi. destruct (truthy (VStr text)); [ | reflexivity].
  cbn [negb]. unfold JSON_parse_. cbn [ToString]. rewrite Hp. reflexivity.
Qed.

(** A stored text that parses to something else than an object ([null], a
    number, a string, an array) is no entry either. *)
Lemma getCached_not_entry (now : Z) (key text : jsstring) (entry : jsval) (w : World) :
  denied (localStorage w) = false ->
  items (localStorage w) !! (CACHE_KEY_PREFIX ++ key) = Some text ->
  JSON_parse text = POk entry [] ->
  match entry with VObj _ => False | _ => True end ->
  exists w', getCached now key w = Ret VNull w'.
Proof.
  intros Hd Hi Hp He.
  unfold getCached, try_catch, bind, localStorage_getItem, Storage_getItem.
  rewrite Hd, Hi. destruct (truthy (VStr text)); [ | eexists; reflexivity].
  cbn [negb]. unfold JSON_parse_. cbn [ToString]. rewrite Hp. cbn [lift].
  destruct entry; try contradiction; cbn [get_prop lift ToNumber js_sub truthy js_lt];
    try (eexists; reflexivity);
    unfold localStorage_removeItem, Storage_removeItem; rewrite Hd;
    eexists; reflexivity.
Qed.



(** C10. An entry stored with a falsy [ttl] (as by [setCache(key, data, 0)])
    is checked against [DEFAULT_TTL]: it is returned as fresh while its age
    is below 24 hours, even at age 0 where the rule [age >= ttl] would
    expire it, and removed afterwards. *)
Theorem getCached_falsy_ttl (w : World) (key : jsstring) (data ttl : jsval) (t0 t1 : Z) :
  working (localStorage w) -> json_value data = true ->
  json_value ttl = true -> truthy ttl = false ->
  safe t0 -> safe (t1 - t0) ->
  let k := CACHE_KEY_PREFIX ++ key in
  let w1 := stored k (SerializeJSON (cache_entry t0 data ttl)) w in
  DEFAULT_TTL = 86400000
  /\ setCache t0 key data ttl w = Ret tt w1
  /\ (t1 - t0 < DEFAULT_TTL -> getCached t1 key w1 = Ret data w1)
  /\ (DEFAULT_TTL <= t1 - t0 -> getCached t1 key w1 = Ret VNull (removed k w1))
  /\ getCached t0 key w1 = Ret data w1.
Proof.
  intros Hw Hd Hj Ht H0 H1 k w1.
  split; [reflexivity | ].
  destruct (getCached_setCache w key data ttl t0 t1 (Num DEFAULT_TTL) Hw Hd Hj H0 H1)
    as [Hset Hget].
  { rewrite Ht. reflexivity. }
  destruct (getCached_setCache w key data ttl t0 t0 (Num DEFAULT_TTL) Hw Hd Hj H0)
    as [_ Hget0].
  { unfold safe. rewrite Z.sub_diag. simpl. lia. }
  { rewrite Ht. reflexivity. }
  fold k w1 in Hget, Hget0.
  split; [exact Hset | ]. split; [ | split ].
  - intros Hlt. rewrite Hget. cbn [js_lt]. apply Z.ltb_lt in Hlt. now rewrite Hlt.
  - intros Hge. rewrite Hget. cbn [js_lt]. apply Z.ltb_ge in Hge. now rewrite Hge.
  - rewrite Hget0. rewrite Z.sub_diag. reflexivity.
Qed.

Lemma getCached_falsy_ttl_witness :
  getCached 5000 (js "standings-nhl")
    (stored (CACHE_KEY_PREFIX ++ js "standings-nhl")
       (SerializeJSON (cache_entry 1000 (VArr [VStr (js "20")]) (VNum 0))) first_visit)
  = Ret (VArr [VStr (js "20")])
      (stored (CACHE_KEY_PREFIX ++ js "standings-nhl")
         (SerializeJSON (cache_entry 1000 (VArr [VStr (js "20")]) (VNum 0))) first_visit).
Proof.
  refine (proj1 (proj2 (proj2
    (getCached_falsy_ttl first_visit (js "standings-nhl") (VArr [VStr (js "20")])
       (VNum 0) 1000 5000 _ _ _ _ _ _))) _).
  - split; reflexivity.
  - reflexivity.
  - reflexivity.
  - reflexivity.
  - unfold safe. simpl. lia.
  - unfold safe. simpl. lia.
  - reflexivity.
Defined.

(** ** Watch-party sharing *)

Lemma latin1_bytes (s : jsstring) : latin1 s = true -> bytes s.
Proof.
  unfold latin1, bytes. intros H. apply List.Forall_forall. intros c Hc.
  rewrite forallb_forall in H. apply N.ltb_lt. now apply H.
Qed.

Lemma json_value_stringify (x : jsval) :
  json_value x = true -> JSON_stringify_ x = VStr (SerializeJSON x).
Proof. destruct x; try reflexivity. discriminate. Qed.

Lemma decodeWatchParty_never_throws (encoded : jsval) (w w' : World) :
  decodeWatchParty encoded w <> Throw w'.
Proof.
  unfold decodeWatchParty, try_catch.
  match goal with |- context [match ?b with _ => _ end] => destruct b end;
    discriminate.
Qed.




(** ** Favourite teams *)

Lemma localStorage_getItem_items (key : jsstring) (w : World) :
  denied (localStorage w) = false ->
  localStorage_getItem key w
  = Ret (match items (localStorage w) !! key with
         | Some text => VStr text
         | None => VNull
         end) w.
Proof.
  intros H. unfold localStorage_getItem, Storage_getItem. now rewrite H.
Qed.

(** [getFavoriteTeams] reads only: it returns in the state it was called in,
    and it does not throw. *)
Lemma getFavoriteTeams_reads (w : World) :
  match getFavoriteTeams w with
  | Ret _ w' => w' = w
  | Throw _ => False
  | Beyond => True
  end.
Proof.
  unfold getFavoriteTeams, bind, try_catch, localStorage_getItem.
  destruct (Storage_getItem (localStorage w) FAVORITE_TEAMS_KEY) as [saved | ];
    [ | reflexivity].
  destruct (truthy saved); [ | reflexivity].
  unfold lift. destruct (JSON_parse_ saved) as [teams | | ]; try reflexivity; try exact I.
  destruct teams; try reflexivity.
  destruct (0 <? length elems)%nat; reflexivity.
Qed.

(** The list [addFavoriteTeam] works on, by what the store holds: the stored
    array when it is not empty, [DEFAULT_TEAMS] otherwise. *)
Lemma getFavoriteTeams_stored (w : World) (teams : list jsval) :
  denied (localStorage w) = false ->
  items (localStorage w) !! FAVORITE_TEAMS_KEY = Some (SerializeJSON (VArr teams)) ->
  forallb json_value teams = true ->
  getFavoriteTeams w
  = match teams with
    | [] => Ret (DEFAULT_TEAMS w, true) w
    | _ :: _ => Ret (teams, false) w
    end.
Proof.
  intros Hd Hi Hj. unfold getFavoriteTeams, bind, try_catch.
  rewrite localStorage_getItem_items, Hi by assumption.
  rewrite SerializeJSON_truthy, JSON_parse_SerializeJSON by exact Hj.
  cbn [lift]. destruct teams; reflexivity.
Qed.

Lemma getFavoriteTeams_absent (w : World) :
  denied (localStorage w) = false ->
  items (localStorage w) !! FAVORITE_TEAMS_KEY = None ->
  getFavoriteTeams w = Ret (DEFAULT_TEAMS w, true) w.
Proof.
  intros Hd Hi. unfold getFavoriteTeams, bind, try_catch.
  rewrite localStorage_getItem_items, Hi by assumption. reflexivity.
Qed.




(** ** Big-game settings: the migration as a function of the document *)

Lemma obj_get_set_eq (k : jsstring) (v : jsval) (ps : list (jsstring * jsval)) :
  obj_get k (obj_set k v ps) = v.
Proof.
  induction ps as [ | [k' v'] r IH ]; cbn [obj_set obj_get].
  - now rewrite bool_decide_eq_true_2.
  - destruct (decide (k = k')) as [-> | Hne].
    + rewrite bool_decide_eq_true_2 by reflexivity. cbn [obj_get].
      now rewrite bool_decide_eq_true_2.
    + rewrite bool_decide_eq_false_2 by assumption. cbn [obj_get].
      now rewrite bool_decide_eq_false_2.
Qed.

Lemma obj_get_set_ne (k k' : jsstring) (v : jsval) (ps : list (jsstring * jsval)) :
  k <> k' -> obj_get k (obj_set k' v ps) = obj_get k ps.
Proof.
  intros Hne. induction ps as [ | [k2 v2] r IH ]; cbn [obj_set obj_get].
  - now rewrite bool_decide_eq_false_2.
  - destruct (decide (k' = k2)) as [-> | Hne2].
    + rewrite bool_decide_eq_true_2 by reflexivity. cbn [obj_get].
      now rewrite !bool_decide_eq_false_2.
    + rewrite (bool_decide_eq_false_2 (k' = k2)) by assumption. cbn [obj_get].
      now rewrite IH.
Qed.

Lemma obj_has_set (k k' : jsstring) (v : jsval) (ps : list (jsstring * jsval)) :
  obj_has k (obj_set k' v ps) = obj_has k ps || bool_decide (k = k').
Proof.
  unfold obj_has. induction ps as [ | [k2 v2] r IH ]; cbn [obj_set existsb fst].
  - now rewrite orb_false_r.
  - destruct (decide (k' = k2)) as [-> | Hne2].
    + rewrite bool_decide_eq_true_2 by reflexivity. cbn [existsb fst].
      destruct (bool_decide (k = k2)); [reflexivity | now rewrite orb_false_r].
    + rewrite (bool_decide_eq_false_2 (k' = k2)) by assumption. cbn [existsb fst].
      rewrite IH. now rewrite orb_assoc.
Qed.

Lemma truthy_obj_has (k : jsstring) (ps : list (jsstring * jsval)) :
  truthy (obj_get k ps) = true -> obj_has k ps = true.
Proof.
  unfold obj_has. induction ps as [ | [k' v'] r IH ]; cbn [obj_get existsb fst].
  - discriminate.
  - destruct (bool_decide (k = k')); [reflexivity | exact IH].
Qed.

Lemma members_ok_obj_set (k : jsstring) (v : jsval) (ps : list (jsstring * jsval)) :
  members_ok ps = true -> is_integer_key k = false -> json_value v = true ->
  members_ok (obj_set k v ps) = true.
Proof.
  intros Hps Hk Hv. induction ps as [ | [k' v'] r IH ]; cbn [obj_set members_ok].
  - rewrite Hk, Hv. reflexivity.
  - cbn [members_ok] in Hps. apply andb_true_iff in Hps as [Hps Hr].
    apply andb_true_iff in Hps as [Hps Hv']. apply andb_true_iff in Hps as [Hk' Hfresh].
    destruct (decide (k = k')) as [-> | Hne].
    + rewrite bool_decide_eq_true_2 by reflexivity. cbn [members_ok].
      now rewrite Hk', Hfresh, Hv, Hr.
    + rewrite bool_decide_eq_false_2 by assumption. cbn [members_ok].
      rewrite Hk', Hv', (IH Hr), obj_has_set.
      apply negb_true_iff in Hfresh. rewrite Hfresh.
      rewrite bool_decide_eq_false_2 by congruence. reflexivity.
Qed.

Lemma members_ok_obj_get (k : jsstring) (ps : list (jsstring * jsval)) :
  members_ok ps = true -> truthy (obj_get k ps) = true -> json_value (obj_get k ps) = true.
Proof.
  intros Hps. induction ps as [ | [k' v'] r IH ]; cbn [obj_get].
  - discriminate.
  - cbn [members_ok] in Hps. apply andb_true_iff in Hps as [Hps Hr].
    apply andb_true_iff in Hps as [_ Hv'].
    destruct (bool_decide (k = k')); [intros _; exact Hv' | now apply IH].
Qed.

Lemma settled_weaken (J : bool) (done done' : list jsstring) (doc : jsval) :
  (forall k, In k done' -> In k done) -> settled J done doc -> settled J done' doc.
Proof.
  intros Hsub (ps & pcs & E & Hpc & Hdone & Hj).
  exists ps, pcs. repeat split; try assumption.
  apply List.Forall_forall. intros k Hk.
  rewrite List.Forall_forall in Hdone. now apply Hdone, Hsub.
Qed.

Lemma competition_key_not_integer (k : jsstring) :
  In k COMPETITION_KEYS -> is_integer_key k = false.
Proof.
  intros H. cbn in H.
  repeat (destruct H as [<- | H]; [reflexivity | ]). contradiction.
Qed.

(** [parsed.perCompetition[k] = list] on a settled document. *)
Lemma settled_set (J : bool) (done : list jsstring) (doc : jsval) (k : jsstring)
    (l : list jsval) :
  settled J done doc -> is_integer_key k = false ->
  (J = true -> forallb json_value l = true) ->
  exists doc',
    set_prop2 doc perCompetition_key k (VArr l) = Val doc'
    /\ settled J (k :: done) doc'.
Proof.
  intros (ps & pcs & -> & Hpc & Hdone & Hj) Hk Hl.
  exists (VObj (obj_set perCompetition_key (VObj (obj_set k (VArr l) pcs)) ps)).
  split.
  - unfold set_prop2. cbn [get_prop ev_bind]. rewrite Hpc. reflexivity.
  - exists (obj_set perCompetition_key (VObj (obj_set k (VArr l) pcs)) ps),
      (obj_set k (VArr l) pcs).
    split; [reflexivity | ]. split; [apply obj_get_set_eq | ]. split.
    + constructor; [now rewrite obj_get_set_eq | ].
      apply List.Forall_forall. intros k' Hk'.
      rewrite List.Forall_forall in Hdone.
      destruct (decide (k' = k)) as [-> | Hne];
        [now rewrite obj_get_set_eq | rewrite obj_get_set_ne by assumption; auto].
    + intros HJ. specialize (Hj HJ). specialize (Hl HJ).
      rewrite json_value_obj in *.
      apply members_ok_obj_set; [assumption | reflexivity | ].
      rewrite json_value_obj. apply members_ok_obj_set; [ | assumption | exact Hl].
      pose proof (members_ok_obj_get perCompetition_key ps Hj) as Hpcj.
      rewrite Hpc in Hpcj. rewrite <- json_value_obj. now apply Hpcj.
Qed.

(** Progress of a loop: each key processed joins [done]. *)
Lemma for_of_progress {A S} (I : list A -> S -> Prop) (body : A -> S -> ev S)
    (l : list A) :
  (forall x done s s', In x l -> I done s -> body x s = Val s' -> I (x :: done) s') ->
  forall done s s',
    I done s -> for_of l body s = Val s' -> I (rev l ++ done) s'.
Proof.
  induction l as [ | x r IH ]; intros Hbody done s s' Hs Hrun.
  - cbn in Hrun. injection Hrun as <-. exact Hs.
  - cbn [for_of] in Hrun. destruct (body x s) as [s1 | | ] eqn:E; try discriminate.
    cbn [ev_bind] in Hrun. cbn [rev]. rewrite <- app_assoc. cbn [app].
    apply (IH (fun y d a b Hy => Hbody y d a b (or_intror Hy)) (x :: done) s1 s').
    + apply (Hbody x done s s1); [left; reflexivity | assumption | assumption].
    + exact Hrun.
Qed.

Lemma CL_CATEGORIES_json : forallb json_value CL_CATEGORIES = true.
Proof. reflexivity. Qed.

Lemma ALL_CATEGORIES_json : forallb json_value ALL_CATEGORIES = true.
Proof. reflexivity. Qed.

(** After the first loop every competition has a list. *)
Lemma ensure_competitions_settled (J : bool) (doc doc' : jsval) (needsSave : bool) :
  settled J [] doc ->
  ensure_competitions doc = Val (doc', needsSave) ->
  settled J COMPETITION_KEYS doc'.
Proof.
  intros Hdoc Hrun. unfold ensure_competitions in Hrun.
  apply (for_of_progress (fun done (st : jsval * bool) => settled J done (fst st)))
    with (done := []) in Hrun; [ | | exact Hdoc].
  - cbn [fst] in Hrun. eapply settled_weaken; [ | exact Hrun].
    intros k Hk. rewrite app_nil_r. now apply in_rev in Hk.
  - intros k done [parsed b] [parsed' b'] Hk Hst Hbody. cbn [fst] in *.
    pose proof Hst as (ps & pcs & -> & Hpc & Hdone & Hj).
    unfold perCompetition_key in Hpc.
    cbn [get_prop ev_bind] in Hbody. rewrite Hpc in Hbody.
    cbn [get_prop ev_bind] in Hbody.
    destruct (truthy (obj_get k pcs)) eqn:Ht; cbn [negb] in Hbody.
    + injection Hbody as <- <-. exists ps, pcs. repeat split; try assumption.
      constructor; assumption.
    + destruct (settled_set J done (VObj ps) k
                  (if bool_decide (k = js "champions-league")
                   then CL_CATEGORIES else ALL_CATEGORIES) Hst)
        as (doc1 & E1 & Hs1).
      * now apply competition_key_not_integer.
      * intros _. destruct (bool_decide (k = js "champions-league")); reflexivity.
      * unfold perCompetition_key in E1. rewrite E1 in Hbody. cbn [ev_bind] in Hbody.
        injection Hbody as <- <-. exact Hs1.
Qed.

Lemma forallb_json_app (l : list jsval) (x : jsval) :
  forallb json_value l = true -> json_value x = true ->
  forallb json_value (l ++ [x]) = true.
Proof. intros Hl Hx. rewrite forallb_app. cbn. now rewrite Hl, Hx. Qed.

(** The loop of the version 2 migration keeps a settled document settled. *)
Lemma add_playoff_preview_settled (J : bool) (done : list jsstring) (doc doc' : jsval) :
  settled J done doc -> add_playoff_preview doc = Val doc' -> settled J done doc'.
Proof.
  intros Hdoc Hrun. unfold add_playoff_preview in Hrun.
  apply (for_of_progress (fun _ (parsed : jsval) => settled J done parsed))
    with (done := []) in Hrun; [exact Hrun | | exact Hdoc].
  intros k _ parsed parsed' Hk Hst Hbody.
  pose proof Hst as (ps & pcs & -> & Hpc & Hdone & Hj).
  unfold perCompetition_key in Hpc.
  cbn [get_prop ev_bind] in Hbody. rewrite Hpc in Hbody.
  cbn [get_prop ev_bind] in Hbody.
  destruct (obj_get k pcs) as [ | | b | n | s | l | props ] eqn:Ecur;
    cbn [call_includes ev_bind] in Hbody; try discriminate.
  - destruct (String_includes s (ToString (VStr (js "playoff-preview"))));
      cbn [negb call_push ev_bind] in Hbody; [ | discriminate].
    injection Hbody as <-. exact Hst.
  - destruct (Array_includes l (VStr (js "playoff-preview")));
      cbn [negb call_push ev_bind] in Hbody.
    + injection Hbody as <-. exact Hst.
    + destruct (settled_set J done (VObj ps) k (l ++ [VStr (js "playoff-preview")]) Hst)
        as (doc1 & E1 & Hs1).
      * now apply competition_key_not_integer.
      * intros HJ. apply forallb_json_app; [ | reflexivity].
        specialize (Hj HJ). rewrite json_value_obj in Hj.
        pose proof (members_ok_obj_get (js "perCompetition") ps Hj) as Hpcj.
        rewrite Hpc in Hpcj. specialize (Hpcj eq_refl).
        rewrite json_value_obj in Hpcj.
        pose proof (members_ok_obj_get k pcs Hpcj) as Hl.
        rewrite Ecur in Hl. exact (Hl eq_refl).
      * unfold perCompetition_key in E1. rewrite E1 in Hbody.
        injection Hbody as <-.
        eapply settled_weaken; [ | exact Hs1]. intros k' Hk'. now right.
Qed.

(** When every competition has a list, the first loop changes nothing. *)
Lemma ensure_loop_noop (ps pcs : list (jsstring * jsval)) (keys : list jsstring)
    (needsSave : bool) (body : jsstring -> jsval * bool -> ev (jsval * bool)) :
  obj_get (js "perCompetition") ps = VObj pcs ->
  Forall (fun k => truthy (obj_get k pcs) = true) keys ->
  (forall k b, truthy (obj_get k pcs) = true -> body k (VObj ps, b) = Val (VObj ps, b)) ->
  for_of keys body (VObj ps, needsSave) = Val (VObj ps, needsSave).
Proof.
  intros Hpc Hdone Hbody. induction Hdone as [ | k r Hk _ IH ]; [reflexivity | ].
  cbn [for_of]. rewrite Hbody by assumption. exact IH.
Qed.

Lemma ensure_competitions_noop (J : bool) (doc : jsval) :
  settled J COMPETITION_KEYS doc -> ensure_competitions doc = Val (doc, false).
Proof.
  intros (ps & pcs & -> & Hpc & Hdone & _). unfold ensure_competitions.
  unfold perCompetition_key in Hpc.
  apply (ensure_loop_noop ps pcs); [exact Hpc | exact Hdone | ].
  intros k b Hk. cbn [get_prop ev_bind]. rewrite Hpc. cbn [get_prop ev_bind].
  rewrite Hk. reflexivity.
Qed.

(** What the migrations of a versioned document give: every competition has
    a list, and a document to be saved carries the current version. *)
Lemma upgrade_versioned_settled (J : bool) (doc doc' : jsval) (save : bool) :
  settled J [] doc ->
  upgrade_versioned doc = Val (doc', save) ->
  settled J COMPETITION_KEYS doc'
  /\ (save = true ->
      exists ps', doc' = VObj ps'
                  /\ obj_get schemaVersion_key ps' = VNum SETTINGS_SCHEMA_VERSION).
Proof.
  intros Hdoc Hrun. unfold upgrade_versioned in Hrun.
  destruct (get_prop doc (js "schemaVersion")) as [sv | | ]; try discriminate.
  cbn [ev_bind] in Hrun.
  destruct (ensure_competitions doc) as [[d1 b1] | | ] eqn:E1; try discriminate.
  cbn [ev_bind] in Hrun.
  pose proof (ensure_competitions_settled J doc d1 b1 Hdoc E1) as H1.
  destruct (ToNumber (if truthy sv then sv else VNum 1)) as [version | | ];
    try discriminate.
  cbn [ev_bind] in Hrun.
  match type of Hrun with
  | ev_bind ?e _ = _ => destruct e as [[d2 b2] | | ] eqn:E2; try discriminate
  end.
  cbn [ev_bind] in Hrun.
  assert (H2 : settled J COMPETITION_KEYS d2).
  { destruct (js_lt version (Num 2)).
    - destruct (add_playoff_preview d1) as [d | | ] eqn:Ea; try discriminate.
      cbn [ev_bind] in E2. injection E2 as <- <-.
      eapply add_playoff_preview_settled; eassumption.
    - injection E2 as <- <-. exact H1. }
  match type of Hrun with
  | ev_bind ?e _ = _ => destruct e as [[d3 b3] | | ] eqn:E3; try discriminate
  end.
  cbn [ev_bind] in Hrun.
  assert (H3 : settled J COMPETITION_KEYS d3).
  { destruct (js_lt version (Num 3)).
    - destruct (settled_set J COMPETITION_KEYS d2 (js "champions-league") CL_CATEGORIES H2)
        as (d & Ed & Hd); [reflexivity | intros _; reflexivity | ].
      unfold perCompetition_key in Ed. rewrite Ed in E3. cbn [ev_bind] in E3.
      injection E3 as <- <-.
      eapply settled_weaken; [ | exact Hd]. intros k Hk. now right.
    - injection E3 as <- <-. exact H2. }
  destruct (b3 || js_lt version (Num SETTINGS_SCHEMA_VERSION)).
  - destruct H3 as (ps & pcs & -> & Hpc & Hdone & Hj).
    cbn [set_prop ev_bind] in Hrun. injection Hrun as <- <-.
    split.
    + exists (obj_set (js "schemaVersion") (VNum SETTINGS_SCHEMA_VERSION) ps), pcs.
      split; [reflexivity | ]. split; [ | split; [exact Hdone | ] ].
      * rewrite obj_get_set_ne by discriminate. exact Hpc.
      * intros HJ. specialize (Hj HJ). rewrite json_value_obj in *.
        apply members_ok_obj_set; [assumption | reflexivity | reflexivity].
    + intros _. eexists. split; [reflexivity | apply obj_get_set_eq].
  - injection Hrun as <- <-. split; [exact H3 | discriminate].
Qed.

(** A settled document at the current version goes through the migrations
    unchanged and is not saved again. *)
Lemma upgrade_versioned_stable (J : bool) (ps : list (jsstring * jsval)) :
  settled J COMPETITION_KEYS (VObj ps) ->
  obj_get schemaVersion_key ps = VNum SETTINGS_SCHEMA_VERSION ->
  upgrade_versioned (VObj ps) = Val (VObj ps, false).
Proof.
  intros Hs Hv. unfold upgrade_versioned.
  cbn [get_prop ev_bind]. unfold schemaVersion_key in Hv. rewrite Hv.
  rewrite (ensure_competitions_noop J (VObj ps) Hs). reflexivity.
Qed.

Lemma legacy_settings_document (parsed doc : jsval) :
  legacy_settings parsed = Val doc ->
  exists enabledCategories copy,
    get_prop parsed (js "enabledCategories") = Val enabledCategories
    /\ spread enabledCategories = Val copy
    /\ doc = legacy_document copy.
Proof.
  unfold legacy_settings. intros H.
  cbn [COMPETITION_KEYS COMPETITIONS List.map fst for_of] in H.
  destruct (get_prop parsed (js "enabledCategories")) as [ec | | ] eqn:Eec;
    try discriminate.
  cbn [ev_bind] in H.
  destruct (spread ec) as [copy | | ] eqn:Ecopy; try discriminate.
  exists ec, copy. split; [reflexivity | split; [exact Ecopy | ] ].
  vm_compute in H. injection H as <-. reflexivity.
Qed.

Lemma legacy_document_settled (J : bool) (copy : list jsval) :
  (J = true -> forallb json_value copy = true) ->
  settled J COMPETITION_KEYS (legacy_document copy).
Proof.
  intros Hc. eexists _, _. split; [reflexivity | ]. split; [reflexivity | ]. split.
  - repeat constructor.
  - intros HJ. specialize (Hc HJ). unfold legacy_document.
    rewrite json_value_obj. cbn [members_ok].
    rewrite !json_value_obj. cbn [members_ok].
    change (json_value (VArr copy)) with (forallb json_value copy).
    rewrite Hc. reflexivity.
Qed.

Lemma code_points_json (s : jsstring) : forallb json_value (code_points s) = true.
Proof.
  induction s as [ | c | c d s IHs IHds ] using list_pair_ind.
  - reflexivity.
  - cbn. destruct (is_high_surrogate c); reflexivity.
  - cbn [code_points]. destruct (is_high_surrogate c); [ | exact IHds].
    destruct (is_low_surrogate d); [exact IHs | exact IHds].
Qed.

Lemma spread_json (v : jsval) (copy : list jsval) :
  json_value v = true -> spread v = Val copy -> forallb json_value copy = true.
Proof.
  destruct v; try discriminate; cbn [spread]; intros Hv H; injection H as <-.
  - apply code_points_json.
  - exact Hv.
Qed.

(** ** Big-game settings: loading *)

Lemma getWatchPartySession_reads (w : World) :
  match getWatchPartySession w with
  | Ret _ w' => w' = w
  | Throw _ => False
  | Beyond => True
  end.
Proof.
  unfold getWatchPartySession, try_catch, bind, sessionStorage_getItem.
  destruct (Storage_getItem (sessionStorage w) WATCH_PARTY_SESSION_KEY) as [saved | ];
    [ | reflexivity].
  destruct (truthy saved); [ | reflexivity].
  unfold lift. destruct (JSON_parse_ saved); first [reflexivity | exact I].
Qed.

Lemma getBigGameSettings_overlay (w : World) (bigGames : jsval) :
  overlay_active w bigGames ->
  getBigGameSettings w
  = Ret (VObj [ (js "schemaVersion", VNum SETTINGS_SCHEMA_VERSION);
                (js "perCompetition", bigGames) ]) w.
Proof.
  intros [Ho Ht]. unfold overlay, bind in Ho. unfold getBigGameSettings, bind.
  pose proof (getWatchPartySession_reads w) as Hr.
  destruct (getWatchPartySession w) as [wp w' | | ]; try discriminate.
  subst w'. destruct (truthy wp) eqn:Hwp.
  - unfold lift in *. destruct (get_prop wp (js "bigGames")) as [bg | | ];
      try discriminate.
    injection Ho as ->. rewrite Ht. reflexivity.
  - unfold ret in Ho. injection Ho as ->. congruence.
Qed.

Lemma getBigGameSettings_no_overlay (w : World) :
  no_overlay w -> getBigGameSettings w = cached_or_loaded w.
Proof.
  intros (bigGames & Ho & Ht). unfold overlay, bind in Ho.
  unfold getBigGameSettings, bind.
  pose proof (getWatchPartySession_reads w) as Hr.
  destruct (getWatchPartySession w) as [wp w' | | ]; try discriminate.
  subst w'. destruct (truthy wp) eqn:Hwp.
  - unfold lift in *. destruct (get_prop wp (js "bigGames")) as [bg | | ];
      try discriminate.
    injection Ho as ->. rewrite Ht. reflexivity.
  - unfold ret in *. reflexivity.
Qed.

Lemma no_session_no_overlay (w : World) :
  items (sessionStorage w) !! WATCH_PARTY_SESSION_KEY = None -> no_overlay w.
Proof.
  intros H. exists VNull. split; [ | reflexivity].
  unfold overlay, bind, getWatchPartySession, try_catch, bind,
    sessionStorage_getItem, Storage_getItem.
  destruct (denied (sessionStorage w)); [reflexivity | ]. rewrite H. reflexivity.
Qed.

Lemma default_copy :
  JSON_parse_ (JSON_stringify_ DEFAULT_BIG_GAME_SETTINGS) = Val DEFAULT_BIG_GAME_SETTINGS.
Proof. vm_compute. reflexivity. Qed.

Lemma saveBigGameSettings_run (settings : jsval) (w : World) :
  saveBigGameSettings settings w
  = if denied (localStorage w) || full (localStorage w) then
      Throw (set_bigGameSettingsCache settings w)
    else
      Ret tt (stored BIG_GAME_SETTINGS_KEY (ToString (JSON_stringify_ settings))
                (set_bigGameSettingsCache settings w)).
Proof.
  unfold saveBigGameSettings, bind, set_cache, localStorage_setItem, Storage_setItem.
  cbn [localStorage set_bigGameSettingsCache].
  destruct (denied (localStorage w) || full (localStorage w)); reflexivity.
Qed.

Lemma cached_or_loaded_finish (w : World) :
  _bigGameSettingsCache w = VNull ->
  cached_or_loaded w = finish (load_saved_settings w).
Proof.
  intros Hc. unfold cached_or_loaded. rewrite Hc. cbn [strict_eq negb].
  unfold bind, try_catch, finish.
  destruct (load_saved_settings w) as [[settings | ] w' | w' | ];
    first [reflexivity | unfold ret; rewrite default_copy; reflexivity].
Qed.

Lemma finish_migrate_versioned (parsed : jsval) (w : World) :
  finish ((let* parsed := migrate_versioned parsed in ret (Some parsed)) w)
  = outcome (let+ st := upgrade_versioned parsed in Val (Some st)) w.
Proof.
  unfold bind at 1. unfold migrate_versioned. unfold bind at 1. unfold lift.
  destruct (upgrade_versioned parsed) as [[doc save] | | ]; cbn [ev_bind outcome finish];
    try reflexivity.
  destruct save.
  - unfold bind at 1. rewrite saveBigGameSettings_run.
    destruct (denied (localStorage w) || full (localStorage w)); reflexivity.
  - reflexivity.
Qed.

Lemma finish_migrate_legacy (parsed : jsval) (w : World) :
  finish ((let* migratedSettings := migrate_legacy parsed in ret (Some migratedSettings)) w)
  = outcome (let+ migratedSettings := legacy_settings parsed in
             Val (Some (migratedSettings, true))) w.
Proof.
  unfold bind at 1. unfold migrate_legacy. unfold bind at 1. unfold lift.
  destruct (legacy_settings parsed) as [doc | | ]; cbn [ev_bind outcome finish];
    try reflexivity.
  unfold bind at 1. rewrite saveBigGameSettings_run.
  destruct (denied (localStorage w) || full (localStorage w)); reflexivity.
Qed.

Lemma finish_versioned_or_default (parsed : jsval) (w : World) :
  finish ((let* perCompetition := get_prop parsed (js "perCompetition") in
           if truthy perCompetition then
             let* parsed := migrate_versioned parsed in
             ret (Some parsed)
           else ret None) w)
  = outcome (let+ perCompetition := get_prop parsed (js "perCompetition") in
             if truthy perCompetition then
               let+ st := upgrade_versioned parsed in
               Val (Some st)
             else Val None) w.
Proof.
  unfold bind at 1. unfold lift at 1.
  destruct (get_prop parsed (js "perCompetition")) as [pc | | ]; cbn [ev_bind];
    try reflexivity.
  destruct (truthy pc); [apply finish_migrate_versioned | reflexivity].
Qed.

(** With an empty read cache, [getBigGameSettings] is determined by the plan
    of the stored text. *)
Lemma cached_or_loaded_plan (w : World) :
  _bigGameSettingsCache w = VNull ->
  cached_or_loaded w = outcome (stored_plan w) w.
Proof.
  intros Hc. rewrite cached_or_loaded_finish by assumption.
  unfold load_saved_settings, stored_plan.
  unfold bind at 1. unfold localStorage_getItem.
  destruct (Storage_getItem (localStorage w) BIG_GAME_SETTINGS_KEY) as [saved | ];
    [ | reflexivity].
  destruct (truthy saved); [ | reflexivity].
  unfold bind at 1. unfold lift at 1.
  destruct (JSON_parse_ saved) as [parsed | | ]; cbn [ev_bind]; try reflexivity.
  unfold plan. unfold bind at 1. unfold lift at 1.
  destruct (get_prop parsed (js "enabledCategories")) as [ec | | ]; cbn [ev_bind];
    try reflexivity.
  destruct (truthy ec).
  - unfold bind at 1. unfold bind at 1. unfold lift at 1.
    destruct (get_prop parsed (js "perCompetition")) as [pc | | ] eqn:Epc;
      cbn [ev_bind]; try reflexivity.
    unfold ret at 1. destruct (truthy pc) eqn:Hpc; cbn [negb].
    + unfold bind at 1. unfold lift at 1. rewrite Hpc.
      apply finish_migrate_versioned.
    + apply finish_migrate_legacy.
  - unfold bind at 1. unfold ret at 1. cbn [ev_bind].
    apply finish_versioned_or_default.
Qed.

Lemma overlay_overlay_value (w : World) :
  overlay w = lift (overlay_value (sessionStorage w)) w.
Proof.
  unfold overlay, overlay_value, bind, getWatchPartySession, try_catch, bind,
    sessionStorage_getItem.
  destruct (Storage_getItem (sessionStorage w) WATCH_PARTY_SESSION_KEY) as [saved | ];
    [ | reflexivity].
  destruct (truthy saved); [ | reflexivity].
  unfold lift at 1. destruct (JSON_parse_ saved) as [v | | ]; cbn [ev_bind];
    try reflexivity.
  - destruct (truthy v); reflexivity.
Qed.

Lemma no_overlay_session (w w' : World) :
  sessionStorage w' = sessionStorage w -> no_overlay w -> no_overlay w'.
Proof.
  intros Hs (bg & Ho & Ht). exists bg. split; [ | exact Ht].
  rewrite overlay_overlay_value in *. rewrite Hs. unfold lift in *.
  destruct (overlay_value (sessionStorage w)); try discriminate.
  injection Ho as ->. reflexivity.
Qed.

Lemma overlay_active_session (w : World) (bigGames : jsval) :
  overlay_active w bigGames ->
  exists watchParty, getWatchPartySession w = Ret watchParty w /\ truthy watchParty = true.
Proof.
  intros [Ho Ht]. unfold overlay, bind in Ho.
  pose proof (getWatchPartySession_reads w) as Hr.
  destruct (getWatchPartySession w) as [wp w' | | ]; try discriminate.
  subst w'. exists wp. split; [reflexivity | ].
  destruct (truthy wp) eqn:Hwp; [reflexivity | ].
  unfold ret in Ho. injection Ho as ->. congruence.
Qed.

Lemma settled_has_competitions (J : bool) (doc : jsval) :
  settled J COMPETITION_KEYS doc -> has_competitions doc = true.
Proof.
  intros (ps & pcs & -> & Hpc & Hdone & _). unfold has_competitions. rewrite Hpc.
  apply forallb_forall. intros k Hk. rewrite List.Forall_forall in Hdone.
  apply truthy_obj_has. now apply Hdone.
Qed.

Lemma settled_parsed (J : bool) (parsed pc : jsval) :
  get_prop parsed (js "perCompetition") = Val pc -> truthy pc = true ->
  perCompetition_object parsed = true ->
  (J = true -> json_value parsed = true) ->
  settled J [] parsed.
Proof.
  intros Hget Ht Hobj Hj. destruct parsed; cbn [get_prop] in Hget;
    try discriminate; try (injection Hget as <-; discriminate).
  injection Hget as <-. unfold perCompetition_object in Hobj.
  unfold perCompetition_key in Hobj. cbn zeta in Hobj. rewrite Ht in Hobj.
  cbn [negb orb] in Hobj.
  destruct (obj_get (js "perCompetition") props) as [ | | | | | | pcs ] eqn:E;
    try discriminate.
  exists props, pcs. split; [reflexivity | ]. split; [exact E | ].
  split; [constructor | exact Hj].
Qed.

(** Every document the plan returns has all the competitions. *)
Lemma plan_has_competitions (parsed doc : jsval) (save : bool) :
  perCompetition_object parsed = true ->
  plan parsed = Val (Some (doc, save)) ->
  has_competitions doc = true.
Proof.
  intros Hobj Hplan. unfold plan in Hplan.
  destruct (get_prop parsed (js "enabledCategories")) as [ec | | ]; try discriminate.
  cbn [ev_bind] in Hplan.
  assert (Hversioned :
    (let+ perCompetition := get_prop parsed (js "perCompetition") in
     if truthy perCompetition then
       let+ st := upgrade_versioned parsed in Val (Some st)
     else Val None) = Val (Some (doc, save)) -> has_competitions doc = true).
  { intros H. destruct (get_prop parsed (js "perCompetition")) as [pc | | ] eqn:Epc;
      try discriminate.
    cbn [ev_bind] in H. destruct (truthy pc) eqn:Hpc; try discriminate.
    destruct (upgrade_versioned parsed) as [[d s] | | ] eqn:Eup; try discriminate.
    cbn [ev_bind] in H. injection H as -> ->.
    apply (settled_has_competitions false).
    refine (proj1 (upgrade_versioned_settled false parsed doc save _ Eup)).
    apply (settled_parsed false parsed pc); try assumption. discriminate. }
  destruct (truthy ec).
  - destruct (get_prop parsed (js "perCompetition")) as [pc | | ] eqn:Epc;
      try discriminate.
    cbn [ev_bind] in Hplan. destruct (truthy pc) eqn:Hpc; cbn [negb] in Hplan.
    + apply Hversioned. cbn [ev_bind]. rewrite Hpc. exact Hplan.
    + destruct (legacy_settings parsed) as [m | | ] eqn:El; try discriminate.
      cbn [ev_bind] in Hplan. injection Hplan as <- <-.
      destruct (legacy_settings_document parsed m El) as (e & copy & _ & _ & ->).
      reflexivity.
  - cbn [ev_bind] in Hplan. apply Hversioned. exact Hplan.
Qed.

(** ** Big-game settings: the scenario of a version 1 document *)

Lemma plan_version1 : plan version1_document = Val (Some (version1_migrated, true)).
Proof. vm_compute. reflexivity. Qed.

Lemma stored_plan_document (w : World) (doc : jsval) :
  denied (localStorage w) = false ->
  items (localStorage w) !! BIG_GAME_SETTINGS_KEY = Some (SerializeJSON doc) ->
  json_value doc = true ->
  stored_plan w = plan doc.
Proof.
  intros Hd Hi Hj. unfold stored_plan, Storage_getItem. rewrite Hd, Hi.
  rewrite SerializeJSON_truthy, JSON_parse_SerializeJSON by assumption.
  reflexivity.
Qed.

(** C3. When the store holds
    [{schemaVersion: 1, perCompetition: {'premier-league': ['rob-lowe']}}]
    (and no overlay is active, the read cache is empty and the store accepts
    writes), [getBigGameSettings] returns a document at
    [SETTINGS_SCHEMA_VERSION] whose premier-league list holds rob-lowe and
    playoff-preview, in which the champions league has exactly the four
    bespoke categories and every other competition the five generic ones,
    and it writes that document to the store, with one call of [setItem]. *)
Theorem getBigGameSettings_migrates_version1 (w : World) :
  no_overlay w -> _bigGameSettingsCache w = VNull -> working (localStorage w) ->
  items (localStorage w) !! BIG_GAME_SETTINGS_KEY = Some (SerializeJSON version1_document) ->
  exists (settings : jsval) (w' : World),
    getBigGameSettings w = Ret settings w'
    /\ get_prop settings (js "schemaVersion") = Val (VNum SETTINGS_SCHEMA_VERSION)
    /\ (exists l, competition_list settings (js "premier-league") = VArr l
                  /\ Array_includes l (VStr (js "rob-lowe")) = true
                  /\ Array_includes l (VStr (js "playoff-preview")) = true)
    /\ competition_list settings (js "champions-league") = VArr CL_CATEGORIES
    /\ length CL_CATEGORIES = 4%nat
    /\ Forall (fun competition =>
                 competition_list settings competition
                 = VArr (if bool_decide (competition = js "champions-league")
                         then CL_CATEGORIES else ALL_CATEGORIES))
         (List.filter (fun k => negb (bool_decide (k = js "premier-league")))
            COMPETITION_KEYS)
    /\ length ALL_CATEGORIES = 5%nat
    /\ items (localStorage w') !! BIG_GAME_SETTINGS_KEY = Some (SerializeJSON settings)
    /\ writes (localStorage w') = S (writes (localStorage w)).
Proof.
  intros Hno Hc Hw Hi.
  exists version1_migrated,
    (stored BIG_GAME_SETTINGS_KEY (SerializeJSON version1_migrated)
       (set_bigGameSettingsCache version1_migrated w)).
  split.
  - rewrite getBigGameSettings_no_overlay, cached_or_loaded_plan by assumption.
    rewrite (stored_plan_document w version1_document) by (try apply Hw; easy).
    rewrite plan_version1. unfold outcome. destruct Hw as [-> ->]. reflexivity.
  - split; [reflexivity | ].
    split; [eexists; split; [reflexivity | split; reflexivity] | ].
    split; [reflexivity | ]. split; [reflexivity | ].
    split; [vm_compute; repeat constructor | ].
    split; [reflexivity | ].
    split; [ | reflexivity].
    unfold stored. cbn [localStorage set_localStorage items].
    apply lookup_insert_eq.
Qed.

Lemma getBigGameSettings_migrates_version1_witness :
  exists (settings : jsval) (w' : World),
    getBigGameSettings version1_world = Ret settings w'
    /\ get_prop settings (js "schemaVersion") = Val (VNum SETTINGS_SCHEMA_VERSION)
    /\ (exists l, competition_list settings (js "premier-league") = VArr l
                  /\ Array_includes l (VStr (js "rob-lowe")) = true
                  /\ Array_includes l (VStr (js "playoff-preview")) = true)
    /\ competition_list settings (js "champions-league") = VArr CL_CATEGORIES
    /\ length CL_CATEGORIES = 4%nat
    /\ Forall (fun competition =>
                 competition_list settings competition
                 = VArr (if bool_decide (competition = js "champions-league")
                         then CL_CATEGORIES else ALL_CATEGORIES))
         (List.filter (fun k => negb (bool_decide (k = js "premier-league")))
            COMPETITION_KEYS)
    /\ length ALL_CATEGORIES = 5%nat
    /\ items (localStorage w') !! BIG_GAME_SETTINGS_KEY = Some (SerializeJSON settings)
    /\ writes (localStorage w') = S (writes (localStorage version1_world)).
Proof.
  apply (getBigGameSettings_migrates_version1 version1_world).
  - exists VNull. split; vm_compute; reflexivity.
  - reflexivity.
  - split; reflexivity.
  - vm_compute. reflexivity.
Defined.


(** ** Big-game settings: loading twice *)

Lemma for_of_not_out {A S} (I : S -> Prop) (body : A -> S -> ev S) (l : list A) :
  (forall x s, In x l -> I s ->
     body x s <> Out /\ (forall s', body x s = Val s' -> I s')) ->
  forall s, I s -> for_of l body s <> Out.
Proof.
  induction l as [ | x r IH ]; intros Hbody s Hs; [discriminate | ].
  cbn [for_of]. destruct (Hbody x s (or_introl eq_refl) Hs) as [Hno Hval].
  destruct (body x s) as [s1 | | ]; cbn [ev_bind]; [ | discriminate | contradiction].
  apply IH; [ | now apply Hval].
  intros y t Hy. apply Hbody. now right.
Qed.

Lemma ensure_competitions_not_out (J : bool) (doc : jsval) :
  settled J [] doc -> ensure_competitions doc <> Out.
Proof.
  intros Hdoc. unfold ensure_competitions.
  apply (for_of_not_out (fun st : jsval * bool => settled J [] (fst st)));
    [ | exact Hdoc].
  intros k [parsed b] Hk Hst. cbn [fst] in Hst.
  pose proof Hst as (ps & pcs & -> & Hpc & _ & _).
  unfold perCompetition_key in Hpc.
  cbn [get_prop ev_bind]. rewrite Hpc. cbn [get_prop ev_bind].
  destruct (truthy (obj_get k pcs)); cbn [negb].
  - split; [discriminate | ]. intros s' H. injection H as <-. exact Hst.
  - destruct (settled_set J [] (VObj ps) k
                (if bool_decide (k = js "champions-league")
                 then CL_CATEGORIES else ALL_CATEGORIES) Hst)
      as (doc1 & E1 & Hs1).
    + now apply competition_key_not_integer.
    + intros _. destruct (bool_decide (k = js "champions-league")); reflexivity.
    + unfold perCompetition_key in E1. rewrite E1. cbn [ev_bind].
      split; [discriminate | ]. intros s' H. injection H as <-. cbn [fst].
      eapply settled_weaken; [ | exact Hs1]. intros k' [].
Qed.

Lemma add_playoff_preview_not_out (doc : jsval) :
  settled false [] doc -> add_playoff_preview doc <> Out.
Proof.
  intros Hdoc. unfold add_playoff_preview.
  apply (for_of_not_out (fun parsed : jsval => settled false [] parsed));
    [ | exact Hdoc].
  intros k parsed Hk Hst.
  pose proof Hst as (ps & pcs & -> & Hpc & _ & _).
  unfold perCompetition_key in Hpc.
  cbn [get_prop ev_bind]. rewrite Hpc. cbn [get_prop ev_bind].
  destruct (obj_get k pcs) as [ | | b | n | s | l | props ];
    cbn [call_includes ev_bind]; try (split; discriminate).
  - destruct (String_includes s (ToString (VStr (js "playoff-preview"))));
      cbn [negb call_push ev_bind]; [ | split; discriminate].
    split; [discriminate | ]. intros s' H. injection H as <-. exact Hst.
  - destruct (Array_includes l (VStr (js "playoff-preview")));
      cbn [negb call_push ev_bind].
    + split; [discriminate | ]. intros s' H. injection H as <-. exact Hst.
    + destruct (settled_set false [] (VObj ps) k (l ++ [VStr (js "playoff-preview")]) Hst)
        as (doc1 & E1 & Hs1); [now apply competition_key_not_integer | discriminate | ].
      unfold perCompetition_key in E1. rewrite E1.
      split; [discriminate | ]. intros s' H. injection H as <-.
      eapply settled_weaken; [ | exact Hs1]. intros k' [].
Qed.

Lemma settled_drop (J : bool) (done : list jsstring) (doc : jsval) :
  settled J done doc -> settled false [] doc.
Proof.
  intros (ps & pcs & E & Hpc & _ & _). exists ps, pcs.
  repeat split; try assumption; [constructor | discriminate].
Qed.

Lemma upgrade_versioned_not_out (ps : list (jsstring * jsval)) :
  settled false [] (VObj ps) ->
  number_like (obj_get schemaVersion_key ps) = true ->
  upgrade_versioned (VObj ps) <> Out.
Proof.
  intros Hdoc Hnum. unfold upgrade_versioned. cbn [get_prop ev_bind].
  unfold schemaVersion_key in Hnum.
  pose proof (ensure_competitions_not_out false (VObj ps) Hdoc) as Hno1.
  destruct (ensure_competitions (VObj ps)) as [[d1 b1] | | ] eqn:E1;
    [ | discriminate | contradiction].
  cbn [ev_bind].
  pose proof (ensure_competitions_settled false (VObj ps) d1 b1 Hdoc E1) as H1.
  assert (Hv : exists version,
             ToNumber (if truthy (obj_get (js "schemaVersion") ps)
                       then obj_get (js "schemaVersion") ps else VNum 1)
             = Val version).
  { destruct (obj_get (js "schemaVersion") ps) as [ | | b | n | s | l | p ];
      try discriminate; cbn [truthy]; try (eexists; reflexivity).
    - destruct b; eexists; reflexivity.
    - destruct (negb (n =? 0)%Z); eexists; reflexivity.
    - destruct s; [eexists; reflexivity | discriminate]. }
  destruct Hv as [version ->]. cbn [ev_bind].
  assert (H2 : exists d2 b2,
             (if js_lt version (Num 2)
              then (let+ parsed := add_playoff_preview d1 in Val (parsed, true))
              else Val (d1, b1)) = Val (d2, b2) /\ settled false COMPETITION_KEYS d2
           \/ (if js_lt version (Num 2)
               then (let+ parsed := add_playoff_preview d1 in Val (parsed, true))
               else Val (d1, b1)) = Exc).
  { destruct (js_lt version (Num 2)).
    - pose proof (add_playoff_preview_not_out d1 (settled_drop _ _ _ H1)) as Hno2.
      destruct (add_playoff_preview d1) as [d | | ] eqn:Ea;
        [ | exists d1, b1; right; reflexivity | contradiction].
      exists d, true. left. split; [reflexivity | ].
      eapply add_playoff_preview_settled; eassumption.
    - exists d1, b1. left. split; [reflexivity | exact H1]. }
  destruct H2 as (d2 & b2 & [[-> H2] | ->]); [ | discriminate].
  cbn [ev_bind].
  destruct (js_lt version (Num 3)).
  - destruct (settled_set false COMPETITION_KEYS d2 (js "champions-league")
                CL_CATEGORIES H2) as (d & Ed & Hd); [reflexivity | discriminate | ].
    unfold perCompetition_key in Ed. rewrite Ed. cbn [ev_bind].
    destruct Hd as (ps3 & pcs3 & -> & _).
    destruct (true || js_lt version (Num SETTINGS_SCHEMA_VERSION)); discriminate.
  - cbn [ev_bind]. destruct H2 as (ps3 & pcs3 & -> & _).
    destruct (b2 || js_lt version (Num SETTINGS_SCHEMA_VERSION)); discriminate.
Qed.

Lemma legacy_settings_not_out (parsed : jsval) : legacy_settings parsed <> Out.
Proof.
  unfold legacy_settings.
  apply (for_of_not_out (fun doc : jsval => settled false [] doc)).
  - intros k doc Hk Hdoc.
    destruct (get_prop parsed (js "enabledCategories")) as [ec | | ] eqn:Eec;
      cbn [ev_bind]; [ | split; discriminate | ].
    + destruct (spread ec) as [copy | | ] eqn:Ecopy; cbn [ev_bind];
        [ | split; discriminate | destruct ec; discriminate ].
      destruct (settled_set false [] doc k copy Hdoc) as (doc1 & E1 & Hs1);
        [now apply competition_key_not_integer | discriminate | ].
      unfold perCompetition_key in E1. rewrite E1.
      split; [discriminate | ]. intros s' H. injection H as <-.
      eapply settled_weaken; [ | exact Hs1]. intros k' [].
    + destruct parsed; discriminate.
  - eexists _, _. split; [reflexivity | ]. split; [reflexivity | ].
    split; [constructor | discriminate].
Qed.

Lemma plan_not_out (parsed : jsval) :
  settings_format parsed = true -> plan parsed <> Out.
Proof.
  unfold settings_format. intros H. apply andb_true_iff in H as [H Hnum].
  apply andb_true_iff in H as [Hj Hobj]. unfold plan.
  destruct (get_prop parsed (js "enabledCategories")) as [ec | | ] eqn:Eec;
    cbn [ev_bind]; [ | discriminate | destruct parsed; discriminate].
  assert (Hversioned :
    (let+ perCompetition := get_prop parsed (js "perCompetition") in
     if truthy perCompetition then
       let+ st := upgrade_versioned parsed in Val (Some st)
     else Val None) <> Out).
  { destruct (get_prop parsed (js "perCompetition")) as [pc | | ] eqn:Epc;
      cbn [ev_bind]; [ | discriminate | destruct parsed; discriminate].
    destruct (truthy pc) eqn:Hpc; [ | discriminate].
    pose proof (settled_parsed false parsed pc Epc Hpc Hobj) as Hs.
    destruct parsed as [ | | | | | | ps ]; try discriminate.
    cbn [get_prop] in Epc. injection Epc as <-.
    unfold perCompetition_key in Hnum. rewrite Hpc in Hnum. cbn [negb orb] in Hnum.
    pose proof (upgrade_versioned_not_out ps (Hs ltac:(discriminate)) Hnum) as Hno.
    destruct (upgrade_versioned (VObj ps)); [discriminate | discriminate | contradiction]. }
  destruct (truthy ec).
  - destruct (get_prop parsed (js "perCompetition")) as [pc | | ] eqn:Epc;
      cbn [ev_bind]; [ | discriminate | destruct parsed; discriminate].
    destruct (truthy pc) eqn:Hpc; cbn [negb].
    + cbn [ev_bind] in Hversioned. rewrite Hpc in Hversioned. exact Hversioned.
    + pose proof (legacy_settings_not_out parsed) as Hno.
      destruct (legacy_settings parsed); [discriminate | discriminate | contradiction].
  - cbn [ev_bind]. exact Hversioned.
Qed.

(** A document saved by the plan is a JSON value at the current version in
    which every competition has a list. *)
Lemma plan_saved (parsed doc : jsval) :
  json_value parsed = true -> perCompetition_object parsed = true ->
  plan parsed = Val (Some (doc, true)) ->
  settled true COMPETITION_KEYS doc
  /\ exists ps, doc = VObj ps
                /\ obj_get schemaVersion_key ps = VNum SETTINGS_SCHEMA_VERSION.
Proof.
  intros Hj Hobj Hplan. unfold plan in Hplan.
  destruct (get_prop parsed (js "enabledCategories")) as [ec | | ] eqn:Eec;
    try discriminate.
  cbn [ev_bind] in Hplan.
  assert (Hversioned :
    (let+ perCompetition := get_prop parsed (js "perCompetition") in
     if truthy perCompetition then
       let+ st := upgrade_versioned parsed in Val (Some st)
     else Val None) = Val (Some (doc, true)) ->
    settled true COMPETITION_KEYS doc
    /\ exists ps, doc = VObj ps
                  /\ obj_get schemaVersion_key ps = VNum SETTINGS_SCHEMA_VERSION).
  { intros H. destruct (get_prop parsed (js "perCompetition")) as [pc | | ] eqn:Epc;
      try discriminate.
    cbn [ev_bind] in H. destruct (truthy pc) eqn:Hpc; try discriminate.
    destruct (upgrade_versioned parsed) as [[d s] | | ] eqn:Eup; try discriminate.
    cbn [ev_bind] in H. injection H as -> ->.
    destruct (upgrade_versioned_settled true parsed doc true) as [Hs Hv];
      [ | exact Eup | ].
    - apply (settled_parsed true parsed pc); try assumption. intros _. exact Hj.
    - split; [exact Hs | exact (Hv eq_refl)]. }
  destruct (truthy ec) eqn:Hec.
  - destruct (get_prop parsed (js "perCompetition")) as [pc | | ] eqn:Epc;
      try discriminate.
    cbn [ev_bind] in Hplan. destruct (truthy pc) eqn:Hpc; cbn [negb] in Hplan.
    + apply Hversioned. cbn [ev_bind]. rewrite Hpc. exact Hplan.
    + destruct (legacy_settings parsed) as [m | | ] eqn:El; try discriminate.
      cbn [ev_bind] in Hplan. injection Hplan as <-.
      destruct (legacy_settings_document parsed m El) as (e & copy & Ee & Ecopy & ->).
      split; [ | eexists; split; reflexivity].
      apply legacy_document_settled. intros _.
      apply (spread_json e); [ | exact Ecopy].
      rewrite Eec in Ee. injection Ee as <-.
      destruct parsed as [ | | | | | | ps ]; try discriminate;
        try (cbn [get_prop] in Eec; injection Eec as <-; discriminate).
      cbn [get_prop] in Eec. injection Eec as <-.
      rewrite json_value_obj in Hj. now apply members_ok_obj_get.
  - cbn [ev_bind] in Hplan. apply Hversioned. exact Hplan.
Qed.

(** Such a document plans to itself, without a save. *)
Lemma plan_stable (ps : list (jsstring * jsval)) :
  settled true COMPETITION_KEYS (VObj ps) ->
  obj_get schemaVersion_key ps = VNum SETTINGS_SCHEMA_VERSION ->
  plan (VObj ps) = Val (Some (VObj ps, false)).
Proof.
  intros Hs Hv. unfold plan. cbn [get_prop ev_bind].
  pose proof Hs as (ps' & pcs & E & Hpc & _). injection E as <-.
  unfold perCompetition_key in Hpc. rewrite Hpc. cbn [truthy negb].
  rewrite (upgrade_versioned_stable true ps Hs Hv).
  destruct (truthy (obj_get (js "enabledCategories") ps)); reflexivity.
Qed.

Lemma stored_plan_format (w : World) (document : option jsval) :
  stored_document w document ->
  stored_plan w = Exc \/ stored_plan w = Val None
  \/ exists doc, document = Some doc /\ settings_format doc = true
                 /\ denied (localStorage w) = false /\ stored_plan w = plan doc.
Proof.
  intros Hdoc. unfold stored_plan, Storage_getItem.
  destruct (denied (localStorage w)) eqn:Hd; [left; reflexivity | ].
  destruct document as [doc | ]; cbn [stored_document] in Hdoc.
  - destruct Hdoc as [Hi Hf]. rewrite Hi. right. right. exists doc.
    split; [reflexivity | ]. split; [exact Hf | ]. split; [reflexivity | ].
    unfold settings_format in Hf. apply andb_true_iff in Hf as [Hf _].
    apply andb_true_iff in Hf as [Hj _].
    rewrite SerializeJSON_truthy, JSON_parse_SerializeJSON by assumption.
    reflexivity.
  - rewrite Hdoc. right. left. reflexivity.
Qed.

Lemma invalidated (r : jsval) (w : World) :
  _bigGameSettingsCache w = VNull ->
  set_bigGameSettingsCache VNull (set_bigGameSettingsCache r w) = w.
Proof. destruct w. cbn. intros ->. reflexivity. Qed.

Lemma cached_returned (r : jsval) (w : World) :
  no_overlay w -> has_competitions r = true ->
  getBigGameSettings (set_bigGameSettingsCache r w) = Ret r (set_bigGameSettingsCache r w).
Proof.
  intros Hno Hr.
  rewrite getBigGameSettings_no_overlay
    by (apply (no_overlay_session w); [reflexivity | assumption]).
  unfold cached_or_loaded. cbn [_bigGameSettingsCache set_bigGameSettingsCache].
  destruct r; try discriminate. reflexivity.
Qed.

(** C4. Take a store that holds no settings document, or the JSON text of a
    document of the settings formats (legacy or versioned), an empty read
    cache and no overlay.  The first call of [getBigGameSettings] returns a
    document [r] in a state [w1]; a second call in [w1] returns [r] and
    leaves [w1] as it is; and a second call made after the read cache was
    invalidated returns [r] and ends in [w1] again, so the stored document
    is not changed and no further write is made. *)
Theorem getBigGameSettings_idempotent (w : World) (document : option jsval) :
  no_overlay w -> _bigGameSettingsCache w = VNull -> stored_document w document ->
  exists (r : jsval) (w1 : World),
    getBigGameSettings w = Ret r w1
    /\ getBigGameSettings w1 = Ret r w1
    /\ (let* _ := invalidateSettingsCache in getBigGameSettings) w1 = Ret r w1.
Proof.
  intros Hno Hc Hdoc.
  assert (Hfirst : getBigGameSettings w = outcome (stored_plan w) w).
  { rewrite getBigGameSettings_no_overlay by assumption.
    now apply cached_or_loaded_plan. }
  (* a call that did not write: the state is the initial one with the cache filled *)
  assert (Hquiet : forall r,
            getBigGameSettings w = Ret r (set_bigGameSettingsCache r w) ->
            has_competitions r = true ->
            exists (r : jsval) (w1 : World),
              getBigGameSettings w = Ret r w1
              /\ getBigGameSettings w1 = Ret r w1
              /\ (let* _ := invalidateSettingsCache in getBigGameSettings) w1 = Ret r w1).
  { intros r Hr Hhas. exists r, (set_bigGameSettingsCache r w).
    split; [exact Hr | ]. split; [now apply cached_returned | ].
    unfold bind, invalidateSettingsCache. rewrite invalidated by assumption.
    exact Hr. }
  assert (Hdefault : outcome (stored_plan w) w
                     = Ret DEFAULT_BIG_GAME_SETTINGS
                         (set_bigGameSettingsCache DEFAULT_BIG_GAME_SETTINGS w) ->
            exists (r : jsval) (w1 : World),
              getBigGameSettings w = Ret r w1
              /\ getBigGameSettings w1 = Ret r w1
              /\ (let* _ := invalidateSettingsCache in getBigGameSettings) w1 = Ret r w1).
  { intros H. apply (Hquiet DEFAULT_BIG_GAME_SETTINGS); [ | reflexivity].
    rewrite Hfirst. exact H. }
  destruct (stored_plan_format w document Hdoc)
    as [Hp | [Hp | (doc & -> & Hf & Hd & Hp)]].
  - apply Hdefault. rewrite Hp. reflexivity.
  - apply Hdefault. rewrite Hp. reflexivity.
  - pose proof (plan_not_out doc Hf) as Hno_out.
    pose proof Hf as Hf'. unfold settings_format in Hf'.
    apply andb_true_iff in Hf' as [Hf' _]. apply andb_true_iff in Hf' as [Hj Hobj].
    destruct (plan doc) as [[[r save] | ] | | ] eqn:Eplan; [ | | | contradiction].
    + destruct save.
      * (* the document is saved *)
        destruct (plan_saved doc r Hj Hobj Eplan) as [Hs (ps & -> & Hv)].
        destruct (full (localStorage w)) eqn:Hfull.
        { apply Hdefault. rewrite Hp. unfold outcome. rewrite Hd, Hfull. reflexivity. }
        pose proof (Hs) as (ps' & pcs' & _ & _ & _ & Hjr).
        specialize (Hjr eq_refl).
        set (w1 := stored BIG_GAME_SETTINGS_KEY (SerializeJSON (VObj ps))
                     (set_bigGameSettingsCache (VObj ps) w)).
        assert (Hno1 : no_overlay w1)
          by (apply (no_overlay_session w); [reflexivity | assumption]).
        exists (VObj ps), w1. split; [ | split ].
        -- rewrite Hfirst, Hp. unfold outcome. rewrite Hd, Hfull. reflexivity.
        -- rewrite getBigGameSettings_no_overlay by assumption. reflexivity.
        -- unfold bind, invalidateSettingsCache.
           rewrite getBigGameSettings_no_overlay
             by (apply (no_overlay_session w); [reflexivity | assumption]).
           rewrite cached_or_loaded_plan by reflexivity.
           rewrite (stored_plan_document _ (VObj ps));
             [ | exact Hd | apply lookup_insert_eq | exact Hjr ].
           rewrite (plan_stable ps Hs Hv). reflexivity.
      * apply (Hquiet r).
        -- rewrite Hfirst, Hp. reflexivity.
        -- apply (plan_has_competitions doc r false Hobj Eplan).
    + apply Hdefault. rewrite Hp. reflexivity.
    + apply Hdefault. rewrite Hp. reflexivity.
Qed.

Lemma getBigGameSettings_idempotent_witness :
  exists (r : jsval) (w1 : World),
    getBigGameSettings version1_world = Ret r w1
    /\ getBigGameSettings w1 = Ret r w1
    /\ (let* _ := invalidateSettingsCache in getBigGameSettings) w1 = Ret r w1.
Proof.
  apply (getBigGameSettings_idempotent version1_world (Some version1_document)).
  - exists VNull. split; vm_compute; reflexivity.
  - reflexivity.
  - split; vm_compute; reflexivity.
Defined.

(** ** Big-game settings: every competition is present *)


Lemma outcome_has_competitions (p : ev (option (jsval * bool))) (w : World) :
  (forall doc save, p = Val (Some (doc, save)) -> has_competitions doc = true) ->
  match outcome p w with
  | Ret settings w' => has_competitions settings = true /\ cache_ok w'
  | Throw _ => False
  | Beyond => True
  end.
Proof.
  intros Hp. unfold outcome.
  destruct p as [[[doc [ | ]] | ] | | ]; try exact I;
    try (split; [reflexivity | right; reflexivity]).
  - destruct (denied (localStorage w) || full (localStorage w)).
    + split; [reflexivity | right; reflexivity].
    + split; [ | right]; exact (Hp doc true eq_refl).
  - split; [ | right]; exact (Hp doc false eq_refl).
Qed.

(** On a store that holds nothing or a document of the settings formats, a
    load with an empty read cache returns a complete document. *)
Lemma getBigGameSettings_returns (w : World) (document : option jsval) :
  no_overlay w -> _bigGameSettingsCache w = VNull -> stored_document w document ->
  exists (settings : jsval) (w' : World),
    getBigGameSettings w = Ret settings w' /\ has_competitions settings = true.
Proof.
  intros Hno Hc Hdoc.
  rewrite getBigGameSettings_no_overlay, cached_or_loaded_plan by assumption.
  destruct (stored_plan_format w document Hdoc)
    as [Hp | [Hp | (doc & -> & Hf & Hd & Hp)]]; rewrite Hp.
  - eexists _, _. split; reflexivity.
  - eexists _, _. split; reflexivity.
  - pose proof (plan_not_out doc Hf) as Hno_out.
    unfold settings_format in Hf.
    apply andb_true_iff in Hf as [Hf _]. apply andb_true_iff in Hf as [_ Hobj].
    destruct (plan doc) as [[[r save] | ] | | ] eqn:Eplan; [ | | | contradiction].
    + pose proof (plan_has_competitions doc r save Hobj Eplan) as Hr.
      unfold outcome. destruct save.
      * destruct (denied (localStorage w) || full (localStorage w));
          eexists _, _; (split; [reflexivity | ]); [reflexivity | exact Hr].
      * eexists _, _. split; [reflexivity | exact Hr].
    + eexists _, _. split; reflexivity.
    + eexists _, _. split; reflexivity.
Qed.



(** ** Saving while a watch-party overlay is active *)

(** The claim C6 as stated fails: with a watch-party session present,
    [saveBigGameSettings] still replaces the document in the local store. *)
Lemma saveBigGameSettings_writes_in_overlay :
  overlay_active party_world (VObj [ (js "nba", VArr [VStr (js "rob-lowe")]) ])
  /\ items (localStorage party_world) !! BIG_GAME_SETTINGS_KEY
     = Some (SerializeJSON DEFAULT_BIG_GAME_SETTINGS)
  /\ match saveBigGameSettings version1_document party_world with
     | Ret _ w' =>
         items (localStorage w') !! BIG_GAME_SETTINGS_KEY
           = Some (SerializeJSON version1_document)
         /\ SerializeJSON version1_document <> SerializeJSON DEFAULT_BIG_GAME_SETTINGS
     | _ => False
     end.
Proof.
  split; [split; vm_compute; reflexivity | ].
  split; [vm_compute; reflexivity | ].
  vm_compute. split; [reflexivity | discriminate].
Qed.

Lemma init_overlay (w : World) (watchParty : jsval) :
  getWatchPartySession w = Ret watchParty w -> truthy watchParty = true ->
  init w = Ret false w.
Proof.
  intros Hs Ht. unfold init, bind, getActiveWatchParty, bind.
  rewrite Hs, Ht. unfold ret. rewrite Ht. reflexivity.
Qed.

(** C6, amended.  [saveBigGameSettings] has no overlay test: on a store that
    accepts writes it replaces the read cache and writes the JSON text of
    its argument under the settings key, also while an overlay is active.
    What keeps the overlay read-only is that, while it is active,
    [getBigGameSettings] returns the overlay's map and changes nothing, and
    that [init] of the settings page returns before it attaches the toggle
    handlers, so that a click on a category changes nothing. *)
Theorem overlay_read_only (w : World) (settings bigGames : jsval) :
  overlay_active w bigGames ->
  (working (localStorage w) ->
     saveBigGameSettings settings w
     = Ret tt (stored BIG_GAME_SETTINGS_KEY (ToString (JSON_stringify_ settings))
                 (set_bigGameSettingsCache settings w)))
  /\ getBigGameSettings w
     = Ret (VObj [ (js "schemaVersion", VNum SETTINGS_SCHEMA_VERSION);
                   (js "perCompetition", bigGames) ]) w
  /\ init w = Ret false w
  /\ (forall (competition category : jsstring) (checked : bool),
        (let* attached := init in click_category attached competition category checked) w
        = Ret tt w).
Proof.
  intros Ho.
  destruct (overlay_active_session w bigGames Ho) as (wp & Hs & Ht).
  pose proof (init_overlay w wp Hs Ht) as Hinit.
  split; [ | split; [ | split ] ].
  - intros [Hd Hf]. rewrite saveBigGameSettings_run, Hd, Hf. reflexivity.
  - now apply getBigGameSettings_overlay.
  - exact Hinit.
  - intros competition category checked. unfold bind. rewrite Hinit. reflexivity.
Qed.

Lemma overlay_read_only_witness :
  (let* attached := init in
   click_category attached (js "nba") (js "rob-lowe") false) party_world
  = Ret tt party_world.
Proof.
  refine (proj2 (proj2 (proj2
    (overlay_read_only party_world version1_document
       (VObj [ (js "nba", VArr [VStr (js "rob-lowe")]) ]) _))) _ _ _).
  split; vm_compute; reflexivity.
Defined.

(** * Further properties *)

(** ** Categories of teams and games *)

Lemma listed_id_includes (teamId : jsval) (ids : list jsval) :
  Array_includes (Array_map_String ids) (VStr (ToString teamId)) = listed_id teamId ids.
Proof.
  rewrite Array_includes_map_String. unfold listed_id, Classifier.normalize.
  apply bool_decide_ext. rewrite elem_of_list_to_set. reflexivity.
Qed.

Lemma categorizeTeam_listed (teamId : jsval) (topTierTeamIds favoriteTeamIds : list jsval) :
  categorizeTeam teamId topTierTeamIds favoriteTeamIds
  = match listed_id teamId favoriteTeamIds, listed_id teamId topTierTeamIds with
    | true, true => VStr TEAM_LEVELS.THINKIN_SUPEY
    | true, false => VStr TEAM_LEVELS.YA_NEVER_KNOW
    | false, true => VStr TEAM_LEVELS.TOP_TIER
    | false, false => VNull
    end.
Proof.
  unfold categorizeTeam. rewrite !listed_id_includes.
  destruct (listed_id teamId favoriteTeamIds), (listed_id teamId topTierTeamIds);
    reflexivity.
Qed.

Lemma categorizeGame_range (homeTeamCategory awayTeamCategory : jsval) :
  categorizeGame homeTeamCategory awayTeamCategory = VNull
  \/ In (categorizeGame homeTeamCategory awayTeamCategory) standard_categories.
Proof.
  unfold categorizeGame, standard_categories. cbv zeta.
  repeat match goal with
         | |- context [if ?b then _ else _] => destruct b
         end;
    simpl; tauto.
Qed.

(** X1. The category of a game between two teams, each categorised against
    the same top-tier and favourite lists: a game with a favourite on either
    side always gets a category, two favourites make it house-divided, and a
    game without a favourite is rob-lowe when both teams are top tier and has
    no category otherwise. *)
Theorem categorizeGame_of_teams (home away : jsval) (topTierTeamIds favoriteTeamIds : list jsval) :
  let game :=
    categorizeGame (categorizeTeam home topTierTeamIds favoriteTeamIds)
      (categorizeTeam away topTierTeamIds favoriteTeamIds) in
  (listed_id home favoriteTeamIds = true \/ listed_id away favoriteTeamIds = true ->
     In game standard_categories /\ game <> VStr GAME_CATEGORIES.ROB_LOWE)
  /\ (listed_id home favoriteTeamIds = true -> listed_id away favoriteTeamIds = true ->
      game = VStr GAME_CATEGORIES.HOUSE_DIVIDED)
  /\ (listed_id home favoriteTeamIds = false -> listed_id away favoriteTeamIds = false ->
      game = if listed_id home topTierTeamIds && listed_id away topTierTeamIds
             then VStr GAME_CATEGORIES.ROB_LOWE else VNull).
Proof.
  intros game. subst game. rewrite !categorizeTeam_listed.
  destruct (listed_id home favoriteTeamIds), (listed_id away favoriteTeamIds),
    (listed_id home topTierTeamIds), (listed_id away topTierTeamIds);
    (split; [ intros [H | H]; try discriminate H;
              (split; [ vm_compute; tauto | vm_compute; discriminate ])
            | split; intros H1 H2; try discriminate H1; try discriminate H2; reflexivity ]).
Qed.

Lemma categorizeGame_of_teams_witness :
  categorizeGame (categorizeTeam (VNum 368) [VStr (js "359")] [VStr (js "368")])
    (categorizeTeam (VStr (js "359")) [VStr (js "359")] [VStr (js "368")])
  <> VStr GAME_CATEGORIES.ROB_LOWE.
Proof.
  apply (categorizeGame_of_teams (VNum 368) (VStr (js "359")) [VStr (js "359")]
           [VStr (js "368")]).
  left. vm_compute. reflexivity.
Defined.

(** X2. Every category the categorisers assign has its display text in the
    tables: a game category has a display name (different from its key) and
    a description, a game without a category has the name [null] and an
    empty description, and the label of a team is one of the three tier
    labels, or "Normie" exactly when the team has no tier; the label
    "Favorite" is never shown. *)
Theorem categories_have_display_text (homeTeamCategory awayTeamCategory teamId : jsval)
    (topTierTeamIds favoriteTeamIds : list jsval) :
  let game := categorizeGame homeTeamCategory awayTeamCategory in
  let level := categorizeTeam teamId topTierTeamIds favoriteTeamIds in
  (game = VNull ->
     getGameCategoryDisplayName game = Val VNull
     /\ getGameCategoryDescription game = Val (VStr []))
  /\ (game <> VNull ->
      exists name description : jsstring,
        getGameCategoryDisplayName game = Val (VStr name)
        /\ name <> [] /\ VStr name <> game
        /\ getGameCategoryDescription game = Val (VStr description)
        /\ description <> [])
  /\ (exists label : jsstring,
        getCategoryLabel level = Val (VStr label)
        /\ In label [js "Thinkin' Supey"; js "Ya Never Know"; js "Top Tier"; js "Normie"]
        /\ (label = js "Normie" <-> level = VNull)).
Proof.
  intros game level. split; [ | split].
  - intros ->. split; reflexivity.
  - intros Hgame.
    destruct (categorizeGame_range homeTeamCategory awayTeamCategory) as [H | H];
      [contradiction | ].
    fold game in H. unfold standard_categories in H. simpl in H.
    destruct H as [<- | [<- | [<- | [<- | [<- | []]]]]];
      eexists; eexists; (split; [vm_compute; reflexivity | ]);
      (split; [discriminate | ]); (split; [discriminate | ]);
      (split; [vm_compute; reflexivity | discriminate]).
  - subst level. rewrite categorizeTeam_listed.
    destruct (listed_id teamId favoriteTeamIds), (listed_id teamId topTierTeamIds);
      eexists; (split; [vm_compute; reflexivity | ]);
      (split; [simpl; tauto | ]); (split; [try discriminate; reflexivity | ]);
      try discriminate; reflexivity.
Qed.

Lemma categories_have_display_text_witness :
  getGameCategoryDisplayName (categorizeGame VNull (VStr TEAM_LEVELS.TOP_TIER)) = Val VNull
  /\ getGameCategoryDescription (categorizeGame VNull (VStr TEAM_LEVELS.TOP_TIER))
     = Val (VStr []).
Proof.
  apply (categories_have_display_text VNull (VStr TEAM_LEVELS.TOP_TIER) VNull [] []).
  vm_compute. reflexivity.
Defined.

(** ** The team category map *)

Lemma categorizeTeam_printed (teamId : jsval) (topTierTeamIds favoriteTeamIds : list jsval) :
  categorizeTeam teamId topTierTeamIds favoriteTeamIds
  = categorizeTeam (VStr (ToString teamId)) topTierTeamIds favoriteTeamIds.
Proof. reflexivity. Qed.

Lemma buildTeamCategoryMap_loop (topTierTeamIds favoriteTeamIds allTeamIds : list jsval) :
  Forall (fun teamId => ToString teamId <> js "__proto__") allTeamIds ->
  forall categoryMap : gmap jsstring jsval,
  exists m : gmap jsstring jsval,
    for_of allTeamIds
      (fun teamId categoryMap =>
         if bool_decide (ToString teamId = js "__proto__") then Out
         else
           Val (<[ToString teamId := categorizeTeam teamId topTierTeamIds favoriteTeamIds]>
                  categoryMap))
      categoryMap = Val m
    /\ forall k : jsstring,
         m !! k = if bool_decide (k ∈ List.map ToString allTeamIds)
                  then Some (categorizeTeam (VStr k) topTierTeamIds favoriteTeamIds)
                  else categoryMap !! k.
Proof.
  induction 1 as [ | teamId ids Hid _ IH ]; intros categoryMap.
  - exists categoryMap. split; [reflexivity | ]. intros k.
    rewrite bool_decide_eq_false_2; [reflexivity | ]. simpl. apply not_elem_of_nil.
  - simpl. rewrite (bool_decide_eq_false_2 _ Hid). simpl.
    destruct (IH (<[ToString teamId := categorizeTeam teamId topTierTeamIds favoriteTeamIds]>
                    categoryMap)) as (m & Hm & Hlookup).
    exists m. split; [exact Hm | ]. intros k. rewrite Hlookup.
    destruct (decide (k ∈ List.map ToString ids)) as [Hin | Hnotin].
    + rewrite (bool_decide_eq_true_2 _ Hin).
      rewrite bool_decide_eq_true_2; [reflexivity | ]. apply elem_of_cons. right. exact Hin.
    + rewrite (bool_decide_eq_false_2 _ Hnotin).
      destruct (decide (k = ToString teamId)) as [-> | Hne].
      * rewrite lookup_insert_eq.
        rewrite bool_decide_eq_true_2; [ | apply elem_of_cons; left; reflexivity ].
        reflexivity.
      * rewrite lookup_insert_ne by congruence.
        rewrite bool_decide_eq_false_2; [reflexivity | ].
        intros Hin. apply elem_of_cons in Hin as [Heq | Hin]; [congruence | contradiction].
Qed.



(** ** The big-game toggles and the lookups *)

Lemma strict_eq_VStr (v : jsval) (s : jsstring) :
  strict_eq v (VStr s) = true <-> v = VStr s.
Proof.
  destruct v; simpl; try (split; [discriminate | discriminate]).
  unfold jsstring_eqb. rewrite bool_decide_eq_true. split; congruence.
Qed.

Lemma strict_eq_VNull (v : jsval) : strict_eq v VNull = true <-> v = VNull.
Proof. destruct v; simpl; split; congruence. Qed.

Lemma Array_includes_app (l : list jsval) (x y : jsval) :
  Array_includes (l ++ [x]) y = Array_includes l y || strict_eq x y.
Proof. unfold Array_includes. rewrite existsb_app. simpl. now rewrite orb_false_r. Qed.

Lemma Array_includes_toggled (l : list jsval) (category other : jsstring) (checked : bool) :
  Array_includes (toggled_list l category checked) (VStr other)
  = if bool_decide (other = category) then checked else Array_includes l (VStr other).
Proof.
  unfold toggled_list.
  destruct (decide (other = category)) as [-> | Hne].
  - rewrite bool_decide_eq_true_2 by reflexivity. destruct checked.
    + destruct (Array_includes l (VStr category)) eqn:E; [exact E | ].
      rewrite Array_includes_app, E. simpl. unfold jsstring_eqb.
      now rewrite bool_decide_eq_true_2.
    + unfold Array_includes. apply not_true_is_false. intros H.
      apply existsb_exists in H as (e & Hin & He).
      apply filter_In in Hin as [_ Hkeep]. rewrite He in Hkeep. discriminate.
  - rewrite bool_decide_eq_false_2 by assumption. destruct checked.
    + destruct (Array_includes l (VStr category)) eqn:E; [reflexivity | ].
      rewrite Array_includes_app. simpl. unfold jsstring_eqb.
      rewrite (bool_decide_eq_false_2 (category = other)) by congruence.
      apply orb_false_r.
    + unfold Array_includes.
      destruct (existsb (fun e => strict_eq e (VStr other)) l) eqn:E.
      * apply existsb_exists in E as (e & Hin & He). apply existsb_exists.
        exists e. split; [ | exact He]. apply filter_In. split; [exact Hin | ].
        apply strict_eq_VStr in He as ->. simpl. unfold jsstring_eqb.
        now rewrite bool_decide_eq_false_2.
      * apply not_true_is_false. intros H.
        apply existsb_exists in H as (e & Hin & He).
        apply filter_In in Hin as [Hin _].
        assert (existsb (fun e => strict_eq e (VStr other)) l = true)
          by (apply existsb_exists; eauto).
        congruence.
Qed.

Lemma obj_set_same (k : jsstring) (ps : list (jsstring * jsval)) :
  obj_has k ps = true -> obj_set k (obj_get k ps) ps = ps.
Proof.
  induction ps as [ | [k' v] r IH ]; [discriminate | ]. simpl.
  destruct (decide (k = k')) as [-> | Hne].
  - rewrite !bool_decide_eq_true_2 by reflexivity. reflexivity.
  - rewrite !(bool_decide_eq_false_2 (k = k')) by assumption. simpl.
    intros H. now rewrite IH.
Qed.

Lemma obj_set_set (k : jsstring) (v v' : jsval) (ps : list (jsstring * jsval)) :
  obj_set k v' (obj_set k v ps) = obj_set k v' ps.
Proof.
  induction ps as [ | [k' x] r IH ]; simpl.
  - now rewrite bool_decide_eq_true_2.
  - destruct (decide (k = k')) as [-> | Hne].
    + rewrite !bool_decide_eq_true_2 by reflexivity. simpl.
      now rewrite bool_decide_eq_true_2.
    + rewrite !(bool_decide_eq_false_2 (k = k')) by assumption. simpl.
      rewrite (bool_decide_eq_false_2 (k = k')) by assumption. now rewrite IH.
Qed.

Lemma set_prop2_list (ps pcs : list (jsstring * jsval)) (competition : jsstring)
    (l : list jsval) :
  obj_get perCompetition_key ps = VObj pcs ->
  set_prop2 (VObj ps) (js "perCompetition") competition (VArr l)
  = Val (with_list ps pcs competition l).
Proof.
  intros Hpc. unfold set_prop2. cbn [get_prop ev_bind].
  change (obj_get (js "perCompetition") ps) with (obj_get perCompetition_key ps).
  rewrite Hpc. reflexivity.
Qed.

Lemma with_list_perCompetition (ps pcs : list (jsstring * jsval)) (competition : jsstring)
    (l : list jsval) :
  get_prop (with_list ps pcs competition l) (js "perCompetition")
  = Val (VObj (obj_set competition (VArr l) pcs)).
Proof.
  unfold with_list. cbn [get_prop]. f_equal. apply obj_get_set_eq.
Qed.

Lemma with_list_twice (ps pcs : list (jsstring * jsval)) (competition : jsstring)
    (l l' : list jsval) :
  with_list (obj_set perCompetition_key (VObj (obj_set competition (VArr l) pcs)) ps)
    (obj_set competition (VArr l) pcs) competition l'
  = with_list ps pcs competition l'.
Proof. unfold with_list. now rewrite !obj_set_set. Qed.

(** What the [change] handler makes of the settings. *)
Lemma toggled_settings_run (ps pcs : list (jsstring * jsval))
    (competition category : jsstring) (checked : bool) (l : list jsval) :
  obj_get perCompetition_key ps = VObj pcs ->
  enabled_list (obj_get competition pcs) = Some l ->
  toggled_settings (VObj ps) competition category checked
  = Val (with_list ps pcs competition (toggled_list l category checked)).
Proof.
  intros Hpc Hl. unfold toggled_settings.
  cbn [get_prop ev_bind].
  change (obj_get (js "perCompetition") ps) with (obj_get perCompetition_key ps).
  rewrite Hpc. cbn [get_prop ev_bind].
  destruct (truthy (obj_get competition pcs)) eqn:Htruthy; cbn [negb].
  - assert (Hcur : obj_get competition pcs = VArr l).
    { unfold enabled_list in Hl. rewrite Htruthy in Hl.
      destruct (obj_get competition pcs); try discriminate Hl. congruence. }
    cbn [ev_bind get_prop].
    change (obj_get (js "perCompetition") ps) with (obj_get perCompetition_key ps).
    rewrite Hpc. cbn [get_prop ev_bind]. rewrite Hcur.
    unfold toggled_list. destruct checked.
    + cbn [call_includes ev_bind].
      destruct (Array_includes l (VStr category)) eqn:E; cbn [negb].
      * unfold with_list. rewrite <- Hcur.
        rewrite obj_set_same by (apply truthy_obj_has; exact Htruthy).
        rewrite <- Hpc. rewrite obj_set_same; [reflexivity | ].
        apply truthy_obj_has. now rewrite Hpc.
      * cbn [call_push ev_bind]. now apply set_prop2_list.
    + cbn [call_filter_not ev_bind]. now apply set_prop2_list.
  - assert (Hnil : l = []).
    { unfold enabled_list in Hl. rewrite Htruthy in Hl.
      destruct (obj_get competition pcs); try discriminate Htruthy; congruence. }
    subst l. rewrite (set_prop2_list ps pcs competition []) by assumption.
    cbn [ev_bind]. rewrite with_list_perCompetition. cbn [ev_bind get_prop].
    rewrite obj_get_set_eq.
    unfold toggled_list. destruct checked.
    + cbn [call_includes Array_includes existsb negb ev_bind call_push app].
      unfold with_list at 1.
      rewrite (set_prop2_list _ (obj_set competition (VArr []) pcs))
        by apply obj_get_set_eq.
      now rewrite with_list_twice.
    + cbn [call_filter_not List.filter ev_bind].
      unfold with_list at 1.
      rewrite (set_prop2_list _ (obj_set competition (VArr []) pcs))
        by apply obj_get_set_eq.
      now rewrite with_list_twice.
Qed.

Lemma getBigGameSettings_session (w w1 : World) (settings : jsval) :
  no_overlay w -> getBigGameSettings w = Ret settings w1 ->
  sessionStorage w1 = sessionStorage w /\ _bigGameSettingsCache w1 = settings
  /\ (denied (localStorage w1) = denied (localStorage w)
      /\ full (localStorage w1) = full (localStorage w)).
Proof.
  intros Hno. rewrite (getBigGameSettings_no_overlay w Hno). unfold cached_or_loaded.
  destruct (strict_eq (_bigGameSettingsCache w) VNull) eqn:Enull; cbn [negb].
  - apply strict_eq_VNull in Enull.
    pose proof (cached_or_loaded_plan w Enull) as Hplan.
    unfold cached_or_loaded in Hplan. rewrite Enull in Hplan. cbn [strict_eq negb] in Hplan.
    rewrite Hplan. unfold outcome.
    destruct (stored_plan w) as [ [ [doc [ | ]] | ] | | ];
      try destruct (denied (localStorage w) || full (localStorage w));
      intros H; inversion H; subst; cbn; auto.
  - intros H. inversion H; subst. auto.
Qed.

Lemma getBigGameSettings_cached (w : World) (ps : list (jsstring * jsval)) :
  no_overlay w -> _bigGameSettingsCache w = VObj ps ->
  getBigGameSettings w = Ret (VObj ps) w.
Proof.
  intros Hno Hcache. rewrite (getBigGameSettings_no_overlay w Hno).
  unfold cached_or_loaded. rewrite Hcache. reflexivity.
Qed.

(** The lookup in a state whose read cache holds the settings. *)
Lemma isCategoryEnabledForCompetition_cached (w : World) (ps pcs : list (jsstring * jsval))
    (category : jsval) (competition : jsstring) (l : list jsval) :
  no_overlay w -> _bigGameSettingsCache w = VObj ps ->
  obj_get perCompetition_key ps = VObj pcs ->
  obj_get competition pcs = VArr l ->
  isCategoryEnabledForCompetition category (VStr competition) w
  = Ret (Array_includes l category) w.
Proof.
  intros Hno Hcache Hpc Hl. unfold isCategoryEnabledForCompetition, bind.
  rewrite (getBigGameSettings_cached w ps Hno Hcache).
  cbn [lift get_prop].
  change (obj_get (js "perCompetition") ps) with (obj_get perCompetition_key ps).
  rewrite Hpc. cbn [ToString get_member].
  rewrite (truthy_obj_has competition pcs) by now rewrite Hl.
  rewrite Hl. reflexivity.
Qed.

Lemma onCategoryChange_run (w w1 : World) (ps pcs : list (jsstring * jsval))
    (competition category : jsstring) (checked : bool) (l : list jsval) :
  getBigGameSettings w = Ret (VObj ps) w1 ->
  obj_get perCompetition_key ps = VObj pcs ->
  enabled_list (obj_get competition pcs) = Some l ->
  working (localStorage w1) ->
  let settings := with_list ps pcs competition (toggled_list l category checked) in
  onCategoryChange competition category checked w
  = Ret tt (stored BIG_GAME_SETTINGS_KEY (ToString (JSON_stringify_ settings))
              (set_bigGameSettingsCache settings w1)).
Proof.
  intros Hget Hpc Hl [Hd Hf] settings. unfold onCategoryChange, bind.
  rewrite Hget. rewrite (toggled_settings_run ps pcs competition category checked l Hpc Hl).
  cbn [lift]. fold settings. rewrite saveBigGameSettings_run.
  cbn [localStorage set_bigGameSettingsCache]. now rewrite Hd, Hf.
Qed.

(** X4. Setting a big-game check box and asking for it.  From a state
    without overlay in which [getBigGameSettings] returns settings whose
    entry for the competition is an array (or is missing), on a store that
    accepts the write: after the [change] handler of the box of a
    competition and a category ran, [isCategoryEnabledForCompetition]
    answers, for that category and competition, the state of the box; for
    every other category of the competition and for every other competition
    it answers what the settings said before. *)
Theorem toggle_then_lookup (w w1 : World) (ps pcs : list (jsstring * jsval))
    (competition category : jsstring) (checked : bool) (l : list jsval) :
  no_overlay w -> getBigGameSettings w = Ret (VObj ps) w1 ->
  obj_get perCompetition_key ps = VObj pcs ->
  enabled_list (obj_get competition pcs) = Some l ->
  In competition COMPETITION_KEYS ->
  working (localStorage w1) ->
  exists w2 : World,
    onCategoryChange competition category checked w = Ret tt w2
    /\ isCategoryEnabledForCompetition (VStr category) (VStr competition) w2
       = Ret checked w2
    /\ (forall other : jsstring,
          other <> category ->
          isCategoryEnabledForCompetition (VStr other) (VStr competition) w2
          = Ret (Array_includes l (VStr other)) w2)
    /\ (forall (other : jsstring) (asked : jsval) (l' : list jsval),
          other <> competition -> obj_get other pcs = VArr l' ->
          isCategoryEnabledForCompetition asked (VStr other) w2
          = Ret (Array_includes l' asked) w2).
Proof.
  intros Hno Hget Hpc Hl _ Hworking.
  pose proof (onCategoryChange_run w w1 ps pcs competition category checked l
                Hget Hpc Hl Hworking) as Hrun.
  cbv zeta in Hrun.
  set (l2 := toggled_list l category checked) in *.
  set (w2 := stored _ _ _) in Hrun.
  destruct (getBigGameSettings_session w w1 (VObj ps) Hno Hget) as (Hsession & _ & _).
  assert (Hno2 : no_overlay w2)
    by (apply (no_overlay_session w); [exact Hsession | exact Hno]).
  assert (Hcache : _bigGameSettingsCache w2
                   = VObj (obj_set perCompetition_key
                             (VObj (obj_set competition (VArr l2) pcs)) ps))
    by reflexivity.
  exists w2. split; [exact Hrun | ].
  split; [ | split].
  - rewrite (isCategoryEnabledForCompetition_cached w2 _
               (obj_set competition (VArr l2) pcs) (VStr category) competition l2
               Hno2 Hcache); [ | apply obj_get_set_eq | apply obj_get_set_eq ].
    unfold l2. rewrite Array_includes_toggled.
    now rewrite bool_decide_eq_true_2.
  - intros other Hother.
    rewrite (isCategoryEnabledForCompetition_cached w2 _
               (obj_set competition (VArr l2) pcs) (VStr other) competition l2
               Hno2 Hcache); [ | apply obj_get_set_eq | apply obj_get_set_eq ].
    unfold l2. rewrite Array_includes_toggled.
    now rewrite bool_decide_eq_false_2.
  - intros other asked l' Hother Hl'.
    apply (isCategoryEnabledForCompetition_cached w2 _
             (obj_set competition (VArr l2) pcs) asked other l' Hno2 Hcache);
      [apply obj_get_set_eq | ].
    now rewrite obj_get_set_ne.
Qed.

Lemma toggle_then_lookup_witness :
  exists w2 : World,
    onCategoryChange (js "nba") (js "rob-lowe") false first_visit = Ret tt w2
    /\ isCategoryEnabledForCompetition (VStr (js "rob-lowe")) (VStr (js "nba")) w2
       = Ret false w2.
Proof.
  destruct (toggle_then_lookup first_visit
              (set_bigGameSettingsCache DEFAULT_BIG_GAME_SETTINGS first_visit)
              [ (js "schemaVersion", VNum SETTINGS_SCHEMA_VERSION);
                (js "perCompetition",
                  VObj (List.map (fun k => (k, if bool_decide (k = js "champions-league")
                                               then VArr CL_CATEGORIES
                                               else VArr ALL_CATEGORIES))
                          COMPETITION_KEYS)) ]
              (List.map (fun k => (k, if bool_decide (k = js "champions-league")
                                      then VArr CL_CATEGORIES else VArr ALL_CATEGORIES))
                 COMPETITION_KEYS)
              (js "nba") (js "rob-lowe") false ALL_CATEGORIES)
    as (w2 & Hrun & Hlookup & _).
  - apply no_session_no_overlay. reflexivity.
  - vm_compute. reflexivity.
  - vm_compute. reflexivity.
  - vm_compute. reflexivity.
  - vm_compute. tauto.
  - split; reflexivity.
  - exists w2. split; [exact Hrun | exact Hlookup].
Defined.

Lemma toggled_list_json (l : list jsval) (category : jsstring) (checked : bool) :
  forallb json_value l = true ->
  forallb json_value (toggled_list l category checked) = true.
Proof.
  intros Hl. unfold toggled_list. destruct checked.
  - destruct (Array_includes l (VStr category)); [exact Hl | ].
    now apply forallb_json_app.
  - apply forallb_forall. intros x Hx. apply filter_In in Hx as [Hx _].
    rewrite forallb_forall in Hl. now apply Hl.
Qed.

Lemma cache_restored (r : jsval) (w : World) :
  _bigGameSettingsCache w = r ->
  set_bigGameSettingsCache r (set_bigGameSettingsCache VNull w) = w.
Proof. destruct w. cbn. intros ->. reflexivity. Qed.

(** A settled document of the current version, stored as its JSON text, is
    read back as it is, without a write. *)
Lemma reload_stored (settings : jsval) (w : World) :
  no_overlay w -> denied (localStorage w) = false ->
  _bigGameSettingsCache w = settings ->
  items (localStorage w) !! BIG_GAME_SETTINGS_KEY = Some (SerializeJSON settings) ->
  settled true COMPETITION_KEYS settings ->
  get_prop settings (js "schemaVersion") = Val (VNum SETTINGS_SCHEMA_VERSION) ->
  (let* _ := invalidateSettingsCache in getBigGameSettings) w = Ret settings w.
Proof.
  intros Hno Hd Hcache Hitems Hsettled Hversion.
  unfold bind, invalidateSettingsCache.
  set (w3 := set_bigGameSettingsCache VNull w).
  assert (Hno3 : no_overlay w3) by (apply (no_overlay_session w); [reflexivity | exact Hno]).
  rewrite (getBigGameSettings_no_overlay w3 Hno3).
  rewrite (cached_or_loaded_plan w3) by reflexivity.
  assert (Hjson : json_value settings = true).
  { destruct Hsettled as (ps & pcs & _ & _ & _ & Hj). now apply Hj. }
  rewrite (stored_plan_document w3 settings) by assumption.
  destruct Hsettled as (ps & pcs & -> & Hrest).
  rewrite (plan_stable ps).
  - unfold outcome. f_equal. apply cache_restored. exact Hcache.
  - exists ps, pcs. split; [reflexivity | exact Hrest].
  - cbn [get_prop] in Hversion. injection Hversion as Hversion. exact Hversion.
Qed.

(** X5. A big-game box that was set survives a reload.  From settings of
    the current schema version that list every competition, on a store that
    accepts the write: the [change] handler stores the changed settings, and
    a load with a fresh read cache returns exactly these settings and leaves
    the state as the handler left it (no migration step changes them and
    nothing is written again); the lookup then still answers the state of
    the box. *)
Theorem toggle_survives_reload (w w1 : World) (ps : list (jsstring * jsval))
    (competition category : jsstring) (checked : bool) (l : list jsval) :
  no_overlay w -> getBigGameSettings w = Ret (VObj ps) w1 ->
  settled true COMPETITION_KEYS (VObj ps) ->
  obj_get schemaVersion_key ps = VNum SETTINGS_SCHEMA_VERSION ->
  In competition COMPETITION_KEYS ->
  competition_list (VObj ps) competition = VArr l ->
  working (localStorage w1) ->
  exists (settings : jsval) (w2 : World),
    onCategoryChange competition category checked w = Ret tt w2
    /\ items (localStorage w2) !! BIG_GAME_SETTINGS_KEY = Some (SerializeJSON settings)
    /\ (let* _ := invalidateSettingsCache in getBigGameSettings) w2 = Ret settings w2
    /\ (let* _ := invalidateSettingsCache in
        isCategoryEnabledForCompetition (VStr category) (VStr competition)) w2
       = Ret checked w2.
Proof.
  intros Hno Hget Hsettled Hversion Hin Hlist Hworking.
  pose proof Hsettled as (ps0 & pcs & Heq & Hpc & Hdone & Hj).
  injection Heq as <-.
  assert (Hcur : obj_get competition pcs = VArr l).
  { unfold competition_list in Hlist. now rewrite Hpc in Hlist. }
  assert (Henabled : enabled_list (obj_get competition pcs) = Some l)
    by now rewrite Hcur.
  pose proof (onCategoryChange_run w w1 ps pcs competition category checked l
                Hget Hpc Henabled Hworking) as Hrun.
  cbv zeta in Hrun.
  set (l2 := toggled_list l category checked) in *.
  set (settings := with_list ps pcs competition l2) in *.
  assert (Hljson : forallb json_value l = true).
  { specialize (Hj eq_refl). rewrite json_value_obj in Hj.
    pose proof (members_ok_obj_get perCompetition_key ps Hj) as Hpcj.
    rewrite Hpc in Hpcj. specialize (Hpcj eq_refl). rewrite json_value_obj in Hpcj.
    pose proof (members_ok_obj_get competition pcs Hpcj) as Hlj.
    rewrite Hcur in Hlj. now apply Hlj. }
  assert (Hsettled2 : settled true COMPETITION_KEYS settings).
  { destruct (settled_set true COMPETITION_KEYS (VObj ps) competition l2 Hsettled)
      as (doc' & Hdoc' & Hs').
    - now apply competition_key_not_integer.
    - intros _. now apply toggled_list_json.
    - unfold perCompetition_key in Hdoc'.
      rewrite (set_prop2_list ps pcs competition l2 Hpc) in Hdoc'.
      injection Hdoc' as <-.
      apply (settled_weaken true (competition :: COMPETITION_KEYS)); [ | exact Hs'].
      intros k Hk. now right. }
  assert (Hjson : json_value settings = true).
  { destruct Hsettled2 as (? & ? & _ & _ & _ & Hj2). now apply Hj2. }
  assert (Htext : ToString (JSON_stringify_ settings) = SerializeJSON settings)
    by now rewrite json_value_stringify.
  rewrite Htext in Hrun.
  set (w2 := stored _ _ _) in Hrun.
  destruct (getBigGameSettings_session w w1 (VObj ps) Hno Hget)
    as (Hsession & _ & Hdenied & _).
  destruct Hworking as [Hd Hf].
  assert (Hno2 : no_overlay w2)
    by (apply (no_overlay_session w); [exact Hsession | exact Hno]).
  assert (Hreload :
    (let* _ := invalidateSettingsCache in getBigGameSettings) w2 = Ret settings w2).
  { apply reload_stored.
    - exact Hno2.
    - exact Hd.
    - reflexivity.
    - cbn. apply lookup_insert_eq.
    - exact Hsettled2.
    - unfold settings, with_list. cbn [get_prop]. f_equal.
      change (js "schemaVersion") with schemaVersion_key.
      rewrite obj_get_set_ne by discriminate. exact Hversion. }
  exists settings, w2. split; [exact Hrun | ].
  split; [cbn; apply lookup_insert_eq | ].
  split; [exact Hreload | ].
  unfold bind in *. destruct (invalidateSettingsCache w2) as [ [] w3 | | ];
    try discriminate Hreload.
  unfold isCategoryEnabledForCompetition, bind. rewrite Hreload.
  unfold settings. rewrite with_list_perCompetition. cbn [lift ToString get_member].
  rewrite obj_has_set, bool_decide_eq_true_2, orb_true_r by reflexivity.
  rewrite obj_get_set_eq. cbn [truthy negb call_includes lift].
  unfold l2. rewrite Array_includes_toggled. now rewrite bool_decide_eq_true_2.
Qed.

Lemma toggle_survives_reload_witness :
  exists (settings : jsval) (w2 : World),
    onCategoryChange (js "nba") (js "playoff-preview") false first_visit = Ret tt w2
    /\ items (localStorage w2) !! BIG_GAME_SETTINGS_KEY = Some (SerializeJSON settings)
    /\ (let* _ := invalidateSettingsCache in getBigGameSettings) w2 = Ret settings w2
    /\ (let* _ := invalidateSettingsCache in
        isCategoryEnabledForCompetition (VStr (js "playoff-preview")) (VStr (js "nba"))) w2
       = Ret false w2.
Proof.
  apply (toggle_survives_reload first_visit
           (set_bigGameSettingsCache DEFAULT_BIG_GAME_SETTINGS first_visit)
           [ (js "schemaVersion", VNum SETTINGS_SCHEMA_VERSION);
             (js "perCompetition",
               VObj (List.map (fun k => (k, if bool_decide (k = js "champions-league")
                                            then VArr CL_CATEGORIES
                                            else VArr ALL_CATEGORIES))
                       COMPETITION_KEYS)) ]
           (js "nba") (js "playoff-preview") false ALL_CATEGORIES).
  - apply no_session_no_overlay. reflexivity.
  - vm_compute. reflexivity.
  - eexists; eexists. split; [reflexivity | ]. split; [vm_compute; reflexivity | ].
    split; [ | intros _; vm_compute; reflexivity ].
    repeat constructor.
  - vm_compute. reflexivity.
  - vm_compute. tauto.
  - vm_compute. reflexivity.
  - split; reflexivity.
Defined.

(** ** Which games are big games *)

(** X6. The Champions League list of the default settings, and of every
    settings document that holds only Champions League categories for that
    competition, never makes a game a big game: whatever the two teams and
    the top-tier and favourite lists, the category [categorizeGame] gives
    the game is not enabled for ['champions-league'].  (The categoriser
    returns standard categories only; the settings page can add one to the
    list.) *)
Theorem champions_league_never_big (w w1 : World) (ps pcs : list (jsstring * jsval))
    (l : list jsval) (home away : jsval) (topTierTeamIds favoriteTeamIds : list jsval) :
  getBigGameSettings w = Ret (VObj ps) w1 ->
  obj_get perCompetition_key ps = VObj pcs ->
  obj_get (js "champions-league") pcs = VArr l ->
  forallb (Array_includes CL_CATEGORIES) l = true ->
  exists w' : World,
    computeIsBigGameForCompetition
      (categorizeGame (categorizeTeam home topTierTeamIds favoriteTeamIds)
         (categorizeTeam away topTierTeamIds favoriteTeamIds))
      (VStr (js "champions-league")) w
    = Ret false w'.
Proof.
  intros Hget Hpc Hl Hcl.
  set (game := categorizeGame _ _).
  destruct (categorizeGame_range (categorizeTeam home topTierTeamIds favoriteTeamIds)
              (categorizeTeam away topTierTeamIds favoriteTeamIds)) as [H | H];
    fold game in H.
  - rewrite H. exists w. reflexivity.
  - exists w1.
    assert (Hgame : truthy game = true /\ Array_includes CL_CATEGORIES game = false).
    { unfold standard_categories in H. simpl in H.
      destruct H as [<- | [<- | [<- | [<- | [<- | []]]]]]; split; reflexivity. }
    destruct Hgame as [Htruthy Hnot].
    unfold computeIsBigGameForCompetition. rewrite Htruthy.
    change (truthy (VStr (js "champions-league"))) with true. cbn [negb orb].
    unfold isCategoryEnabledForCompetition, bind. rewrite Hget.
    cbn [lift get_prop].
    change (obj_get (js "perCompetition") ps) with (obj_get perCompetition_key ps).
    rewrite Hpc. cbn [ToString get_member].
    rewrite (truthy_obj_has (js "champions-league") pcs) by now rewrite Hl.
    rewrite Hl. cbn [truthy negb call_includes lift]. f_equal.
    apply not_true_is_false. intros Hin.
    unfold Array_includes in Hin. apply existsb_exists in Hin as (e & He & Heq).
    rewrite forallb_forall in Hcl. specialize (Hcl e He).
    assert (e = game) as ->.
    { unfold standard_categories in H. simpl in H.
      destruct H as [<- | [<- | [<- | [<- | [<- | []]]]]];
        now apply strict_eq_VStr in Heq. }
    congruence.
Qed.

Lemma champions_league_never_big_witness :
  exists w' : World,
    computeIsBigGameForCompetition
      (categorizeGame (categorizeTeam (VStr (js "359")) [VStr (js "359")] [VStr (js "368")])
         (categorizeTeam (VStr (js "368")) [VStr (js "359")] [VStr (js "368")]))
      (VStr (js "champions-league")) first_visit
    = Ret false w'.
Proof.
  apply (champions_league_never_big first_visit
           (set_bigGameSettingsCache DEFAULT_BIG_GAME_SETTINGS first_visit)
           [ (js "schemaVersion", VNum SETTINGS_SCHEMA_VERSION);
             (js "perCompetition",
               VObj (List.map (fun k => (k, if bool_decide (k = js "champions-league")
                                            then VArr CL_CATEGORIES
                                            else VArr ALL_CATEGORIES))
                       COMPETITION_KEYS)) ]
           (List.map (fun k => (k, if bool_decide (k = js "champions-league")
                                   then VArr CL_CATEGORIES else VArr ALL_CATEGORIES))
              COMPETITION_KEYS)
           CL_CATEGORIES).
  - vm_compute. reflexivity.
  - vm_compute. reflexivity.
  - vm_compute. reflexivity.
  - vm_compute. reflexivity.
Defined.

Lemma enabled_in_some_listed (ps pcs : list (jsstring * jsval)) (category : jsval)
    (competitions : list jsstring) :
  obj_get perCompetition_key ps = VObj pcs ->
  Forall (fun k => exists l, obj_get k pcs = VArr l) competitions ->
  enabled_in_some (VObj ps) category competitions
  = Val (existsb (listed_category pcs category) competitions).
Proof.
  intros Hpc. induction 1 as [ | k r [l Hl] _ IH ]; [reflexivity | ].
  cbn [enabled_in_some get_prop ev_bind existsb].
  change (obj_get (js "perCompetition") ps) with (obj_get perCompetition_key ps).
  rewrite Hpc. cbn [get_prop ev_bind]. unfold listed_category at 1.
  rewrite Hl. cbn [call_includes ev_bind].
  destruct (Array_includes l category); [reflexivity | exact IH].
Qed.

(** X7. The legacy check is the disjunction of the checks by competition.
    For settings whose competitions all list an array, [isCategoryEnabled]
    returns [true] exactly when [isCategoryEnabledForCompetition] does for
    one of the competitions: a category switched off for one competition
    still counts as enabled while another competition has it. *)
Theorem isCategoryEnabled_some_competition (w : World) (ps pcs : list (jsstring * jsval))
    (category : jsval) :
  no_overlay w -> _bigGameSettingsCache w = VObj ps ->
  obj_get perCompetition_key ps = VObj pcs ->
  lists_are_arrays pcs ->
  exists enabled : bool,
    isCategoryEnabled category w = Ret enabled w
    /\ (enabled = true <->
        exists competition : jsstring,
          In competition COMPETITION_KEYS
          /\ isCategoryEnabledForCompetition category (VStr competition) w = Ret true w).
Proof.
  intros Hno Hcache Hpc Harrays.
  exists (existsb (listed_category pcs category) COMPETITION_KEYS). split.
  - unfold isCategoryEnabled, bind. rewrite (getBigGameSettings_cached w ps Hno Hcache).
    rewrite (enabled_in_some_listed ps pcs category COMPETITION_KEYS Hpc Harrays).
    reflexivity.
  - unfold lists_are_arrays in Harrays. rewrite List.Forall_forall in Harrays.
    rewrite existsb_exists. split.
    + intros (k & Hk & Hlisted). exists k. split; [exact Hk | ].
      destruct (Harrays k Hk) as [l Hl].
      rewrite (isCategoryEnabledForCompetition_cached w ps pcs category k l Hno Hcache Hpc Hl).
      unfold listed_category in Hlisted. rewrite Hl in Hlisted. now rewrite Hlisted.
    + intros (k & Hk & Hlookup). exists k. split; [exact Hk | ].
      destruct (Harrays k Hk) as [l Hl].
      rewrite (isCategoryEnabledForCompetition_cached w ps pcs category k l Hno Hcache Hpc Hl)
        in Hlookup.
      unfold listed_category. rewrite Hl. congruence.
Qed.

Lemma isCategoryEnabled_some_competition_witness :
  exists enabled : bool,
    isCategoryEnabled (VStr (js "cl-favorite"))
      (set_bigGameSettingsCache DEFAULT_BIG_GAME_SETTINGS first_visit)
    = Ret enabled (set_bigGameSettingsCache DEFAULT_BIG_GAME_SETTINGS first_visit)
    /\ (enabled = true <->
        exists competition : jsstring,
          In competition COMPETITION_KEYS
          /\ isCategoryEnabledForCompetition (VStr (js "cl-favorite")) (VStr competition)
               (set_bigGameSettingsCache DEFAULT_BIG_GAME_SETTINGS first_visit)
             = Ret true (set_bigGameSettingsCache DEFAULT_BIG_GAME_SETTINGS first_visit)).
Proof.
  apply (isCategoryEnabled_some_competition
           (set_bigGameSettingsCache DEFAULT_BIG_GAME_SETTINGS first_visit)
           [ (js "schemaVersion", VNum SETTINGS_SCHEMA_VERSION);
             (js "perCompetition",
               VObj (List.map (fun k => (k, if bool_decide (k = js "champions-league")
                                            then VArr CL_CATEGORIES
                                            else VArr ALL_CATEGORIES))
                       COMPETITION_KEYS)) ]
           (List.map (fun k => (k, if bool_decide (k = js "champions-league")
                                   then VArr CL_CATEGORIES else VArr ALL_CATEGORIES))
              COMPETITION_KEYS)).
  - apply no_session_no_overlay. reflexivity.
  - vm_compute. reflexivity.
  - vm_compute. reflexivity.
  - unfold lists_are_arrays. repeat constructor; eexists; vm_compute; reflexivity.
Defined.

(** ** The preseason switch *)

Lemma getWatchPartySession_none (w : World) :
  items (sessionStorage w) !! WATCH_PARTY_SESSION_KEY = None ->
  getWatchPartySession w = Ret VNull w.
Proof.
  intros Hnone. unfold getWatchPartySession, try_catch, bind, sessionStorage_getItem,
    Storage_getItem.
  destruct (denied (sessionStorage w)); [reflexivity | ]. now rewrite Hnone.
Qed.

Lemma getWatchPartySession_session (w w' : World) (watchParty : jsval) :
  sessionStorage w' = sessionStorage w ->
  getWatchPartySession w = Ret watchParty w ->
  getWatchPartySession w' = Ret watchParty w'.
Proof.
  intros Hs. unfold getWatchPartySession, try_catch, bind, sessionStorage_getItem.
  rewrite Hs. destruct (Storage_getItem (sessionStorage w) WATCH_PARTY_SESSION_KEY) as [saved | ].
  - destruct (truthy saved).
    + unfold lift. destruct (JSON_parse_ saved); intros H; inversion H; reflexivity.
    + unfold ret. intros H; inversion H; reflexivity.
  - unfold ret. intros H; inversion H; reflexivity.
Qed.

(** X8. Writing and reading the preseason switch outside a watch party, on a
    store that accepts the write.  After [setShowPreseason(value)], a read on
    the same page returns [value] itself (from the module cache) unless
    [value] is [null]; a read on a freshly loaded page (empty cache) returns
    the boolean [String(value) === 'true'].  The two agree for booleans; for
    any other value the page that wrote it sees the value and every later
    page sees [false] (or [true] for the string ['true']). *)
Theorem showPreseason_roundtrip (w : World) (value : jsval) :
  working (localStorage w) ->
  items (sessionStorage w) !! WATCH_PARTY_SESSION_KEY = None ->
  exists w' : World,
    snd (setShowPreseason value) w = Ret tt w'
    /\ (value <> VNull ->
        getShowPreseason (fst (setShowPreseason value)) w' = Ret (value, value) w')
    /\ (let reloaded := VBool (bool_decide (ToString value = js "true")) in
        getShowPreseason VNull w' = Ret (reloaded, reloaded) w')
    /\ (forall b : bool, value = VBool b -> getShowPreseason VNull w' = Ret (value, value) w').
Proof.
  intros Hworking Hnone.
  set (w' := stored PRESEASON_SETTINGS_KEY (ToString value) w).
  assert (Hwrite : snd (setShowPreseason value) w = Ret tt w').
  { cbn [snd setShowPreseason].
    now rewrite (localStorage_setItem_working _ _ w Hworking). }
  assert (Hsession : getWatchPartySession w' = Ret VNull w')
    by (apply getWatchPartySession_none; exact Hnone).
  assert (Hreload :
    getShowPreseason VNull w'
    = Ret (VBool (bool_decide (ToString value = js "true")),
           VBool (bool_decide (ToString value = js "true"))) w').
  { unfold getShowPreseason, bind. rewrite Hsession. cbn [truthy ret andb strict_eq negb].
    destruct Hworking as [Hd _].
    unfold w'. rewrite (localStorage_getItem_stored _ _ w Hd).
    cbn [strict_eq]. unfold jsstring_eqb. reflexivity. }
  exists w'. split; [exact Hwrite | ]. split; [ | split].
  - intros Hvalue. cbn [fst setShowPreseason].
    unfold getShowPreseason, bind. rewrite Hsession. cbn [truthy ret andb].
    destruct (strict_eq value VNull) eqn:E; [ | reflexivity].
    apply strict_eq_VNull in E. contradiction.
  - exact Hreload.
  - intros b ->. rewrite Hreload. destruct b; reflexivity.
Qed.

Lemma showPreseason_roundtrip_witness :
  exists w' : World,
    snd (setShowPreseason (VBool false)) first_visit = Ret tt w'
    /\ (VBool false <> VNull ->
        getShowPreseason (fst (setShowPreseason (VBool false))) w'
        = Ret (VBool false, VBool false) w')
    /\ (let reloaded := VBool (bool_decide (ToString (VBool false) = js "true")) in
        getShowPreseason VNull w' = Ret (reloaded, reloaded) w')
    /\ (forall b : bool,
          VBool false = VBool b ->
          getShowPreseason VNull w' = Ret (VBool false, VBool false) w').
Proof.
  apply (showPreseason_roundtrip first_visit (VBool false)).
  - split; reflexivity.
  - reflexivity.
Defined.

(** X9. In a watch party whose snapshot carries [showPreseason], the
    snapshot decides: [getShowPreseason] returns the snapshot's value
    whatever the module cache and the store hold (the store is not read, so
    a store that refuses access does no harm), it leaves the cache as it
    was, and it still returns the snapshot's value after
    [setShowPreseason] stored another one. *)
Theorem showPreseason_overlay (w : World) (watchParty showPreseason cache : jsval) :
  getWatchPartySession w = Ret watchParty w ->
  truthy watchParty = true ->
  get_prop watchParty (js "showPreseason") = Val showPreseason ->
  showPreseason <> VUndef ->
  getShowPreseason cache w = Ret (showPreseason, cache) w
  /\ (forall (value : jsval) (w' : World),
        snd (setShowPreseason value) w = Ret tt w' ->
        getShowPreseason (fst (setShowPreseason value)) w'
        = Ret (showPreseason, value) w').
Proof.
  intros Hsession Htruthy Hprop Hdefined.
  assert (Hread : forall (c : jsval) (w' : World),
            getWatchPartySession w' = Ret watchParty w' ->
            getShowPreseason c w' = Ret (showPreseason, c) w').
  { intros c w' Hs. unfold getShowPreseason, bind. rewrite Hs, Htruthy, Hprop.
    cbn [lift andb].
    destruct (strict_eq showPreseason VUndef) eqn:E; [ | reflexivity].
    destruct showPreseason; try discriminate E. contradiction. }
  split; [now apply Hread | ].
  intros value w' Hwrite. cbn [fst setShowPreseason]. apply Hread.
  apply (getWatchPartySession_session w); [ | exact Hsession].
  cbn [snd setShowPreseason] in Hwrite. unfold localStorage_setItem in Hwrite.
  destruct (Storage_setItem _ _ _); inversion Hwrite. reflexivity.
Qed.

Lemma showPreseason_overlay_witness :
  getShowPreseason VNull party_world = Ret (VBool true, VNull) party_world.
Proof.
  refine (proj1 (showPreseason_overlay party_world party_snapshot (VBool true) VNull
                   _ _ _ _)).
  - vm_compute. reflexivity.
  - reflexivity.
  - reflexivity.
  - discriminate.
Defined.

(** ** Clearing the response cache *)

Lemma starts_with_app (prefix s : jsstring) : starts_with prefix (prefix ++ s) = true.
Proof.
  induction prefix as [ | c p IH ]; [reflexivity | ]. simpl.
  now rewrite N.eqb_refl, IH.
Qed.

Lemma cache_keys_not_inherited (k : jsstring) :
  starts_with CACHE_KEY_PREFIX k = true -> k ∉ Storage_prototype_names.
Proof.
  intros Hk Hin. unfold Storage_prototype_names, Object_prototype_names in Hin.
  simpl in Hin.
  repeat (apply elem_of_cons in Hin as [-> | Hin]; [vm_compute in Hk; discriminate Hk | ]).
  now apply elem_of_nil in Hin.
Qed.

(** The loop of [clearAllCache] over a list of keys. *)
Lemma clearAllCache_loop (keys : list jsstring) :
  forall w : World,
    denied (localStorage w) = false ->
    exists w' : World,
      for_each keys
        (fun key =>
           if starts_with CACHE_KEY_PREFIX key then localStorage_removeItem key
           else ret tt) w = Ret tt w'
      /\ w' = set_localStorage
                {| items := items (localStorage w'); denied := false;
                   full := full (localStorage w); writes := writes (localStorage w) |} w
      /\ forall k : jsstring,
           items (localStorage w') !! k
           = if starts_with CACHE_KEY_PREFIX k && bool_decide (k ∈ keys) then None
             else items (localStorage w) !! k.
Proof.
  induction keys as [ | key keys IH ]; intros w Hd.
  - exists w. split; [reflexivity | ]. split.
    + destruct w as [[] ? ? ? ? ?]. cbn in *. now subst.
    + intros k. rewrite (bool_decide_eq_false_2 (k ∈ [])) by apply not_elem_of_nil.
      now rewrite andb_false_r.
  - cbn [for_each]. unfold bind at 1.
    destruct (starts_with CACHE_KEY_PREFIX key) eqn:Ekey.
    + unfold localStorage_removeItem, Storage_removeItem. rewrite Hd.
      set (w1 := set_localStorage _ w).
      destruct (IH w1 eq_refl) as (w' & Hrun & Hshape & Hlookup).
      exists w'. split; [exact Hrun | ]. split.
      * rewrite Hshape at 1. unfold w1. reflexivity.
      * intros k. rewrite Hlookup. unfold w1. cbn [localStorage set_localStorage items].
        destruct (starts_with CACHE_KEY_PREFIX k) eqn:Ek; cbn [andb];
          [ | apply lookup_delete_ne; intros ->; congruence ].
        destruct (decide (k = key)) as [-> | Hne].
        -- rewrite (bool_decide_eq_true_2 (key ∈ key :: keys))
             by (apply elem_of_cons; now left).
           destruct (bool_decide (key ∈ keys)); [reflexivity | apply lookup_delete_eq].
        -- rewrite lookup_delete_ne by congruence.
           apply (f_equal (fun b : bool => if b then None
                                           else items (localStorage w) !! k)).
           apply bool_decide_ext. rewrite elem_of_cons. tauto.
    + unfold ret at 1.
      destruct (IH w Hd) as (w' & Hrun & Hshape & Hlookup).
      exists w'. split; [exact Hrun | ]. split; [exact Hshape | ].
      intros k. rewrite Hlookup.
      destruct (starts_with CACHE_KEY_PREFIX k) eqn:Ek; cbn [andb]; [ | reflexivity].
      apply (f_equal (fun b : bool => if b then None else items (localStorage w) !! k)).
      apply bool_decide_ext. rewrite elem_of_cons.
      split; [tauto | ]. intros [-> | H]; [congruence | exact H].
Qed.

(** X10. [clearAllCache] empties the response cache and nothing else.  On a
    store that can be read, afterwards every [getCached] returns [null];
    every key that does not start with the cache prefix keeps its value, in
    particular the big-game settings, the favourite teams and the preseason
    switch; nothing is written and the session storage and the read cache of
    the settings are as before.  On a store that refuses access the call
    throws. *)
Theorem clearAllCache_clears (w : World) :
  (denied (localStorage w) = false ->
   exists w' : World,
     clearAllCache w = Ret tt w'
     /\ (forall (now : Z) (key : jsstring), getCached now key w' = Ret VNull w')
     /\ (forall k : jsstring,
           starts_with CACHE_KEY_PREFIX k = false ->
           items (localStorage w') !! k = items (localStorage w) !! k)
     /\ Forall (fun k => items (localStorage w') !! k = items (localStorage w) !! k)
          [BIG_GAME_SETTINGS_KEY; FAVORITE_TEAMS_KEY; PRESEASON_SETTINGS_KEY]
     /\ writes (localStorage w') = writes (localStorage w)
     /\ sessionStorage w' = sessionStorage w
     /\ _bigGameSettingsCache w' = _bigGameSettingsCache w)
  /\ (denied (localStorage w) = true -> clearAllCache w = Throw w).
Proof.
  split.
  - intros Hd. unfold clearAllCache, bind, Object_keys_localStorage. rewrite Hd.
    set (keys := List.filter _ _).
    destruct (clearAllCache_loop keys w Hd) as (w' & Hrun & Hshape & Hlookup).
    exists w'. split; [exact Hrun | ].
    assert (Hkept : forall k : jsstring,
              starts_with CACHE_KEY_PREFIX k = false ->
              items (localStorage w') !! k = items (localStorage w) !! k).
    { intros k Hk. rewrite Hlookup, Hk. reflexivity. }
    assert (Hgone : forall key : jsstring,
              items (localStorage w') !! (CACHE_KEY_PREFIX ++ key) = None).
    { intros key. rewrite Hlookup, starts_with_app. cbn [andb].
      destruct (items (localStorage w) !! (CACHE_KEY_PREFIX ++ key)) as [text | ] eqn:E;
        [ | now destruct (bool_decide _) ].
      rewrite bool_decide_eq_true_2; [reflexivity | ].
      unfold keys. apply list_elem_of_In, filter_In. split.
      - apply list_elem_of_In. apply list_elem_of_fmap.
        exists (CACHE_KEY_PREFIX ++ key, text). split; [reflexivity | ].
        now apply elem_of_map_to_list.
      - apply negb_true_iff, bool_decide_eq_false.
        apply cache_keys_not_inherited, starts_with_app. }
    split; [ | split; [exact Hkept | split; [ | rewrite Hshape; cbn; auto ] ] ].
    + intros now key. unfold getCached, try_catch, bind.
      rewrite localStorage_getItem_items by (rewrite Hshape; reflexivity).
      rewrite Hgone. reflexivity.
    + repeat constructor; apply Hkept; reflexivity.
  - intros Hd. unfold clearAllCache, bind, Object_keys_localStorage. now rewrite Hd.
Qed.

Lemma clearAllCache_clears_witness :
  exists w' : World,
    clearAllCache
      (stored (CACHE_KEY_PREFIX ++ js "standings-nba")
         (SerializeJSON (cache_entry 1000 (VArr [VStr (js "17")]) (VNum 1))) version1_world)
    = Ret tt w'
    /\ items (localStorage w') !! BIG_GAME_SETTINGS_KEY
       = Some (SerializeJSON version1_document)
    /\ getCached 1000 (js "standings-nba") w' = Ret VNull w'.
Proof.
  destruct (proj1 (clearAllCache_clears
              (stored (CACHE_KEY_PREFIX ++ js "standings-nba")
                 (SerializeJSON (cache_entry 1000 (VArr [VStr (js "17")]) (VNum 1)))
                 version1_world)) eq_refl)
    as (w' & Hrun & Hcached & _ & Hkept & _).
  exists w'. split; [exact Hrun | ]. split; [ | apply Hcached].
  apply Forall_cons in Hkept as [Hsettings _]. rewrite Hsettings. reflexivity.
Defined.

(** ** The watch-party session *)

Lemma getWatchPartySession_stored (w : World) (settings : jsval) :
  denied (sessionStorage w) = false ->
  items (sessionStorage w) !! WATCH_PARTY_SESSION_KEY = Some (SerializeJSON settings) ->
  json_value settings = true ->
  getWatchPartySession w = Ret settings w.
Proof.
  intros Hd Hitems Hjson.
  unfold getWatchPartySession, try_catch, bind, sessionStorage_getItem, Storage_getItem.
  rewrite Hd, Hitems, SerializeJSON_truthy.
  unfold lift. now rewrite JSON_parse_SerializeJSON.
Qed.

Lemma setWatchPartySession_run (w : World) (settings : jsval) :
  json_value settings = true ->
  setWatchPartySession settings w
  = if denied (sessionStorage w) || full (sessionStorage w) then Ret tt w
    else Ret tt (session_stored (SerializeJSON settings) w).
Proof.
  intros Hjson.
  unfold setWatchPartySession, try_catch, sessionStorage_setItem, Storage_setItem.
  rewrite json_value_stringify by assumption. cbn [ToString].
  destruct (denied (sessionStorage w) || full (sessionStorage w)); reflexivity.
Qed.

Lemma decodeWatchParty_token (x : jsval) (w : World) :
  json_value x = true -> latin1 (SerializeJSON x) = true ->
  decodeWatchParty (VStr (b64_encode (SerializeJSON x))) w = Ret x w.
Proof.
  intros Hjson Hlatin. unfold decodeWatchParty, try_catch, atob_. cbn [ToString].
  rewrite atob_b64_encode by (apply latin1_bytes; assumption).
  cbn [ev_bind]. now rewrite JSON_parse_SerializeJSON.
Qed.

Lemma setWatchPartySession_never_throws (settings : jsval) (w w' : World) :
  setWatchPartySession settings w <> Throw w'.
Proof.
  unfold setWatchPartySession, try_catch.
  destruct (sessionStorage_setItem _ _ w); discriminate.
Qed.

Lemma getWatchPartySession_never_throws (w w' : World) :
  getWatchPartySession w <> Throw w'.
Proof.
  pose proof (getWatchPartySession_reads w) as H.
  destruct (getWatchPartySession w); [discriminate | contradiction | discriminate].
Qed.

(** X11. The watch-party session is a round trip.  On a session store that
    accepts the write, [getWatchPartySession] returns, after
    [setWatchPartySession(settings)], the settings stored (any JSON value),
    and the local storage is untouched; on a store that refuses the write
    the call stores nothing and does not throw.  After a
    [clearWatchPartySession] that returned, [getWatchPartySession] returns
    [null]. *)
Theorem watch_party_session_roundtrip (w : World) (settings : jsval) :
  json_value settings = true ->
  (working (sessionStorage w) ->
     setWatchPartySession settings w = Ret tt (session_stored (SerializeJSON settings) w)
     /\ getWatchPartySession (session_stored (SerializeJSON settings) w)
        = Ret settings (session_stored (SerializeJSON settings) w)
     /\ localStorage (session_stored (SerializeJSON settings) w) = localStorage w)
  /\ (denied (sessionStorage w) || full (sessionStorage w) = true ->
      setWatchPartySession settings w = Ret tt w)
  /\ (forall w' : World,
        clearWatchPartySession w = Ret tt w' ->
        w' = session_cleared w /\ getWatchPartySession w' = Ret VNull w').
Proof.
  intros Hjson. split; [ | split].
  - intros [Hd Hf]. rewrite setWatchPartySession_run by assumption.
    rewrite Hd, Hf. cbn [orb]. split; [reflexivity | ]. split; [ | reflexivity].
    apply getWatchPartySession_stored; [exact Hd | | exact Hjson].
    cbn. apply lookup_insert_eq.
  - intros Hrefused. rewrite setWatchPartySession_run by assumption.
    now rewrite Hrefused.
  - intros w'. unfold clearWatchPartySession, sessionStorage_removeItem, Storage_removeItem.
    destruct (denied (sessionStorage w)) eqn:Hd; [discriminate | ].
    intros H. injection H as <-.
    split; [unfold session_cleared; now rewrite Hd | ].
    apply getWatchPartySession_none. cbn. apply lookup_delete_eq.
Qed.

Lemma watch_party_session_roundtrip_witness :
  getWatchPartySession (session_stored (SerializeJSON party_snapshot) first_visit)
  = Ret party_snapshot (session_stored (SerializeJSON party_snapshot) first_visit).
Proof.
  refine (proj1 (proj2 (proj1 (watch_party_session_roundtrip first_visit party_snapshot _)
                          _))).
  - vm_compute. reflexivity.
  - split; reflexivity.
Defined.

Lemma getActiveWatchParty_session (w : World) (watchParty : jsval) :
  getWatchPartySession w = Ret watchParty w -> truthy watchParty = true ->
  getActiveWatchParty w = Ret watchParty w.
Proof.
  intros Hs Ht. unfold getActiveWatchParty, bind. rewrite Hs, Ht. reflexivity.
Qed.

Lemma getActiveWatchParty_joins (w : World) (x : jsval) :
  json_value x = true -> truthy x = true -> latin1 (SerializeJSON x) = true ->
  items (sessionStorage w) !! WATCH_PARTY_SESSION_KEY = None ->
  working (sessionStorage w) ->
  location_wp w = VStr (b64_encode (SerializeJSON x)) ->
  getActiveWatchParty w = Ret x (session_stored (SerializeJSON x) w).
Proof.
  intros Hjson Htruthy Hlatin Hnone [Hd Hf] Hwp.
  unfold getActiveWatchParty, bind.
  rewrite (getWatchPartySession_none w Hnone). cbn [truthy].
  unfold getWatchPartyFromURL. rewrite Hwp.
  change (truthy (VStr (b64_encode (SerializeJSON x))))
    with (match b64_encode (SerializeJSON x) with [] => false | _ => true end).
  assert (Htoken : b64_encode (SerializeJSON x) <> []).
  { pose proof (SerializeJSON_truthy x) as Ht. cbn [truthy] in Ht.
    destruct (SerializeJSON x) as [ | a [ | b [ | c r ] ] ]; [discriminate Ht | | | ];
      cbn [b64_encode]; discriminate. }
  destruct (b64_encode (SerializeJSON x)) as [ | c token ] eqn:E; [contradiction | ].
  rewrite <- E. rewrite decodeWatchParty_token by assumption.
  rewrite Htruthy. rewrite setWatchPartySession_run by assumption.
  rewrite Hd, Hf. reflexivity.
Qed.

(** X12. Opening a watch-party link.  With no session yet, a session store
    that accepts the write and an address whose [wp] parameter is the token
    of a truthy snapshot, [getActiveWatchParty] returns the snapshot and
    stores it in the session; from then on every page of the session gets
    the same snapshot, whatever its own address says, and nothing more is
    stored. *)
Theorem getActiveWatchParty_link (w : World) (x : jsval) :
  json_value x = true -> truthy x = true -> latin1 (SerializeJSON x) = true ->
  items (sessionStorage w) !! WATCH_PARTY_SESSION_KEY = None ->
  working (sessionStorage w) ->
  location_wp w = VStr (b64_encode (SerializeJSON x)) ->
  getActiveWatchParty w = Ret x (session_stored (SerializeJSON x) w)
  /\ (forall w' : World,
        sessionStorage w' = sessionStorage (session_stored (SerializeJSON x) w) ->
        getActiveWatchParty w' = Ret x w').
Proof.
  intros Hjson Htruthy Hlatin Hnone Hworking Hwp. split.
  - now apply getActiveWatchParty_joins.
  - intros w' Hsession. apply getActiveWatchParty_session; [ | exact Htruthy].
    destruct Hworking as [Hd _].
    apply getWatchPartySession_stored; [ | | exact Hjson].
    + rewrite Hsession. exact Hd.
    + rewrite Hsession. cbn. apply lookup_insert_eq.
Qed.

Lemma getActiveWatchParty_link_witness :
  getActiveWatchParty
    {| localStorage := empty_storage; sessionStorage := empty_storage;
       _bigGameSettingsCache := VNull; DEFAULT_TEAMS := DEFAULT_TEAMS_literal;
       location_wp := VStr (b64_encode (SerializeJSON snapshot_everton));
       alerts := [] |}
  = Ret snapshot_everton
      (session_stored (SerializeJSON snapshot_everton)
         {| localStorage := empty_storage; sessionStorage := empty_storage;
            _bigGameSettingsCache := VNull; DEFAULT_TEAMS := DEFAULT_TEAMS_literal;
            location_wp := VStr (b64_encode (SerializeJSON snapshot_everton));
            alerts := [] |}).
Proof.
  refine (proj1 (getActiveWatchParty_link _ snapshot_everton _ _ _ _ _ _)).
  - vm_compute. reflexivity.
  - reflexivity.
  - vm_compute. reflexivity.
  - reflexivity.
  - split; reflexivity.
  - reflexivity.
Defined.

Lemma getActiveWatchParty_never_throws (w w' : World) :
  getActiveWatchParty w <> Throw w'.
Proof.
  unfold getActiveWatchParty, bind.
  pose proof (getWatchPartySession_reads w) as Hreads.
  destruct (getWatchPartySession w) as [sessionWp w1 | | ];
    [subst w1 | contradiction | discriminate].
  destruct (truthy sessionWp); [discriminate | ].
  unfold getWatchPartyFromURL. destruct (truthy (location_wp w)); [ | discriminate].
  pose proof (decodeWatchParty_never_throws (location_wp w) w) as Hdecode.
  destruct (decodeWatchParty (location_wp w) w) as [urlWp w1 | w1 | ];
    [ | now destruct (Hdecode w1) | discriminate ].
  destruct (truthy urlWp); [ | discriminate].
  pose proof (setWatchPartySession_never_throws urlWp w1) as Hset.
  destruct (setWatchPartySession urlWp w1) as [ [] w2 | w2 | ];
    [discriminate | now destruct (Hset w2) | discriminate ].
Qed.

Lemma getActiveWatchParty_no_party (w : World) :
  items (sessionStorage w) !! WATCH_PARTY_SESSION_KEY = None ->
  no_party_in_address w ->
  getActiveWatchParty w = Ret VNull w.
Proof.
  intros Hnone Haddress. unfold getActiveWatchParty, bind.
  rewrite (getWatchPartySession_none w Hnone). cbn [truthy].
  unfold getWatchPartyFromURL.
  destruct Haddress as [Hwp | [Hatob | (text & Hatob & Hparse)]].
  - rewrite Hwp. reflexivity.
  - destruct (truthy (location_wp w)); [ | reflexivity].
    unfold decodeWatchParty, try_catch, atob_. rewrite Hatob. reflexivity.
  - destruct (truthy (location_wp w)); [ | reflexivity].
    unfold decodeWatchParty, try_catch, atob_. rewrite Hatob. cbn [ev_bind].
    unfold JSON_parse_. cbn [ToString]. rewrite Hparse. reflexivity.
Qed.



(** X14. Leaving a watch party.  After [clearWatchPartySession] returned, on
    a page whose address has no party, no overlay is left:
    [getActiveWatchParty] returns [null], [getBigGameSettings] gives the
    user's own settings again (the read cache or the store), and the
    user's own stored data is as it was before the party.  When the address
    still carries the token of a party and the session store accepts a
    write, the next [getActiveWatchParty] joins that party again. *)
Theorem leaving_watch_party (w w' : World) :
  clearWatchPartySession w = Ret tt w' ->
  localStorage w' = localStorage w
  /\ _bigGameSettingsCache w' = _bigGameSettingsCache w
  /\ getBigGameSettings w' = cached_or_loaded w'
  /\ (no_party_in_address w -> getActiveWatchParty w' = Ret VNull w')
  /\ (forall x : jsval,
        json_value x = true -> truthy x = true -> latin1 (SerializeJSON x) = true ->
        location_wp w = VStr (b64_encode (SerializeJSON x)) ->
        full (sessionStorage w) = false ->
        exists w'' : World, getActiveWatchParty w' = Ret x w'').
Proof.
  unfold clearWatchPartySession, sessionStorage_removeItem, Storage_removeItem.
  destruct (denied (sessionStorage w)) eqn:Hd; [discriminate | ].
  intros H. injection H as <-.
  set (w' := set_sessionStorage _ w).
  assert (Hnone : items (sessionStorage w') !! WATCH_PARTY_SESSION_KEY = None)
    by (cbn; apply lookup_delete_eq).
  split; [reflexivity | ]. split; [reflexivity | ].
  split; [apply getBigGameSettings_no_overlay, no_session_no_overlay, Hnone | ].
  split.
  - intros Haddress. now apply getActiveWatchParty_no_party.
  - intros x Hjson Htruthy Hlatin Hwp Hf.
    exists (session_stored (SerializeJSON x) w').
    apply (getActiveWatchParty_joins w' x); try assumption.
    split; [reflexivity | exact Hf].
Qed.

Lemma leaving_watch_party_witness :
  getActiveWatchParty (session_cleared party_world) = Ret VNull (session_cleared party_world).
Proof.
  refine (proj1 (proj2 (proj2 (proj2
            (leaving_watch_party party_world (session_cleared party_world) _)))) _).
  - reflexivity.
  - left. reflexivity.
Defined.

(** ** The teams of a watch party *)

Lemma obj_get_integer_key (k : jsstring) (props : list (jsstring * jsval)) :
  members_ok props = true -> is_integer_key k = true -> obj_get k props = VUndef.
Proof.
  intros Hok Hk. induction props as [ | [k' v] r IH ]; [reflexivity | ].
  simpl in Hok. apply andb_true_iff in Hok as [Hok Hr].
  apply andb_true_iff in Hok as [Hok _]. apply andb_true_iff in Hok as [Hk' _].
  simpl. rewrite bool_decide_eq_false_2; [now apply IH | ].
  intros ->. rewrite Hk in Hk'. discriminate.
Qed.

Lemma holds_objects_array (teams : list jsval) :
  holds_objects (VArr teams)
  = Val (match teams with first :: _ => typeof_object first | [] => false end).
Proof.
  unfold holds_objects. cbn [get_length ev_bind ToNumber js_lt get_first].
  destruct teams as [ | first rest ]; [reflexivity | ].
  replace (0 <? Z.of_nat (length (first :: rest))) with true; [reflexivity | ].
  symmetry. apply Z.ltb_lt. simpl length. lia.
Qed.

Lemma holds_objects_json (teams : jsval) :
  json_value teams = true -> truthy teams = true ->
  match teams with VArr _ => False | _ => True end ->
  holds_objects teams = Val false \/ holds_objects teams = Out.
Proof.
  intros Hjson Htruthy Hshape. destruct teams; try discriminate Htruthy; try contradiction.
  - left. reflexivity.
  - left. reflexivity.
  - left. unfold holds_objects. cbn [get_length ev_bind ToNumber js_lt get_first].
    destruct s as [ | c s ]; [discriminate Htruthy | ]. simpl length.
    replace (0 <? Z.of_nat (S (length s))) with true by (symmetry; apply Z.ltb_lt; lia).
    reflexivity.
  - unfold holds_objects. cbn [get_length ev_bind get_first].
    destruct (ToNumber (obj_get (js "length") props)) as [n | | ] eqn:En; cbn [ev_bind].
    + left. destruct (js_lt (Num 0) n); [ | reflexivity].
      rewrite obj_get_integer_key; [reflexivity | | reflexivity].
      now rewrite <- json_value_obj.
    + destruct (obj_get (js "length") props); discriminate En.
    + right. reflexivity.
Qed.

(** X15. The teams a watch party carries.  [getWatchPartyTeams] never
    throws.  When [watchParty.teams] is an array it is returned as it is if
    its first element is an object, an array or [null], and an empty array
    is returned otherwise, so that the legacy format (an array of strings)
    gives no team; a missing party or a missing [teams] gives an empty
    array; and for every snapshot decoded from JSON the result is an array:
    the stored teams or an empty one. *)
Theorem getWatchPartyTeams_result (watchParty : jsval) :
  getWatchPartyTeams watchParty <> Exc
  /\ (forall teams : list jsval,
        truthy watchParty = true ->
        get_prop watchParty (js "teams") = Val (VArr teams) ->
        getWatchPartyTeams watchParty
        = Val (VArr (match teams with
                     | first :: _ => if typeof_object first then teams else []
                     | [] => []
                     end)))
  /\ (forall teams : jsval,
        truthy watchParty = false
        \/ (get_prop watchParty (js "teams") = Val teams /\ truthy teams = false) ->
        getWatchPartyTeams watchParty = Val (VArr []))
  /\ (forall result : jsval,
        json_value watchParty = true ->
        getWatchPartyTeams watchParty = Val result ->
        result = VArr [] \/ (exists teams, result = VArr teams
                                           /\ get_prop watchParty (js "teams") = Val result)).
Proof.
  assert (Harray : forall teams : list jsval,
            truthy watchParty = true ->
            get_prop watchParty (js "teams") = Val (VArr teams) ->
            getWatchPartyTeams watchParty
            = Val (VArr (match teams with
                         | first :: _ => if typeof_object first then teams else []
                         | [] => []
                         end))).
  { intros teams Htruthy Hteams. unfold getWatchPartyTeams.
    rewrite Htruthy, Hteams. cbn [negb ev_bind truthy]. rewrite holds_objects_array.
    cbn [ev_bind]. destruct teams as [ | first rest ]; [reflexivity | ].
    destruct (typeof_object first); reflexivity. }
  split; [ | split; [exact Harray | split ] ].
  - unfold getWatchPartyTeams. destruct (truthy watchParty) eqn:Htruthy; [ | discriminate].
    cbn [negb].
    destruct watchParty; try discriminate Htruthy; cbn [get_prop ev_bind truthy negb];
      try discriminate.
    destruct (truthy (obj_get (js "teams") props)) eqn:Hteams; [ | discriminate].
    cbn [negb]. unfold holds_objects.
    destruct (obj_get (js "teams") props) as [ | | b | n | s | l | ps ] eqn:E;
      try discriminate Hteams; cbn [get_length get_first ev_bind ToNumber js_lt].
    + discriminate.
    + discriminate.
    + destruct (0 <? Z.of_nat (length s)); cbn [ev_bind];
        [destruct (typeof_object _) | ]; discriminate.
    + destruct (0 <? Z.of_nat (length l)); cbn [ev_bind];
        [destruct (typeof_object _) | ]; discriminate.
    + destruct (ToNumber (obj_get (js "length") ps)) as [n | | ] eqn:En; cbn [ev_bind].
      * destruct n as [ | y ]; [ | destruct (0 <? y) ]; cbn [ev_bind];
          try destruct (typeof_object _); discriminate.
      * destruct (obj_get (js "length") ps); discriminate En.
      * discriminate.
  - intros teams [Hfalsy | [Hteams Hfalsy]]; unfold getWatchPartyTeams.
    + now rewrite Hfalsy.
    + destruct (truthy watchParty); [ | reflexivity]. cbn [negb].
      rewrite Hteams. cbn [ev_bind]. now rewrite Hfalsy.
  - intros result Hjson. destruct (truthy watchParty) eqn:Htruthy;
      [ | unfold getWatchPartyTeams; rewrite Htruthy; intros H; injection H as <-; now left ].
    destruct watchParty as [ | | b | n | s | l | props ]; try discriminate Htruthy;
      try (unfold getWatchPartyTeams; rewrite Htruthy;
           intros H; injection H as <-; now left).
    destruct (truthy (obj_get (js "teams") props)) eqn:Hteams;
      [ | unfold getWatchPartyTeams; cbn [truthy negb get_prop ev_bind];
          rewrite Hteams; intros H; injection H as <-; now left ].
    assert (Hjteams : json_value (obj_get (js "teams") props) = true).
    { apply members_ok_obj_get; [now rewrite <- json_value_obj | exact Hteams]. }
    assert (Hother : match obj_get (js "teams") props with VArr _ => False | _ => True end ->
                     getWatchPartyTeams (VObj props) = Val result -> result = VArr []).
    { intros Hshape. unfold getWatchPartyTeams. rewrite Htruthy.
      cbn [negb get_prop ev_bind]. rewrite Hteams. cbn [negb].
      destruct (holds_objects_json _ Hjteams Hteams Hshape) as [-> | ->];
        [ | discriminate ].
      intros H. injection H as <-. reflexivity. }
    destruct (obj_get (js "teams") props) as [ | | b | n | s | teams | ps ] eqn:E;
      try (intros H; left; now apply Hother).
    rewrite (Harray teams eq_refl) by (cbn [get_prop]; now rewrite E).
    intros H. injection H as <-.
    destruct teams as [ | first rest ]; [now left | ].
    destruct (typeof_object first); [ | now left].
    right. exists (first :: rest). split; [reflexivity | ]. cbn [get_prop]. now rewrite E.
Qed.

Lemma getWatchPartyTeams_result_witness :
  getWatchPartyTeams
    (VObj [ (js "teams", VArr [VStr (js "soccer-368"); VStr (js "nhl-20")]) ])
  = Val (VArr []).
Proof.
  refine (proj1 (proj2 (getWatchPartyTeams_result
            (VObj [ (js "teams", VArr [VStr (js "soccer-368"); VStr (js "nhl-20")]) ])))
            [VStr (js "soccer-368"); VStr (js "nhl-20")] _ _).
  - reflexivity.
  - reflexivity.
Defined.

(** ** Favourite teams: removing, reordering, asking *)

Lemma is_team_matches (teamId league t : jsval) :
  match t with VNull | VUndef => False | _ => True end ->
  is_team teamId league t = Val (team_matches teamId league t).
Proof.
  intros Ht. unfold is_team, team_matches, prop.
  destruct t; try contradiction; cbn [get_prop ev_bind];
    match goal with |- context [strict_eq ?a teamId] => destruct (strict_eq a teamId) end;
    reflexivity.
Qed.

Lemma same_team_matches (team t : jsval) :
  match t with VNull | VUndef => False | _ => True end ->
  match team with VNull | VUndef => False | _ => True end ->
  same_team team t = Val (team_matches (prop team (js "id")) (prop team (js "league")) t).
Proof.
  intros Ht Hteam. unfold same_team, team_matches, prop.
  destruct t; try contradiction; destruct team; try contradiction;
    cbn [get_prop ev_bind];
    match goal with |- context [if strict_eq ?a ?b then _ else _] =>
      destruct (strict_eq a b) end;
    reflexivity.
Qed.

Lemma no_null_cons (t : jsval) (l : list jsval) :
  no_null (t :: l) = true ->
  match t with VNull | VUndef => False | _ => True end /\ no_null l = true.
Proof.
  unfold no_null. cbn [forallb]. intros H. apply andb_true_iff in H as [Ht Hl].
  split; [ | exact Hl]. destruct t; try discriminate Ht; exact I.
Qed.

Lemma Array_some_matches (teamId league : jsval) (teams : list jsval) :
  no_null teams = true ->
  Array_some teams (is_team teamId league)
  = Val (existsb (team_matches teamId league) teams).
Proof.
  induction teams as [ | t r IH ]; intros Hn; [reflexivity | ].
  apply no_null_cons in Hn as [Ht Hr]. cbn [Array_some existsb].
  rewrite is_team_matches by assumption. cbn [ev_bind].
  destruct (team_matches teamId league t); [reflexivity | now apply IH].
Qed.

Lemma Array_some_same_team (team : jsval) (teams : list jsval) :
  no_null (team :: teams) = true ->
  Array_some teams (same_team team)
  = Val (existsb (team_matches (prop team (js "id")) (prop team (js "league"))) teams).
Proof.
  intros Hn. apply no_null_cons in Hn as [Hteam Hn].
  induction teams as [ | t r IH ]; [reflexivity | ].
  apply no_null_cons in Hn as [Ht Hr]. cbn [Array_some existsb].
  rewrite same_team_matches by assumption. cbn [ev_bind].
  destruct (team_matches _ _ t); [reflexivity | now apply IH].
Qed.

Lemma Array_filter_matches (teamId league : jsval) (teams : list jsval) :
  no_null teams = true ->
  Array_filter teams (fun t => let+ same := is_team teamId league t in Val (negb same))
  = Val (List.filter (fun t => negb (team_matches teamId league t)) teams).
Proof.
  induction teams as [ | t r IH ]; intros Hn; [reflexivity | ].
  apply no_null_cons in Hn as [Ht Hr]. cbn [Array_filter List.filter].
  rewrite is_team_matches by assumption. cbn [ev_bind]. rewrite IH by assumption.
  cbn [ev_bind]. reflexivity.
Qed.

Lemma findIndex_from_matches (teamId league : jsval) (before : list jsval) (x : jsval)
    (after : list jsval) (i : Z) :
  no_null (before ++ x :: after) = true ->
  existsb (team_matches teamId league) before = false ->
  team_matches teamId league x = true ->
  findIndex_from i (before ++ x :: after) (is_team teamId league)
  = Val (i + Z.of_nat (length before)).
Proof.
  revert i. induction before as [ | t r IH ]; intros i Hn Hbefore Hx.
  - cbn [app findIndex_from]. apply no_null_cons in Hn as [Ht _].
    rewrite is_team_matches by assumption. cbn [ev_bind]. rewrite Hx.
    f_equal. simpl. lia.
  - cbn [app findIndex_from]. apply no_null_cons in Hn as [Ht Hr].
    cbn [existsb] in Hbefore. apply orb_false_iff in Hbefore as [Hnot Hbefore].
    rewrite is_team_matches by assumption. cbn [ev_bind]. rewrite Hnot.
    rewrite IH by assumption. f_equal. simpl length. lia.
Qed.

Lemma findIndex_from_none (teamId league : jsval) (teams : list jsval) (i : Z) :
  no_null teams = true ->
  existsb (team_matches teamId league) teams = false ->
  findIndex_from i teams (is_team teamId league) = Val (-1).
Proof.
  revert i. induction teams as [ | t r IH ]; intros i Hn Hnone; [reflexivity | ].
  cbn [findIndex_from]. apply no_null_cons in Hn as [Ht Hr].
  cbn [existsb] in Hnone. apply orb_false_iff in Hnone as [Hnot Hnone].
  rewrite is_team_matches by assumption. cbn [ev_bind]. rewrite Hnot. now apply IH.
Qed.

Lemma forallb_filter_json (f : jsval -> bool) (l : list jsval) :
  forallb json_value l = true -> forallb json_value (List.filter f l) = true.
Proof.
  intros Hl. apply forallb_forall. intros x Hx. apply filter_In in Hx as [Hx _].
  rewrite forallb_forall in Hl. now apply Hl.
Qed.

Lemma existsb_filter_negb (f : jsval -> bool) (l : list jsval) :
  existsb f (List.filter (fun t => negb (f t)) l) = false.
Proof.
  apply not_true_is_false. intros H. apply existsb_exists in H as (x & Hx & Hf).
  apply filter_In in Hx as [_ Hnot]. rewrite Hf in Hnot. discriminate.
Qed.

Lemma saveFavoriteTeams_run (teams : list jsval) (w : World) :
  working (localStorage w) ->
  saveFavoriteTeams teams w
  = Ret tt (stored FAVORITE_TEAMS_KEY (SerializeJSON (VArr teams)) w).
Proof.
  intros Hw. unfold saveFavoriteTeams. now rewrite localStorage_setItem_working.
Qed.

Lemma getFavoriteTeams_saved (teams : list jsval) (d : bool) (w : World) :
  denied (localStorage w) = false -> forallb json_value teams = true ->
  getFavoriteTeams (saved_teams teams d w)
  = match teams with
    | [] => Ret (DEFAULT_TEAMS (saved_teams teams d w), true) (saved_teams teams d w)
    | _ :: _ => Ret (teams, false) (saved_teams teams d w)
    end.
Proof.
  intros Hd Hjson. apply getFavoriteTeams_stored; [ | | exact Hjson].
  - destruct d; exact Hd.
  - cbn. apply lookup_insert_eq.
Qed.

(** X16. Removing a favourite team.  On a store that accepts the write, with
    a list of JSON records, [removeFavoriteTeam] stores the list without the
    teams that have the id and the league, the others in their order.  While
    a team is left, the stored list is the list of favourites and
    [isFavorite] answers [false] for the team removed; when none is left the
    empty array is stored and the favourites are the default teams again. *)
Theorem removeFavoriteTeam_removes (w : World) (teams : list jsval) (d : bool)
    (teamId league : jsval) :
  getFavoriteTeams w = Ret (teams, d) w ->
  no_null teams = true -> forallb json_value teams = true ->
  working (localStorage w) ->
  let kept := List.filter (fun t => negb (team_matches teamId league t)) teams in
  let w' := saved_teams kept false w in
  removeFavoriteTeam teamId league w = Ret tt w'
  /\ (kept <> [] ->
      getFavoriteTeams w' = Ret (kept, false) w'
      /\ isFavorite teamId league w' = Ret false w')
  /\ (kept = [] -> getFavoriteTeams w' = Ret (DEFAULT_TEAMS w, true) w').
Proof.
  intros Hget Hn Hjson Hworking kept w'.
  assert (Hkjson : forallb json_value kept = true) by now apply forallb_filter_json.
  pose proof Hworking as [Hd _].
  pose proof (getFavoriteTeams_saved kept false w Hd Hkjson) as Hsaved.
  fold w' in Hsaved.
  split; [ | split].
  - unfold removeFavoriteTeam, bind. rewrite Hget.
    rewrite Array_filter_matches by assumption. cbn [lift].
    now rewrite saveFavoriteTeams_run.
  - intros Hkept. destruct kept as [ | t r ] eqn:E; [contradiction | ].
    split; [exact Hsaved | ].
    unfold isFavorite, bind. rewrite Hsaved.
    rewrite Array_some_matches.
    + rewrite <- E. unfold kept. now rewrite existsb_filter_negb.
    + rewrite <- E. unfold kept. apply forallb_forall. intros x Hx.
      apply filter_In in Hx as [Hx _]. unfold no_null in Hn.
      rewrite forallb_forall in Hn. now apply Hn.
  - intros Hkept. rewrite Hkept in Hsaved. exact Hsaved.
Qed.

Lemma removeFavoriteTeam_removes_witness :
  removeFavoriteTeam (VStr (js "368")) (VStr (js "premier-league")) first_visit
  = Ret tt
      (saved_teams
         (List.filter
            (fun t => negb (team_matches (VStr (js "368")) (VStr (js "premier-league")) t))
            DEFAULT_TEAMS_literal)
         false first_visit).
Proof.
  refine (proj1 (removeFavoriteTeam_removes first_visit DEFAULT_TEAMS_literal true
                   (VStr (js "368")) (VStr (js "premier-league")) _ _ _ _)).
  - reflexivity.
  - reflexivity.
  - vm_compute. reflexivity.
  - split; reflexivity.
Defined.

Lemma strict_eq_primitive (v : jsval) : primitive v = true -> strict_eq v v = true.
Proof.
  destruct v; try discriminate; intros _; simpl; try reflexivity.
  - apply eqb_reflx.
  - apply Z.eqb_refl.
  - unfold jsstring_eqb. now apply bool_decide_eq_true_2.
Qed.

Lemma no_null_app (l : list jsval) (t : jsval) :
  no_null (t :: l) = true -> no_null (l ++ [t]) = true.
Proof.
  unfold no_null. rewrite forallb_app. cbn [forallb].
  intros H. apply andb_true_iff in H as [-> ->]. reflexivity.
Qed.

(** X17. Adding a favourite team and asking for it.  When the list has room,
    holds JSON records and no team with the id and league of the new one
    (both compared by content), on a store that accepts the write:
    [addFavoriteTeam] returns [true], the favourites are then the old list
    followed by the team, [isFavorite] answers [true] for its id and league,
    and adding the same team again returns [false] and leaves the store as
    it is. *)
Theorem addFavoriteTeam_then_isFavorite (w : World) (teams : list jsval) (d : bool)
    (team : jsval) :
  getFavoriteTeams w = Ret (teams, d) w ->
  (length teams < MAX_TEAMS)%nat ->
  no_null (team :: teams) = true -> forallb json_value (team :: teams) = true ->
  primitive (prop team (js "id")) = true -> primitive (prop team (js "league")) = true ->
  existsb (team_matches (prop team (js "id")) (prop team (js "league"))) teams = false ->
  working (localStorage w) ->
  let w' := saved_teams (teams ++ [team]) d w in
  addFavoriteTeam team w = Ret true w'
  /\ getFavoriteTeams w' = Ret (teams ++ [team], false) w'
  /\ isFavorite (prop team (js "id")) (prop team (js "league")) w' = Ret true w'
  /\ exists w'' : World,
       addFavoriteTeam team w' = Ret false w'' /\ localStorage w'' = localStorage w'.
Proof.
  intros Hget Hlt Hn Hjson Hid Hleague Hnew Hworking w'.
  pose proof Hworking as [Hd _].
  assert (Hjson' : forallb json_value (teams ++ [team]) = true).
  { cbn [forallb] in Hjson. apply andb_true_iff in Hjson as [Hteam Hteams].
    now apply forallb_json_app. }
  pose proof (getFavoriteTeams_saved (teams ++ [team]) d w Hd Hjson') as Hsaved.
  fold w' in Hsaved.
  assert (Hsaved' : getFavoriteTeams w' = Ret (teams ++ [team], false) w').
  { destruct (teams ++ [team]) eqn:E; [ | exact Hsaved].
    apply app_eq_nil in E as [_ E]. discriminate E. }
  assert (Hmatch : existsb (team_matches (prop team (js "id")) (prop team (js "league")))
                     (teams ++ [team]) = true).
  { rewrite existsb_app. cbn [existsb]. unfold team_matches at 2.
    rewrite !strict_eq_primitive by assumption. now rewrite orb_true_r. }
  split; [ | split; [exact Hsaved' | split] ].
  - unfold addFavoriteTeam, bind. rewrite Hget.
    apply Nat.leb_gt in Hlt. rewrite Hlt.
    rewrite Array_some_same_team by assumption. unfold lift at 1. rewrite Hnew.
    rewrite saveFavoriteTeams_run by (destruct d; exact Hworking). reflexivity.
  - unfold isFavorite, bind. rewrite Hsaved'.
    rewrite Array_some_matches by (now apply no_null_app). now rewrite Hmatch.
  - unfold addFavoriteTeam, bind. rewrite Hsaved'.
    destruct (MAX_TEAMS <=? length (teams ++ [team]))%nat.
    + eexists. split; reflexivity.
    + rewrite Array_some_same_team.
      * unfold lift. rewrite Hmatch. eexists. split; reflexivity.
      * apply no_null_cons in Hn as [Hteam Hteams]. unfold no_null in *.
        cbn [forallb]. rewrite forallb_app. cbn [forallb]. rewrite Hteams.
        destruct team; try contradiction; reflexivity.
Qed.

Lemma addFavoriteTeam_then_isFavorite_witness :
  addFavoriteTeam arsenal first_visit
  = Ret true (saved_teams (DEFAULT_TEAMS_literal ++ [arsenal]) true first_visit).
Proof.
  refine (proj1 (addFavoriteTeam_then_isFavorite first_visit DEFAULT_TEAMS_literal true
                   arsenal _ _ _ _ _ _ _ _)).
  - reflexivity.
  - unfold MAX_TEAMS. simpl. lia.
  - reflexivity.
  - vm_compute. reflexivity.
  - reflexivity.
  - reflexivity.
  - vm_compute. reflexivity.
  - split; reflexivity.
Defined.

Lemma Array_get_middle (before : list jsval) (x : jsval) (after : list jsval) :
  Array_get (length before) (before ++ x :: after) = x.
Proof. unfold Array_get. now rewrite list_lookup_middle. Qed.

Lemma Array_set_middle (before : list jsval) (x v : jsval) (after : list jsval) :
  Array_set (length before) v (before ++ x :: after) = before ++ v :: after.
Proof.
  unfold Array_set.
  replace (length before <? length (before ++ x :: after))%nat with true.
  - induction before as [ | t r IH ]; [reflexivity | ]. simpl. now rewrite IH.
  - symmetry. apply Nat.ltb_lt. rewrite length_app. simpl. lia.
Qed.

Lemma Array_get_next (before : list jsval) (x y : jsval) (after : list jsval) :
  Array_get (S (length before)) (before ++ x :: y :: after) = y.
Proof.
  replace (before ++ x :: y :: after) with ((before ++ [x]) ++ y :: after)
    by now rewrite <- app_assoc.
  replace (S (length before)) with (length (before ++ [x]))
    by (rewrite length_app; simpl; lia).
  apply Array_get_middle.
Qed.

Lemma Array_set_next (before : list jsval) (x y v : jsval) (after : list jsval) :
  Array_set (S (length before)) v (before ++ x :: y :: after) = before ++ x :: v :: after.
Proof.
  replace (before ++ x :: y :: after) with ((before ++ [x]) ++ y :: after)
    by now rewrite <- app_assoc.
  replace (S (length before)) with (length (before ++ [x]))
    by (rewrite length_app; simpl; lia).
  rewrite Array_set_middle. now rewrite <- app_assoc.
Qed.

Lemma moveFavoriteTeam_found (w : World) (teams : list jsval) (d : bool)
    (teamId league direction : jsval) (before : list jsval) (x : jsval)
    (after : list jsval) :
  getFavoriteTeams w = Ret (teams, d) w ->
  no_null teams = true ->
  teams = before ++ x :: after ->
  existsb (team_matches teamId league) before = false ->
  team_matches teamId league x = true ->
  moveFavoriteTeam teamId league direction w
  = let index := Z.of_nat (length before) in
    let newIndex :=
      if strict_eq direction (VStr (js "up")) then index - 1 else index + 1 in
    if (newIndex <? 0) || (Z.of_nat (length teams) <=? newIndex) then Ret tt w
    else
      let teams' :=
        Array_set (Z.to_nat newIndex) (Array_get (Z.to_nat index) teams)
          (Array_set (Z.to_nat index) (Array_get (Z.to_nat newIndex) teams) teams) in
      saveFavoriteTeams teams' (if d then set_DEFAULT_TEAMS teams' w else w).
Proof.
  intros Hget Hn Hteams Hbefore Hx. unfold moveFavoriteTeam, bind. rewrite Hget.
  unfold Array_findIndex. rewrite Hteams at 1.
  rewrite (findIndex_from_matches teamId league before x after 0)
    by (try rewrite <- Hteams; assumption).
  cbn [lift]. rewrite Z.add_0_l.
  replace (Z.of_nat (length before) =? -1) with false by (symmetry; apply Z.eqb_neq; lia).
  cbv zeta.
  destruct ((_ <? 0) || (_ <=? _)); reflexivity.
Qed.

(** X18. Reordering the favourites.  With a list of JSON records and a store
    that accepts the write, [moveFavoriteTeam] exchanges the first team that
    has the id and the league with its neighbour (the one before it for
    ['up'], the one after it for any other direction), leaves every other
    team in place and stores the list; the array [DEFAULT_TEAMS] itself is
    reordered when the list came from it.  At the end of the list in that
    direction, or when no team has the id and the league, nothing is
    changed and nothing is written. *)
Theorem moveFavoriteTeam_swaps (w : World) (teams : list jsval) (d : bool)
    (teamId league : jsval) :
  getFavoriteTeams w = Ret (teams, d) w ->
  no_null teams = true -> forallb json_value teams = true ->
  working (localStorage w) ->
  (forall (before : list jsval) (y x : jsval) (after : list jsval),
     teams = before ++ y :: x :: after ->
     existsb (team_matches teamId league) (before ++ [y]) = false ->
     team_matches teamId league x = true ->
     let teams' := before ++ x :: y :: after in
     moveFavoriteTeam teamId league (VStr (js "up")) w = Ret tt (saved_teams teams' d w)
     /\ getFavoriteTeams (saved_teams teams' d w) = Ret (teams', false) (saved_teams teams' d w)
     /\ (d = true -> DEFAULT_TEAMS (saved_teams teams' d w) = teams'))
  /\ (forall (before : list jsval) (x y : jsval) (after : list jsval) (direction : jsval),
        direction <> VStr (js "up") ->
        teams = before ++ x :: y :: after ->
        existsb (team_matches teamId league) before = false ->
        team_matches teamId league x = true ->
        let teams' := before ++ y :: x :: after in
        moveFavoriteTeam teamId league direction w = Ret tt (saved_teams teams' d w)
        /\ getFavoriteTeams (saved_teams teams' d w)
           = Ret (teams', false) (saved_teams teams' d w)
        /\ (d = true -> DEFAULT_TEAMS (saved_teams teams' d w) = teams'))
  /\ (forall (x : jsval) (after : list jsval),
        teams = x :: after -> team_matches teamId league x = true ->
        moveFavoriteTeam teamId league (VStr (js "up")) w = Ret tt w)
  /\ (forall (before : list jsval) (x : jsval) (direction : jsval),
        direction <> VStr (js "up") ->
        teams = before ++ [x] ->
        existsb (team_matches teamId league) before = false ->
        team_matches teamId league x = true ->
        moveFavoriteTeam teamId league direction w = Ret tt w)
  /\ (forall direction : jsval,
        existsb (team_matches teamId league) teams = false ->
        moveFavoriteTeam teamId league direction w = Ret tt w).
Proof.
  intros Hget Hn Hjson Hworking.
  pose proof Hworking as [Hd _].
  assert (Hsaved : forall teams' : list jsval,
            Permutation teams' teams -> teams' <> [] ->
            getFavoriteTeams (saved_teams teams' d w)
            = Ret (teams', false) (saved_teams teams' d w)
            /\ (d = true -> DEFAULT_TEAMS (saved_teams teams' d w) = teams')).
  { intros teams' Hperm Hne. split.
    - rewrite getFavoriteTeams_saved; [ | exact Hd | ].
      + destruct teams'; [contradiction | reflexivity].
      + apply forallb_forall. intros t Ht. rewrite forallb_forall in Hjson.
        apply Hjson. now apply (Permutation_in _ Hperm).
    - intros ->. reflexivity. }
  assert (Hdown : forall direction : jsval,
            direction <> VStr (js "up") -> strict_eq direction (VStr (js "up")) = false).
  { intros direction Hdir. apply not_true_is_false. intros H.
    now apply strict_eq_VStr in H. }
  split; [ | split; [ | split; [ | split ] ] ].
  - intros before y x after Hteams Hbefore Hx teams'.
    rewrite existsb_app in Hbefore. cbn [existsb] in Hbefore.
    apply orb_false_iff in Hbefore as [Hbefore Hy]. rewrite orb_false_r in Hy.
    assert (Hteams2 : teams = (before ++ [y]) ++ x :: after)
      by now rewrite <- app_assoc.
    rewrite (moveFavoriteTeam_found w teams d teamId league (VStr (js "up"))
               (before ++ [y]) x after Hget Hn Hteams2);
      [ | rewrite existsb_app; cbn [existsb]; now rewrite Hbefore, Hy | exact Hx ].
    cbv zeta. change (strict_eq (VStr (js "up")) (VStr (js "up"))) with true. cbv iota.
    rewrite length_app. cbn [length].
    replace (Z.of_nat (length before + 1) - 1) with (Z.of_nat (length before)) by lia.
    replace (Z.of_nat (length before) <? 0) with false by (symmetry; apply Z.ltb_ge; lia).
    replace (Z.of_nat (length teams) <=? Z.of_nat (length before)) with false
      by (symmetry; apply Z.leb_gt; rewrite Hteams, length_app; simpl; lia).
    cbn [orb]. rewrite !Nat2Z.id.
    replace (length before + 1)%nat with (S (length before)) by lia.
    rewrite Hteams. rewrite Array_get_middle, Array_get_next, Array_set_next,
      Array_set_middle.
    fold teams'. rewrite saveFavoriteTeams_run by (destruct d; exact Hworking).
    split; [reflexivity | ]. apply Hsaved.
    + rewrite Hteams. unfold teams'. apply Permutation_app_head. apply perm_swap.
    + unfold teams'. now destruct before.
  - intros before x y after direction Hdir Hteams Hbefore Hx teams'.
    rewrite (moveFavoriteTeam_found w teams d teamId league direction
               before x (y :: after) Hget Hn Hteams Hbefore Hx).
    cbv zeta. rewrite (Hdown direction Hdir).
    replace (Z.of_nat (length before) + 1 <? 0) with false
      by (symmetry; apply Z.ltb_ge; lia).
    replace (Z.of_nat (length teams) <=? Z.of_nat (length before) + 1) with false
      by (symmetry; apply Z.leb_gt; rewrite Hteams, length_app; simpl; lia).
    cbn [orb]. rewrite Nat2Z.id.
    replace (Z.to_nat (Z.of_nat (length before) + 1)) with (S (length before)) by lia.
    rewrite Hteams. rewrite Array_get_middle, Array_get_next, Array_set_middle,
      Array_set_next.
    fold teams'. rewrite saveFavoriteTeams_run by (destruct d; exact Hworking).
    split; [reflexivity | ]. apply Hsaved.
    + rewrite Hteams. unfold teams'. apply Permutation_app_head. apply perm_swap.
    + unfold teams'. now destruct before.
  - intros x after Hteams Hx.
    rewrite (moveFavoriteTeam_found w teams d teamId league (VStr (js "up"))
               [] x after Hget Hn Hteams eq_refl Hx).
    reflexivity.
  - intros before x direction Hdir Hteams Hbefore Hx.
    rewrite (moveFavoriteTeam_found w teams d teamId league direction
               before x [] Hget Hn Hteams Hbefore Hx).
    cbv zeta. rewrite (Hdown direction Hdir).
    replace (Z.of_nat (length teams) <=? Z.of_nat (length before) + 1) with true
      by (symmetry; apply Z.leb_le; rewrite Hteams, length_app; simpl; lia).
    now rewrite orb_true_r.
  - intros direction Hnone. unfold moveFavoriteTeam, bind. rewrite Hget.
    unfold Array_findIndex. rewrite findIndex_from_none by assumption. reflexivity.
Qed.

Lemma moveFavoriteTeam_swaps_witness :
  moveFavoriteTeam (VStr (js "27")) (VStr (js "nfl")) (VStr (js "up")) first_visit
  = Ret tt
      (saved_teams
         ([] ++ team_object "Tampa Bay Buccaneers" "27" "nfl" "football" "football/nfl"
                  "https://a.espncdn.com/i/teamlogos/nfl/500/tb.png"
             :: everton
             :: [ team_object "Tampa Bay Lightning" "20" "nhl" "hockey" "hockey/nhl"
                    "https://a.espncdn.com/i/teamlogos/nhl/500/tb.png";
                  team_object "Tampa Bay Rays" "30" "mlb" "baseball" "baseball/mlb"
                    "https://a.espncdn.com/i/teamlogos/mlb/500/tb.png" ])
         true first_visit).
Proof.
  refine (proj1 (proj1 (moveFavoriteTeam_swaps first_visit DEFAULT_TEAMS_literal true
                          (VStr (js "27")) (VStr (js "nfl")) _ _ _ _)
                   [] everton _ _ _ _ _)).
  - reflexivity.
  - reflexivity.
  - vm_compute. reflexivity.
  - split; reflexivity.
  - reflexivity.
  - vm_compute. reflexivity.
  - vm_compute. reflexivity.
Defined.

(** ** Must-watch games *)

Lemma getMustWatchGames_stored (w : World) (v : jsval) :
  denied (localStorage w) = false ->
  items (localStorage w) !! MUST_WATCH_KEY = Some (SerializeJSON v) ->
  json_value v = true ->
  getMustWatchGames w = Ret v w.
Proof.
  intros Hd Hitems Hjson. unfold getMustWatchGames, try_catch, bind.
  rewrite localStorage_getItem_items, Hitems by assumption.
  rewrite SerializeJSON_truthy. unfold lift. now rewrite JSON_parse_SerializeJSON.
Qed.

Lemma getMustWatchGames_absent (w : World) :
  items (localStorage w) !! MUST_WATCH_KEY = None ->
  getMustWatchGames w = Ret (VArr []) w.
Proof.
  intros Hitems. unfold getMustWatchGames, try_catch, bind, localStorage_getItem,
    Storage_getItem.
  destruct (denied (localStorage w)); [reflexivity | ]. now rewrite Hitems.
Qed.

Lemma saveMustWatchGames_run (ids : list jsval) (w : World) :
  working (localStorage w) ->
  saveMustWatchGames (VArr ids) w
  = Ret tt (stored MUST_WATCH_KEY (SerializeJSON (VArr ids)) w).
Proof.
  intros Hw. unfold saveMustWatchGames. now rewrite localStorage_setItem_working.
Qed.

Lemma strict_eq_eq (a b : jsval) : strict_eq a b = true -> a = b.
Proof.
  destruct a, b; simpl; try discriminate; try reflexivity.
  - intros H. apply eqb_prop in H. congruence.
  - intros H. apply Z.eqb_eq in H. congruence.
  - unfold jsstring_eqb. intros H. apply bool_decide_eq_true in H. congruence.
Qed.

Lemma Array_filter_includes (current ids : list jsval) :
  Array_filter ids (fun id => call_includes (VArr current) id)
  = Val (List.filter (Array_includes current) ids).
Proof.
  induction ids as [ | id r IH ]; [reflexivity | ].
  cbn [Array_filter List.filter]. rewrite IH. reflexivity.
Qed.

Lemma filter_same_length (f : jsval -> bool) (l : list jsval) :
  length (List.filter f l) = length l -> List.filter f l = l.
Proof.
  induction l as [ | x r IH ]; [reflexivity | ]. cbn [List.filter].
  destruct (f x); cbn [length]; intros H.
  - f_equal. apply IH. lia.
  - pose proof (filter_length_le f r). lia.
Qed.

Lemma Array_includes_filter (current ids : list jsval) (x : jsval) :
  Array_includes (List.filter (Array_includes current) ids) x
  = Array_includes ids x && Array_includes current x.
Proof.
  unfold Array_includes at 1 3.
  destruct (existsb (fun e => strict_eq e x) ids) eqn:E; cbn [andb].
  - apply existsb_exists in E as (e & He & Heq).
    pose proof (strict_eq_eq e x Heq) as ->.
    destruct (Array_includes current x) eqn:Ec.
    + apply existsb_exists. exists x. split; [ | exact Heq].
      apply filter_In. now split.
    + apply not_true_is_false. intros H. apply existsb_exists in H as (e & He' & Heq').
      apply filter_In in He' as [_ Hc]. pose proof (strict_eq_eq e x Heq') as ->.
      congruence.
  - apply not_true_is_false. intros H. apply existsb_exists in H as (e & He & Heq).
    apply filter_In in He as [He _].
    assert (existsb (fun e => strict_eq e x) ids = true) by (apply existsb_exists; eauto).
    congruence.
Qed.

Lemma filter_filter_same (f : jsval -> bool) (l : list jsval) :
  List.filter f (List.filter f l) = List.filter f l.
Proof.
  induction l as [ | x r IH ]; [reflexivity | ]. cbn [List.filter].
  destruct (f x) eqn:E; [ | exact IH]. cbn [List.filter]. now rewrite E, IH.
Qed.

Lemma cleanupOldMustWatch_run (w : World) (ids current : list jsval) :
  getMustWatchGames w = Ret (VArr ids) w ->
  cleanupOldMustWatch (VArr current) w
  = if negb (length (List.filter (Array_includes current) ids) =? length ids)%nat
    then saveMustWatchGames (VArr (List.filter (Array_includes current) ids)) w
    else Ret tt w.
Proof.
  intros Hget. unfold cleanupOldMustWatch, bind. rewrite Hget.
  rewrite Array_filter_includes. cbn [lift].
  destruct (negb _); reflexivity.
Qed.

(** X19. Cleaning the must-watch list.  With a stored array of game ids,
    [cleanupOldMustWatch(currentGameIds)] keeps the ids that are among
    [currentGameIds], in their order.  When every stored id is current it
    writes nothing; otherwise, on a store that accepts the write, it stores
    the ids kept, after which [isMustWatch] answers [true] exactly for the
    ids that were stored and are current, and a second clean-up with the
    same ids writes nothing.  With nothing stored it does nothing; with a
    stored JSON value that is not an array it throws. *)
Theorem cleanupOldMustWatch_keeps_current (w : World) (ids current : list jsval) :
  denied (localStorage w) = false ->
  items (localStorage w) !! MUST_WATCH_KEY = Some (SerializeJSON (VArr ids)) ->
  forallb json_value ids = true ->
  let valid := List.filter (Array_includes current) ids in
  (valid = ids -> cleanupOldMustWatch (VArr current) w = Ret tt w)
  /\ (valid <> ids -> full (localStorage w) = false ->
      let w' := stored MUST_WATCH_KEY (SerializeJSON (VArr valid)) w in
      cleanupOldMustWatch (VArr current) w = Ret tt w'
      /\ getMustWatchGames w' = Ret (VArr valid) w'
      /\ (forall gameId : jsval,
            isMustWatch gameId w'
            = Ret (Array_includes ids gameId && Array_includes current gameId) w')
      /\ cleanupOldMustWatch (VArr current) w' = Ret tt w')
  /\ (forall w0 : World,
        items (localStorage w0) !! MUST_WATCH_KEY = None ->
        cleanupOldMustWatch (VArr current) w0 = Ret tt w0)
  /\ (forall (w0 : World) (v : jsval),
        denied (localStorage w0) = false ->
        items (localStorage w0) !! MUST_WATCH_KEY = Some (SerializeJSON v) ->
        json_value v = true ->
        match v with VArr _ => False | _ => True end ->
        cleanupOldMustWatch (VArr current) w0 = Throw w0).
Proof.
  intros Hd Hitems Hjson valid.
  assert (Hget : getMustWatchGames w = Ret (VArr ids) w)
    by now apply getMustWatchGames_stored.
  split; [ | split; [ | split ] ].
  - intros Hvalid. rewrite (cleanupOldMustWatch_run w ids current Hget).
    fold valid. rewrite Hvalid, Nat.eqb_refl. reflexivity.
  - intros Hvalid Hf w'.
    assert (Hjv : forallb json_value valid = true) by now apply forallb_filter_json.
    assert (Hget' : getMustWatchGames w' = Ret (VArr valid) w').
    { apply getMustWatchGames_stored; [exact Hd | cbn; apply lookup_insert_eq | exact Hjv]. }
    split; [ | split; [exact Hget' | split] ].
    + rewrite (cleanupOldMustWatch_run w ids current Hget). fold valid.
      destruct (length valid =? length ids)%nat eqn:E.
      * apply Nat.eqb_eq in E. apply filter_same_length in E. contradiction.
      * cbn [negb]. now rewrite saveMustWatchGames_run.
    + intros gameId. unfold isMustWatch, bind. rewrite Hget'. cbn [call_includes lift].
      unfold valid. now rewrite Array_includes_filter.
    + rewrite (cleanupOldMustWatch_run w' valid current Hget').
      unfold valid at 1 3. rewrite filter_filter_same. fold valid.
      now rewrite Nat.eqb_refl.
  - intros w0 Hnone.
    rewrite (cleanupOldMustWatch_run w0 [] current (getMustWatchGames_absent w0 Hnone)).
    reflexivity.
  - intros w0 v Hd0 Hitems0 Hjv Hshape. unfold cleanupOldMustWatch, bind.
    rewrite (getMustWatchGames_stored w0 v Hd0 Hitems0 Hjv).
    destruct v; try contradiction; reflexivity.
Qed.

Lemma cleanupOldMustWatch_keeps_current_witness :
  cleanupOldMustWatch (VArr [VStr (js "401584893")])
    (stored MUST_WATCH_KEY
       (SerializeJSON (VArr [VStr (js "401584001"); VStr (js "401584893")])) first_visit)
  = Ret tt
      (stored MUST_WATCH_KEY (SerializeJSON (VArr [VStr (js "401584893")]))
         (stored MUST_WATCH_KEY
            (SerializeJSON (VArr [VStr (js "401584001"); VStr (js "401584893")]))
            first_visit)).
Proof.
  refine (proj1 (proj1 (proj2 (cleanupOldMustWatch_keeps_current
            (stored MUST_WATCH_KEY
               (SerializeJSON (VArr [VStr (js "401584001"); VStr (js "401584893")]))
               first_visit)
            [VStr (js "401584001"); VStr (js "401584893")] [VStr (js "401584893")]
            _ _ _)) _ _)).
  - reflexivity.
  - reflexivity.
  - reflexivity.
  - vm_compute. discriminate.
  - reflexivity.
Defined.

Lemma indexOf_from_none (ids : list jsval) (x : jsval) (i : Z) :
  Array_includes ids x = false -> indexOf_from i ids x = -1.
Proof.
  revert i. induction ids as [ | y r IH ]; intros i H; [reflexivity | ].
  unfold Array_includes in H. cbn [existsb] in H.
  apply orb_false_iff in H as [Hy Hr]. cbn [indexOf_from]. rewrite Hy. now apply IH.
Qed.

Lemma indexOf_from_middle (before : list jsval) (y : jsval) (after : list jsval)
    (x : jsval) (i : Z) :
  Array_includes before x = false -> strict_eq y x = true ->
  indexOf_from i (before ++ y :: after) x = i + Z.of_nat (length before).
Proof.
  revert i. induction before as [ | t r IH ]; intros i Hbefore Hy.
  - cbn [app indexOf_from]. rewrite Hy. simpl. lia.
  - unfold Array_includes in Hbefore. cbn [existsb] in Hbefore.
    apply orb_false_iff in Hbefore as [Ht Hr].
    cbn [app indexOf_from]. rewrite Ht. rewrite IH by assumption. simpl length. lia.
Qed.

Lemma Array_includes_split (ids : list jsval) (x : jsval) :
  Array_includes ids x = true ->
  exists before y after,
    ids = before ++ y :: after /\ Array_includes before x = false /\ strict_eq y x = true.
Proof.
  induction ids as [ | t r IH ]; [discriminate | ].
  unfold Array_includes. cbn [existsb]. destruct (strict_eq t x) eqn:Et.
  - intros _. exists [], t, r. repeat split; assumption.
  - cbn [orb]. intros H. destruct (IH H) as (before & y & after & -> & Hb & Hy).
    exists (t :: before), y, after. split; [reflexivity | ]. split; [ | exact Hy].
    unfold Array_includes. cbn [existsb]. now rewrite Et.
Qed.

Lemma Array_includes_elem (ids : list jsval) (x : jsval) :
  primitive x = true -> x ∈ ids -> Array_includes ids x = true.
Proof.
  intros Hx Hin. apply existsb_exists. exists x. split.
  - now apply list_elem_of_In.
  - now apply strict_eq_primitive.
Qed.

(** X20. Toggling a must-watch game.  With a stored list of distinct ids (or
    none stored yet) and a store that accepts the write, [toggleMustWatch]
    of an id compared by content stores a list in which the id is present
    exactly when it was absent before, the other ids are present as
    before, and no id occurs twice; it then calls [loadSchedules] in the
    state with the list stored. *)
Theorem toggleMustWatch_flips (loadSchedules : M unit) (w : World) (ids : list jsval)
    (gameId : jsval) :
  getMustWatchGames w = Ret (VArr ids) w ->
  working (localStorage w) ->
  primitive gameId = true -> NoDup ids ->
  exists ids' : list jsval,
    toggleMustWatch loadSchedules gameId w
    = loadSchedules (stored MUST_WATCH_KEY (SerializeJSON (VArr ids')) w)
    /\ Array_includes ids' gameId = negb (Array_includes ids gameId)
    /\ (forall other : jsval,
          other <> gameId -> Array_includes ids' other = Array_includes ids other)
    /\ NoDup ids'
    /\ (forall x : jsval, x ∈ ids' -> x ∈ ids \/ x = gameId).
Proof.
  intros Hget Hworking Hprim Hnodup.
  assert (Hother : forall other : jsval, other <> gameId -> strict_eq gameId other = false).
  { intros other Hne. apply not_true_is_false. intros H.
    apply strict_eq_eq in H. congruence. }
  destruct (Array_includes ids gameId) eqn:Hin.
  - destruct (Array_includes_split ids gameId Hin) as (before & y & after & Hids & Hb & Hy).
    pose proof (strict_eq_eq y gameId Hy) as ->.
    exists (before ++ after). split; [ | split; [ | split; [ | split ] ] ].
    + unfold toggleMustWatch, bind. rewrite Hget. unfold toggled_games, Array_indexOf.
      rewrite Hids. rewrite indexOf_from_middle by assumption.
      replace (0 + Z.of_nat (length before) =? -1) with false
        by (symmetry; apply Z.eqb_neq; lia).
      rewrite Z.add_0_l, Nat2Z.id. rewrite delete_middle. cbn [lift].
      now rewrite saveMustWatchGames_run.
    + cbn [negb]. rewrite Hids in Hnodup.
      apply NoDup_app in Hnodup as (_ & _ & Hafter).
      apply NoDup_cons in Hafter as [Hnotin _].
      unfold Array_includes. rewrite existsb_app. fold (Array_includes before gameId).
      rewrite Hb. cbn [orb]. apply not_true_is_false. intros H.
      apply existsb_exists in H as (e & He & Heq).
      pose proof (strict_eq_eq e gameId Heq) as ->.
      apply Hnotin. now apply list_elem_of_In.
    + intros other Hne. rewrite Hids. unfold Array_includes.
      rewrite !existsb_app. cbn [existsb]. now rewrite (Hother other Hne).
    + rewrite Hids in Hnodup. apply NoDup_app in Hnodup as (H1 & H2 & H3).
      apply NoDup_cons in H3 as [_ H3]. apply NoDup_app. split; [exact H1 | ].
      split; [ | exact H3]. intros x Hx1 Hx2. apply (H2 x Hx1). now right.
    + intros x Hx. left. rewrite Hids. apply elem_of_app in Hx as [Hx | Hx];
        apply elem_of_app; [now left | right; now right].
  - exists (ids ++ [gameId]). split; [ | split; [ | split; [ | split ] ] ].
    + unfold toggleMustWatch, bind. rewrite Hget. unfold toggled_games, Array_indexOf.
      rewrite indexOf_from_none by assumption. rewrite Z.eqb_refl. cbn [lift].
      now rewrite saveMustWatchGames_run.
    + rewrite Array_includes_app, Hin. cbn [negb orb]. now apply strict_eq_primitive.
    + intros other Hne. rewrite Array_includes_app. rewrite (Hother other Hne).
      apply orb_false_r.
    + apply NoDup_app. split; [exact Hnodup | ]. split; [ | apply NoDup_singleton].
      intros x Hx Hx'. apply list_elem_of_singleton in Hx'. subst x.
      rewrite (Array_includes_elem ids gameId Hprim Hx) in Hin. discriminate.
    + intros x Hx. apply elem_of_app in Hx as [Hx | Hx]; [now left | right].
      now apply list_elem_of_singleton in Hx.
Qed.

Lemma toggleMustWatch_flips_witness :
  exists ids' : list jsval,
    toggleMustWatch (ret tt) (VStr (js "401584893")) first_visit
    = ret tt (stored MUST_WATCH_KEY (SerializeJSON (VArr ids')) first_visit)
    /\ Array_includes ids' (VStr (js "401584893")) = negb (Array_includes [] (VStr (js "401584893"))).
Proof.
  destruct (toggleMustWatch_flips (ret tt) first_visit [] (VStr (js "401584893")))
    as (ids' & Hrun & Hflip & _).
  - reflexivity.
  - split; reflexivity.
  - reflexivity.
  - apply NoDup_nil_2.
  - exists ids'. split; [exact Hrun | exact Hflip].
Defined.

(** ** Watch-party links *)

Section Link_facts.
Local Open Scope N_scope.

Lemma b64_char_text (n : N) : n < 64 -> b64_text (b64_char n) = true.
Proof.
  intros Hn. unfold b64_text, b64_char.
  destruct (n <? 26) eqn:E1; [apply N.ltb_lt in E1 | apply N.ltb_ge in E1].
  { replace ((65 <=? 65 + n) && (65 + n <=? 90)) with true; [reflexivity | ].
    symmetry. apply andb_true_iff. split; apply N.leb_le; lia. }
  destruct (n <? 52) eqn:E2; [apply N.ltb_lt in E2 | apply N.ltb_ge in E2].
  { replace ((97 <=? 71 + n) && (71 + n <=? 122)) with true;
      [now rewrite orb_true_r | ].
    symmetry. apply andb_true_iff. split; apply N.leb_le; lia. }
  destruct (n <? 62) eqn:E3; [apply N.ltb_lt in E3 | apply N.ltb_ge in E3].
  { replace ((48 <=? n - 4) && (n - 4 <=? 57)) with true;
      [now rewrite !orb_true_r | ].
    symmetry. apply andb_true_iff. split; apply N.leb_le; lia. }
  destruct (n =? 62); [now rewrite !orb_true_r | ].
  cbn. reflexivity.
Qed.

Lemma b64_encode_text (s : jsstring) : bytes s -> forallb b64_text (b64_encode s) = true.
Proof.
  induction s as [ | a | a b | a b c r IH ] using list_triple_ind; intros Hs.
  - reflexivity.
  - apply Forall_cons in Hs as [Ha _].
    destruct (sextet_bounds a 0 0 Ha) as (H1 & H2 & _); [lia | lia | ].
    cbn [b64_encode forallb]. rewrite !b64_char_text by assumption. reflexivity.
  - apply Forall_cons in Hs as [Ha Hs]. apply Forall_cons in Hs as [Hb _].
    destruct (sextet_bounds a b 0 Ha Hb) as (H1 & _ & H3 & H4 & _); [lia | ].
    cbn [b64_encode forallb]. rewrite !b64_char_text by assumption. reflexivity.
  - apply Forall_cons in Hs as [Ha Hs]. apply Forall_cons in Hs as [Hb Hs].
    apply Forall_cons in Hs as [Hc Hs].
    destruct (sextet_bounds a b c Ha Hb Hc) as (H1 & _ & H3 & _ & H5 & H6).
    cbn [b64_encode forallb]. rewrite !b64_char_text by assumption.
    now rewrite IH.
Qed.

Lemma b64_char_plus (n : N) : n < 64 -> n <> 62 -> (b64_char n =? 43) = false.
Proof.
  intros Hn Hne. unfold b64_char.
  destruct (n <? 26) eqn:E1; [apply N.ltb_lt in E1; apply N.eqb_neq; lia | ].
  destruct (n <? 52) eqn:E2; [apply N.ltb_lt in E2; apply N.eqb_neq; lia | ].
  apply N.ltb_ge in E1, E2.
  destruct (n <? 62) eqn:E3; [apply N.ltb_lt in E3; apply N.eqb_neq; lia | ].
  apply N.eqb_neq in Hne. rewrite Hne. reflexivity.
Qed.

Lemma sextets_not_62 (a b c : N) :
  a < 128 -> b < 128 -> c < 128 -> c <> 62 -> c <> 126 ->
  a / 4 <> 62 /\ a mod 4 * 16 <> 62 /\ a mod 4 * 16 + b / 16 <> 62
  /\ b mod 16 * 4 <> 62 /\ b mod 16 * 4 + c / 64 <> 62 /\ c mod 64 <> 62.
Proof.
  intros Ha Hb Hc H62 H126.
  repeat split; zify; Z.to_euclidean_division_equations; lia.
Qed.

Lemma link_safe_cons (c : N) (s : jsstring) :
  link_safe (c :: s) = true -> (c < 128 /\ c <> 62 /\ c <> 126) /\ link_safe s = true.
Proof.
  unfold link_safe. cbn [forallb]. intros H. apply andb_true_iff in H as [Hc Hs].
  apply andb_true_iff in Hc as [Hc H126]. apply andb_true_iff in Hc as [Hc H62].
  apply N.ltb_lt in Hc. apply negb_true_iff, N.eqb_neq in H62, H126. auto.
Qed.

Lemma b64_encode_no_plus (s : jsstring) :
  link_safe s = true -> forallb (fun c => negb (c =? 43)) (b64_encode s) = true.
Proof.
  induction s as [ | a | a b | a b c r IH ] using list_triple_ind; intros Hs.
  - reflexivity.
  - apply link_safe_cons in Hs as [(Ha & _) _].
    destruct (sextets_not_62 a 0 0) as (N1 & N2 & _); try lia.
    destruct (sextet_bounds a 0 0) as (H1 & H2 & _); try lia.
    cbn [b64_encode forallb]. rewrite !b64_char_plus by assumption. reflexivity.
  - apply link_safe_cons in Hs as [(Ha & _) Hs].
    apply link_safe_cons in Hs as [(Hb & _) _].
    destruct (sextets_not_62 a b 0) as (N1 & _ & N3 & N4 & _); try lia.
    destruct (sextet_bounds a b 0) as (H1 & _ & H3 & H4 & _); try lia.
    cbn [b64_encode forallb]. rewrite !b64_char_plus by assumption. reflexivity.
  - apply link_safe_cons in Hs as [(Ha & _) Hs].
    apply link_safe_cons in Hs as [(Hb & _) Hs].
    apply link_safe_cons in Hs as [(Hc & H62 & H126) Hs].
    destruct (sextets_not_62 a b c) as (N1 & _ & N3 & _ & N5 & N6); try lia.
    destruct (sextet_bounds a b c) as (H1 & _ & H3 & _ & H5 & H6); try lia.
    cbn [b64_encode forallb]. rewrite !b64_char_plus by assumption.
    now rewrite IH.
Qed.

Lemma plus_to_space_same (s : jsstring) :
  forallb (fun c => negb (c =? 43)) s = true -> plus_to_space s = s.
Proof.
  induction s as [ | c r IH ]; [reflexivity | ]. cbn [forallb]. intros H.
  apply andb_true_iff in H as [Hc Hr]. unfold plus_to_space in *. cbn [List.map].
  apply negb_true_iff in Hc. rewrite Hc. now rewrite IH.
Qed.

Lemma b64_text_facts (c : N) :
  b64_text c = true ->
  c < 128 /\ c <> 37 /\ c <> 38 /\ c <> 9 /\ c <> 10 /\ c <> 13
  /\ forall is_special, in_query_percent_encode_set is_special c = false.
Proof.
  unfold b64_text. intros H.
  assert (Hc : 65 <= c <= 90 \/ 97 <= c <= 122 \/ 48 <= c <= 57
               \/ c = 43 \/ c = 47 \/ c = 61).
  { repeat (apply orb_true_iff in H as [H | H]);
      try (apply andb_true_iff in H as [H1 H2]; apply N.leb_le in H1, H2; lia);
      apply N.eqb_eq in H; lia. }
  repeat (split; [lia | ]).
  intros is_special. unfold in_query_percent_encode_set.
  replace (c <=? 32) with false by (symmetry; apply N.leb_gt; lia).
  replace (c =? 34) with false by (symmetry; apply N.eqb_neq; lia).
  replace (c =? 35) with false by (symmetry; apply N.eqb_neq; lia).
  replace (c =? 60) with false by (symmetry; apply N.eqb_neq; lia).
  replace (c =? 62) with false by (symmetry; apply N.eqb_neq; lia).
  replace (126 <? c) with false by (symmetry; apply N.ltb_ge; lia).
  replace (c =? 39) with false by (symmetry; apply N.eqb_neq; lia).
  now destruct is_special.
Qed.

Lemma percent_encode_text (is_special : bool) (s : jsstring) :
  forallb b64_text s = true ->
  List.filter (fun c => negb ((c =? 9) || (c =? 10) || (c =? 13))) s = s
  /\ existsb (fun c => 127 <? c) s = false
  /\ flat_map (percent_encode is_special) s = s.
Proof.
  induction s as [ | c r IH ]; [now repeat split | ]. cbn [forallb]. intros H.
  apply andb_true_iff in H as [Hc Hr]. destruct (IH Hr) as (IH1 & IH2 & IH3).
  destruct (b64_text_facts c Hc) as (H128 & _ & _ & H9 & H10 & H13 & Hset).
  cbn [List.filter existsb flat_map]. rewrite IH1, IH2, IH3.
  unfold percent_encode. rewrite Hset.
  apply N.eqb_neq in H9, H10, H13. rewrite H9, H10, H13. cbn [orb negb app].
  replace (127 <? c) with false by (symmetry; apply N.ltb_ge; lia).
  now repeat split.
Qed.

Lemma split_at_text (s : jsstring) :
  forallb b64_text s = true -> split_at 38 s = [s].
Proof.
  induction s as [ | c r IH ]; [reflexivity | ]. cbn [forallb]. intros H.
  apply andb_true_iff in H as [Hc Hr].
  destruct (b64_text_facts c Hc) as (_ & _ & H38 & _).
  cbn [split_at]. apply N.eqb_neq in H38. rewrite H38. now rewrite IH.
Qed.

Lemma percent_decode_text (s : jsstring) :
  forallb (fun c => (c <? 128) && negb (c =? 37)) s = true -> percent_decode s = Val s.
Proof.
  induction s as [ | c r IH ]; [reflexivity | ]. cbn [forallb]. intros H.
  apply andb_true_iff in H as [Hc Hr]. apply andb_true_iff in Hc as [H128 H37].
  apply N.ltb_lt in H128. apply negb_true_iff in H37.
  cbn [percent_decode].
  replace (127 <? c) with false by (symmetry; apply N.ltb_ge; lia).
  rewrite H37. rewrite (IH Hr).
  destruct r as [ | h [ | l r' ] ]; reflexivity.
Qed.

Lemma plus_to_space_text (s : jsstring) :
  forallb b64_text s = true ->
  forallb (fun c => (c <? 128) && negb (c =? 37)) (plus_to_space s) = true.
Proof.
  induction s as [ | c r IH ]; [reflexivity | ]. cbn [forallb]. intros H.
  apply andb_true_iff in H as [Hc Hr].
  destruct (b64_text_facts c Hc) as (H128 & H37 & _).
  unfold plus_to_space in *. cbn [List.map forallb]. rewrite (IH Hr).
  destruct (c =? 43); [reflexivity | ].
  replace (c <? 128) with true by (symmetry; apply N.ltb_lt; lia).
  apply N.eqb_neq in H37. now rewrite H37.
Qed.

End Link_facts.

Lemma wp_parameter_token (token : jsstring) :
  forallb b64_text token = true ->
  wp_parameter (js "?wp=" ++ token) = Val (VStr (plus_to_space token)).
Proof.
  intros Htoken. unfold wp_parameter, URLSearchParams.
  change (js "?wp=" ++ token) with (63%N :: js "wp=" ++ token).
  cbn [N.eqb Pos.eqb].
  rewrite split_at_text
    by (change (js "wp=" ++ token) with (119%N :: 112%N :: 61%N :: token);
        cbn [forallb]; now rewrite Htoken).
  change (js "wp=" ++ token) with (119%N :: 112%N :: 61%N :: token).
  cbn [form_pairs]. unfold form_pair.
  change (split_first 61 (119%N :: 112%N :: 61%N :: token)) with (js "wp", token).
  cbv iota beta.
  rewrite (percent_decode_text (plus_to_space (js "wp"))) by reflexivity.
  cbn [ev_bind].
  rewrite (percent_decode_text (plus_to_space token)) by now apply plus_to_space_text.
  cbn [ev_bind]. reflexivity.
Qed.

Lemma URL_set_search_token (token : jsstring) (u : URL) :
  forallb b64_text token = true ->
  URL_set_search (js "?wp=" ++ token) u
  = Val {| special := special u; before_query := before_query u;
           query := Some (js "wp=" ++ token); fragment := fragment u |}.
Proof.
  intros Htoken.
  assert (Htext : forallb b64_text (js "wp=" ++ token) = true)
    by (change (js "wp=" ++ token) with (119%N :: 112%N :: 61%N :: token);
        cbn [forallb]; now rewrite Htoken).
  destruct (percent_encode_text (special u) _ Htext) as (H1 & H2 & H3).
  unfold URL_set_search.
  change (js "?wp=" ++ token) with (63%N :: js "wp=" ++ token).
  cbn [N.eqb Pos.eqb]. rewrite H1, H2, H3. reflexivity.
Qed.

Lemma team_fields_record (t : jsval) :
  match t with VNull | VUndef => False | _ => True end ->
  team_fields t = Val (team_record t).
Proof.
  intros Ht. unfold team_fields, team_record, prop.
  destruct t; try contradiction; reflexivity.
Qed.

Lemma Array_map_records (teams : list jsval) :
  no_null teams = true ->
  Array_map teams team_fields = Val (List.map team_record teams).
Proof.
  induction teams as [ | t r IH ]; intros Hn; [reflexivity | ].
  apply no_null_cons in Hn as [Ht Hr]. cbn [Array_map List.map].
  rewrite team_fields_record by assumption. cbn [ev_bind]. now rewrite IH.
Qed.

(** X21. Sharing a watch party by link.  For teams and settings that are not
    [null], whose snapshot is a JSON value with a Latin-1 text,
    [generateWatchPartyURL] returns the page address with its query replaced
    by [wp=] and the token of the snapshot, the path and the fragment kept.
    On the page that opens the link, the [wp] parameter is the token with
    every [+] read as a space.  When the JSON text of the snapshot is ASCII
    without [>] and [~], the token has no [+], and
    [getWatchPartyFromURL] gives the recipient the snapshot itself. *)
Theorem share_link_roundtrip (location : URL) (teams : list jsval)
    (bigGameSettings showPreseason mustWatch : jsval) (w : World) :
  let x := party_settings teams bigGameSettings showPreseason mustWatch in
  let token := b64_encode (SerializeJSON x) in
  no_null (bigGameSettings :: teams) = true ->
  json_value x = true -> latin1 (SerializeJSON x) = true ->
  exists u : URL,
    generateWatchPartyURL location (VArr teams) bigGameSettings showPreseason mustWatch w
    = Ret (VStr (URL_href u)) w
    /\ URL_href u
       = before_query location ++ js "?wp=" ++ token
         ++ match fragment location with Some f => 35%N :: f | None => [] end
    /\ wp_parameter (URL_search u) = Val (VStr (plus_to_space token))
    /\ (link_safe (SerializeJSON x) = true ->
        plus_to_space token = token
        /\ forall w' : World,
             location_wp w' = VStr token -> getWatchPartyFromURL w' = Ret x w').
Proof.
  intros x token Hn Hjson Hlatin.
  apply no_null_cons in Hn as [Hsettings Hteams].
  assert (Htext : forallb b64_text token = true)
    by (apply b64_encode_text, latin1_bytes, Hlatin).
  assert (Hnonempty : token <> []).
  { unfold token. pose proof (SerializeJSON_truthy x) as Ht. cbn [truthy] in Ht.
    destruct (SerializeJSON x) as [ | a [ | b [ | c r ] ] ]; [discriminate Ht | | | ];
      cbn [b64_encode]; discriminate. }
  exists {| special := special location; before_query := before_query location;
            query := Some (js "wp=" ++ token); fragment := fragment location |}.
  split; [ | split; [ | split ] ].
  - unfold generateWatchPartyURL, bind.
    rewrite Array_map_records by assumption. cbn [ev_bind lift].
    assert (Hbig : get_prop bigGameSettings (js "perCompetition")
                   = Val (prop bigGameSettings (js "perCompetition"))).
    { unfold prop. destruct bigGameSettings; try contradiction; reflexivity. }
    rewrite Hbig. cbn [lift].
    change (VObj _) with (party_settings teams bigGameSettings showPreseason mustWatch).
    fold x.
    assert (Hencode : encodeWatchParty x w = Ret (VStr token) w).
    { unfold encodeWatchParty, try_catch, btoa_, btoa.
      rewrite json_value_stringify by assumption. cbn [ToString].
      fold (latin1 (SerializeJSON x)). rewrite Hlatin. reflexivity. }
    rewrite Hencode.
    replace (truthy (VStr token)) with true
      by (cbn [truthy]; destruct token; [contradiction | reflexivity]).
    cbn [negb ToString]. rewrite URL_set_search_token by assumption. reflexivity.
  - unfold URL_href. cbn [before_query query fragment]. 
    change (63%N :: js "wp=" ++ token) with (js "?wp=" ++ token).
    now rewrite <- !app_assoc.
  - unfold URL_search. cbn [query].
    change (js "wp=" ++ token) with (119%N :: js "p=" ++ token).
    cbv iota. change (63%N :: 119%N :: js "p=" ++ token) with (js "?wp=" ++ token).
    now apply wp_parameter_token.
  - intros Hsafe. split.
    + apply plus_to_space_same. now apply b64_encode_no_plus.
    + intros w' Hwp. unfold getWatchPartyFromURL. rewrite Hwp.
      replace (truthy (VStr token)) with true
        by (cbn [truthy]; destruct token; [contradiction | reflexivity]).
      now apply decodeWatchParty_token.
Qed.

Lemma share_link_roundtrip_witness :
  exists u : URL,
    generateWatchPartyURL
      {| special := true; before_query := js "https://example.org/calendar.html";
         query := None; fragment := None |}
      (VArr [everton]) DEFAULT_BIG_GAME_SETTINGS (VBool true) VUndef first_visit
    = Ret (VStr (URL_href u)) first_visit
    /\ wp_parameter (URL_search u)
       = Val (VStr (b64_encode
                      (SerializeJSON
                         (party_settings [everton] DEFAULT_BIG_GAME_SETTINGS (VBool true)
                            VUndef)))).
Proof.
  destruct (share_link_roundtrip
              {| special := true; before_query := js "https://example.org/calendar.html";
                 query := None; fragment := None |}
              [everton] DEFAULT_BIG_GAME_SETTINGS (VBool true) VUndef first_visit)
    as (u & Hurl & _ & Hwp & Hsafe).
  - reflexivity.
  - vm_compute. reflexivity.
  - vm_compute. reflexivity.
  - exists u. split; [exact Hurl | ]. rewrite Hwp.
    rewrite (proj1 (Hsafe ltac:(vm_compute; reflexivity))). reflexivity.
Defined.

(** ** Favourite ids on the calendar page *)

Lemma get_prop_prop (t : jsval) (k : jsstring) :
  match t with VNull | VUndef => False | _ => True end ->
  get_prop t k = Val (prop t k).
Proof. intros Ht. unfold prop. destruct t; try contradiction; reflexivity. Qed.

Lemma Array_filter_sport (sport : jsval) (teams : list jsval) :
  no_null teams = true ->
  Array_filter teams (fun t => let+ s := get_prop t (js "sport") in Val (strict_eq s sport))
  = Val (List.filter (fun t => strict_eq (prop t (js "sport")) sport) teams).
Proof.
  induction teams as [ | t r IH ]; intros Hn; [reflexivity | ].
  apply no_null_cons in Hn as [Ht Hr]. cbn [Array_filter List.filter].
  rewrite get_prop_prop by assumption. cbn [ev_bind]. rewrite IH by assumption.
  reflexivity.
Qed.

Lemma Array_map_ids (teams : list jsval) :
  no_null teams = true ->
  Array_map teams (fun t => get_prop t (js "id"))
  = Val (List.map (fun t => prop t (js "id")) teams).
Proof.
  induction teams as [ | t r IH ]; intros Hn; [reflexivity | ].
  apply no_null_cons in Hn as [Ht Hr]. cbn [Array_map List.map].
  rewrite get_prop_prop by assumption. cbn [ev_bind]. now rewrite IH.
Qed.

Lemma no_null_filter (f : jsval -> bool) (teams : list jsval) :
  no_null teams = true -> no_null (List.filter f teams) = true.
Proof.
  unfold no_null. intros H. apply forallb_forall. intros x Hx.
  apply filter_In in Hx as [Hx _]. rewrite forallb_forall in H. now apply H.
Qed.

Lemma getFavoriteTeamIdsBySport_run (w : World) (teams : list jsval) (d : bool)
    (sport : jsval) :
  getFavoriteTeams w = Ret (teams, d) w -> no_null teams = true ->
  getFavoriteTeamIdsBySport sport w = Ret (ids_of_sport sport teams) w.
Proof.
  intros Hget Hn. unfold getFavoriteTeamIdsBySport, bind. rewrite Hget.
  rewrite Array_filter_sport by assumption. cbn [lift].
  rewrite Array_map_ids by now apply no_null_filter. reflexivity.
Qed.


